(** * Verification of the withu-mirai voice widget: VAD, orchestrator, barge-in, TTS cache

    Shallow embedding of [widget-src/vad.ts] (part_002), [widget-src/constants.ts]
    (part_003), [widget-src/recorder.ts] and the first orchestrator variant of
    [widget-src/index.ts] (lines 94-870).  Times ([performance.now()]) are
    modelled as integer milliseconds ([Z]); RMS levels as rationals ([Q]). *)

From Stdlib Require Import ZArith QArith List String Bool Lia.
Import ListNotations.
Open Scope Z_scope.

(* ------------------------------------------------------------------ *)
(** ** constants.ts *)

Record VadConfig := mkVadConfig {
  minSpeechMs : Z;
  silenceMs : Z;
  maxSpeechMs : Z;
  rmsThreshold : Q
}.

(** [VAD_CONFIG] (part_003, lines 4-10). *)
Definition VAD_CONFIG : VadConfig :=
  {| minSpeechMs := 300; silenceMs := 700; maxSpeechMs := 15000;
     rmsThreshold := 2 # 100 |}.

(* ------------------------------------------------------------------ *)
(** ** vad.ts: [createVad] *)

Module Vad.

(** The [Internal] record of [createVad]; [analyser] stands for the audio
    graph ([audioCtx]/[analyser]/[source]/[buf]) being present and
    [rafPending] for [rafId] holding a scheduled frame. *)
Record Internal := mkInternal {
  running : bool;
  analyser : bool;
  rafPending : bool;
  inSpeech : bool;
  speechStartAt : Z;
  lastVoiceAt : Z
}.

(** The recorder of recorder.ts as seen by the VAD: its [recording] flag. *)
Record RecorderSt := mkRec { recording : bool }.

Inductive Reason := RSilence | RMax.

(** An [endSpeech] call suspended at [await recorder.stop()]: its reason,
    the [durationMs] it computed before the await, and whether the stop it
    issued was a real one ([recording] was true) or the empty-payload one. *)
Record EndCall := mkEnd {
  e_reason : Reason;
  e_durationMs : Z;
  e_real : bool
}.

(** Callbacks fired by the VAD ([cb.onSpeechStart], [cb.onSpeechEnd],
    [cb.onDebug], [cb.onError]). *)
Inductive VadEvent :=
| EvSpeechStart
| EvSpeechEnd (durationMs sizeBytes : Z)
| EvDebug (rms : Q)
| EvError.

Record Cfg := mkCfg {
  st : Internal;
  rec : RecorderSt;
  pending : list EndCall
}.

(** Inputs from the environment: an animation frame at time [t] with the
    measured [rms] (and whether [recorder.start()] would throw), or the
    resolution of the [i]-th pending [recorder.stop()] with the blob size. *)
Inductive Input :=
| ITick (t : Z) (rms : Q) (startOk : bool)
| IStopDone (i : nat) (sizeBytes : Z).

Definition set_inSpeech (s : Internal) (b : bool) : Internal :=
  {| running := running s; analyser := analyser s; rafPending := rafPending s;
     inSpeech := b; speechStartAt := speechStartAt s; lastVoiceAt := lastVoiceAt s |}.

Definition set_raf (s : Internal) (b : bool) : Internal :=
  {| running := running s; analyser := analyser s; rafPending := b;
     inSpeech := inSpeech s; speechStartAt := speechStartAt s; lastVoiceAt := lastVoiceAt s |}.

Definition set_lastVoice (s : Internal) (t : Z) : Internal :=
  {| running := running s; analyser := analyser s; rafPending := rafPending s;
     inSpeech := inSpeech s; speechStartAt := speechStartAt s; lastVoiceAt := t |}.

(** [recorder.start()] (recorder.ts 41-47): a no-op when already recording;
    otherwise [recording := true] is set BEFORE [ensureMr()]/[r.start(200)],
    which may throw. Returns the new recorder and whether it threw. *)
Definition recorder_start (r : RecorderSt) (ok : bool) : RecorderSt * bool :=
  if recording r then (r, true) else (mkRec true, ok).

(** The synchronous part of [recorder.stop()] (recorder.ts 48-58): when
    recording, [recording := false] and a real stop is issued; otherwise an
    empty payload is returned. The boolean says which. *)
Definition recorder_stop_sync (r : RecorderSt) : RecorderSt * bool :=
  if recording r then (mkRec false, true) else (r, false).

(** [endSpeech(reason)] up to its first await (lines 104-107). *)
Definition endSpeech_call (c : Cfg) (reason : Reason) (now : Z) : Cfg :=
  let durationMs := Z.max 0 (now - speechStartAt (st c)) in
  let (r', real) := recorder_stop_sync (rec c) in
  mkCfg (st c) r' (pending c ++ [mkEnd reason durationMs real]).

(** The continuation of [endSpeech] once [recorder.stop()] resolves
    (lines 108-111). [sizeBytes] is the size of the finalised blob; an
    empty-payload stop yields 0. *)
Definition endSpeech_resume (c : Cfg) (e : EndCall) (rest : list EndCall) (size : Z)
  : Cfg * list VadEvent :=
  let sizeBytes := if e_real e then size else 0 in
  let c' := mkCfg (set_inSpeech (st c) false) (rec c) rest in
  if e_durationMs e <? minSpeechMs VAD_CONFIG then (c', [])
  else (c', [EvSpeechEnd (e_durationMs e) sizeBytes]).

Definition isVoiceQ (rms : Q) : bool := Qle_bool (rmsThreshold VAD_CONFIG) rms.

(** [tick()] (lines 117-151). The frame that runs it consumes [rafId]. *)
Definition tick (c : Cfg) (t : Z) (rms : Q) (startOk : bool) : Cfg * list VadEvent :=
  let s0 := set_raf (st c) false in
  if negb (running s0) || negb (analyser s0) then (mkCfg s0 (rec c) (pending c), [])
  else
    let isVoice := isVoiceQ rms in
    if negb (inSpeech s0) then
      if isVoice then
        let s1 := {| running := running s0; analyser := analyser s0;
                     rafPending := false; inSpeech := true;
                     speechStartAt := t; lastVoiceAt := t |} in
        let (r', ok) := recorder_start (rec c) startOk in
        if ok then (mkCfg (set_raf s1 true) r' (pending c), [EvDebug rms; EvSpeechStart])
        else (mkCfg s1 r' (pending c), [EvDebug rms; EvError])
      else (mkCfg (set_raf s0 true) (rec c) (pending c), [EvDebug rms])
    else
      let s1 := if isVoice then set_lastVoice s0 t else s0 in
      let speechMs := t - speechStartAt s1 in
      let silMs := t - lastVoiceAt s1 in
      let c1 := mkCfg s1 (rec c) (pending c) in
      let c2 :=
        if speechMs >=? maxSpeechMs VAD_CONFIG then endSpeech_call c1 RMax t
        else if silMs >=? silenceMs VAD_CONFIG then endSpeech_call c1 RSilence t
        else c1 in
      (mkCfg (set_raf (st c2) true) (rec c2) (pending c2), [EvDebug rms]).

Fixpoint remove_nth {A} (i : nat) (l : list A) : option (A * list A) :=
  match i, l with
  | _, [] => None
  | O, x :: r => Some (x, r)
  | S i', x :: r =>
      match remove_nth i' r with
      | Some (y, r') => Some (y, x :: r')
      | None => None
      end
  end.

(** One environment input. A frame arrives only while one is scheduled. *)
Definition step (c : Cfg) (i : Input) : Cfg * list VadEvent :=
  match i with
  | ITick t rms ok => if rafPending (st c) then tick c t rms ok else (c, [])
  | IStopDone n size =>
      match remove_nth n (pending c) with
      | Some (e, rest) => endSpeech_resume c e rest size
      | None => (c, [])
      end
  end.

Fixpoint run (c : Cfg) (is : list Input) : Cfg * list VadEvent :=
  match is with
  | [] => (c, [])
  | i :: is' =>
      let (c1, ev1) := step c i in
      let (c2, ev2) := run c1 is' in
      (c2, ev1 ++ ev2)
  end.

(** State right after [controller.start()] resolved on a fresh VAD
    (lines 154-161): graph built, [running], one frame scheduled. *)
Definition started : Cfg :=
  mkCfg {| running := true; analyser := true; rafPending := true;
           inSpeech := false; speechStartAt := 0; lastVoiceAt := 0 |}
        (mkRec false) [].

End Vad.

(* ------------------------------------------------------------------ *)
(** ** Orchestrator-independent facts about the VAD *)

Module VadFacts.
Import Vad.

(** The loudness trace of the spec's example scenario, one sample per
    100 ms frame, continued with silence. *)
Definition example_samples : list Q :=
  [0; 0; 3#100; 3#100; 3#100; 0; 0; 0; 0; 0; 0; 0]%Q.

Fixpoint frames (t : Z) (l : list Q) : list Input :=
  match l with
  | [] => []
  | q :: r => ITick t q true :: frames (t + 100) r
  end.

Lemma endSpeech_call_shape c reason now :
  st (endSpeech_call c reason now) = st c /\
  recording (rec (endSpeech_call c reason now)) = false /\
  pending (endSpeech_call c reason now) =
    pending c ++ [mkEnd reason (Z.max 0 (now - speechStartAt (st c))) (recording (rec c))].
Proof.
  destruct c as [s [r] p]; unfold endSpeech_call, recorder_stop_sync; simpl.
  destruct r; simpl; auto.
Qed.

Lemma remove_nth_app_last {A} (l : list A) (x : A) :
  remove_nth (List.length l) (l ++ [x]) = Some (x, l).
Proof.
  induction l as [|y l IH]; simpl; [reflexivity|].
  rewrite IH; reflexivity.
Qed.

(** A segment ended by silence is at least [silenceMs] long: the
    [durationMs] that [endSpeech] computes counts the silent tail. *)
Lemma silence_end_duration_ge c t rms ok c' ev :
  inSpeech (st c) = true -> rafPending (st c) = true ->
  step c (ITick t rms ok) = (c', ev) ->
  Forall (fun e => e_reason e = RSilence -> e_durationMs e >= silenceMs VAD_CONFIG)
         (pending c) ->
  lastVoiceAt (st c) >= speechStartAt (st c) ->
  Forall (fun e => e_reason e = RSilence -> e_durationMs e >= silenceMs VAD_CONFIG)
         (pending c').
Proof.
  intros Hin Hraf Hstep Hall Hord.
  destruct c as [[ru an ra ins ssa lva] rc p]; simpl in *; subst ins ra.
  unfold step, tick in Hstep; simpl in Hstep.
  destruct ru, an; simpl in Hstep;
    try (injection Hstep as <- _; exact Hall).
  injection Hstep as <- _; simpl.
  assert (Hnew : forall r d real, (r = RSilence -> d >= 700) ->
            Forall (fun e => e_reason e = RSilence -> e_durationMs e >= silenceMs VAD_CONFIG)
                   (p ++ [mkEnd r d real])).
  { intros r d real Hd. apply Forall_app; split; [exact Hall|].
    constructor; [exact Hd | constructor]. }
  destruct (isVoiceQ rms) eqn:Hv; simpl;
    destruct (t - ssa >=? 15000) eqn:Hm; simpl;
    try (rewrite (proj2 (proj2 (endSpeech_call_shape _ _ _)));
         apply Hnew; discriminate).
  - destruct (t - t >=? 700) eqn:Hs; simpl; [|exact Hall].
    apply Z.geb_le in Hs; lia.
  - destruct (t - lva >=? 700) eqn:Hs; simpl; [|exact Hall].
    rewrite (proj2 (proj2 (endSpeech_call_shape _ _ _))); simpl.
    apply Hnew; intros _. apply Z.geb_le in Hs; lia.
Qed.

(** A frame delivered while the VAD is in its idle sub-state. *)
Lemma tick_idle_shape c t rms ok c' ev :
  running (st c) = true -> analyser (st c) = true -> rafPending (st c) = true ->
  inSpeech (st c) = false ->
  step c (ITick t rms ok) = (c', ev) ->
  (isVoiceQ rms = true -> recording (rec c) = false -> ok = true ->
     inSpeech (st c') = true /\ speechStartAt (st c') = t /\ lastVoiceAt (st c') = t /\
     recording (rec c') = true /\ running (st c') = true /\ rafPending (st c') = true /\
     pending c' = pending c /\ ev = [EvDebug rms; EvSpeechStart]) /\
  (isVoiceQ rms = true -> recording (rec c) = false -> ok = false ->
     inSpeech (st c') = true /\ rafPending (st c') = false /\ ev = [EvDebug rms; EvError]) /\
  (isVoiceQ rms = false ->
     inSpeech (st c') = false /\ rafPending (st c') = true /\ pending c' = pending c /\
     rec c' = rec c /\ ev = [EvDebug rms]).
Proof.
  intros Hru Han Hraf Hin Hstep.
  destruct c as [[ru an ra ins ssa lva] [rc] p]; simpl in *; subst ru an ra ins.
  unfold step, tick, recorder_start in Hstep; simpl in Hstep.
  destruct (isVoiceQ rms) eqn:Hv; simpl in Hstep.
  - split; [|split]; [intros _ Hrc Hok .. | intros; discriminate];
      subst rc ok; injection Hstep as <- <-; simpl; repeat split.
  - split; [|split]; intros; try discriminate.
    injection Hstep as <- <-; simpl; repeat split.
Qed.

(** A frame delivered while the VAD is in its inSpeech sub-state: it calls
    [endSpeech] ("max" first, then "silence") or leaves the segment open. *)
Lemma tick_inSpeech_shape c t rms ok c' ev :
  running (st c) = true -> analyser (st c) = true -> rafPending (st c) = true ->
  inSpeech (st c) = true ->
  step c (ITick t rms ok) = (c', ev) ->
  let last := if isVoiceQ rms then t else lastVoiceAt (st c) in
  let dur := Z.max 0 (t - speechStartAt (st c)) in
  ev = [EvDebug rms] /\ running (st c') = true /\ analyser (st c') = true /\
  rafPending (st c') = true /\ inSpeech (st c') = true /\
  speechStartAt (st c') = speechStartAt (st c) /\ lastVoiceAt (st c') = last /\
  (if t - speechStartAt (st c) >=? maxSpeechMs VAD_CONFIG then
     pending c' = pending c ++ [mkEnd RMax dur (recording (rec c))] /\ recording (rec c') = false
   else if t - last >=? silenceMs VAD_CONFIG then
     pending c' = pending c ++ [mkEnd RSilence dur (recording (rec c))] /\ recording (rec c') = false
   else pending c' = pending c /\ rec c' = rec c).
Proof.
  intros Hru Han Hraf Hin Hstep last dur.
  destruct c as [[ru an ra ins ssa lva] rc p]; simpl in *; subst ru an ra ins.
  unfold step, tick in Hstep; simpl in Hstep.
  injection Hstep as <- <-.
  subst last dur.
  destruct (isVoiceQ rms); simpl;
    destruct (t - ssa >=? 15000); simpl;
    try destruct (t - t >=? 700); try destruct (t - lva >=? 700); simpl;
    repeat rewrite ?(proj1 (endSpeech_call_shape _ _ _)),
                   ?(proj1 (proj2 (endSpeech_call_shape _ _ _))),
                   ?(proj2 (proj2 (endSpeech_call_shape _ _ _)));
    simpl; repeat split; auto.
Qed.

(** Resolution of a pending [recorder.stop()] of an [endSpeech] call. *)
Lemma stopdone_shape c n e rest size c' ev :
  remove_nth n (pending c) = Some (e, rest) ->
  step c (IStopDone n size) = (c', ev) ->
  inSpeech (st c') = false /\ running (st c') = running (st c) /\
  analyser (st c') = analyser (st c) /\ rafPending (st c') = rafPending (st c) /\
  speechStartAt (st c') = speechStartAt (st c) /\
  rec c' = rec c /\ pending c' = rest /\
  (e_durationMs e < minSpeechMs VAD_CONFIG -> ev = []) /\
  (e_durationMs e >= minSpeechMs VAD_CONFIG ->
     ev = [EvSpeechEnd (e_durationMs e) (if e_real e then size else 0)]).
Proof.
  intros Hrm Hstep.
  unfold step in Hstep; rewrite Hrm in Hstep.
  unfold endSpeech_resume in Hstep.
  destruct (e_durationMs e <? minSpeechMs VAD_CONFIG) eqn:Hlt.
  - apply Z.ltb_lt in Hlt; injection Hstep as <- <-; simpl in Hlt |- *.
    repeat split; intros; first [reflexivity | lia | exfalso; lia].
  - apply Z.ltb_ge in Hlt; injection Hstep as <- <-; simpl in Hlt |- *.
    repeat split; intros; first [reflexivity | lia | exfalso; lia].
Qed.

End VadFacts.

Module VadClaims.
Import Vad VadFacts.

(** C3 (counterexample): the segmentation policy as claimed says a loud
    frame in the idle sub-state always starts the recorder and emits
    [onSpeechStart]. When [recorder.start()] throws, [tick] reports
    [onError] instead, emits no [onSpeechStart] and schedules no further
    frame (the loop stops), although [inSpeech] was already set. *)
Lemma vad_recorder_start_failure_no_speech_start :
  let (c, evs) := run started [ITick 0 (3 # 100) false] in
  inSpeech (st c) = true /\ recording (rec c) = true /\
  ~ In EvSpeechStart evs /\ In EvError evs /\ rafPending (st c) = false.
Proof.
  vm_compute. split; [reflexivity|]. split; [reflexivity|].
  split; [intros [H|[H|[]]]; discriminate H|].
  split; [right; left; reflexivity | reflexivity].
Qed.

(** C3 (amended): per delivered frame of a running VAD. From the idle
    sub-state, a frame with RMS >= rmsThreshold sets [inSpeech] with
    [speechStartAt] = now and calls [recorder.start()]: when it does not
    throw (it succeeds, or the recorder is already recording and it does
    nothing) [onSpeechStart] is emitted once and sampling continues; if it
    throws it emits [onError] and the loop stops; a quiet frame changes
    nothing. From inSpeech, the frame calls [endSpeech] (stopping the
    recorder) exactly when elapsed time since speech start reaches
    maxSpeechMs ("max") or otherwise the time since the last loud frame
    reaches silenceMs ("silence"). When that stop resolves, [inSpeech] is
    cleared, and [onSpeechEnd] is emitted, with the duration [endSpeech]
    measured and the size of the stopped recording (0 for the empty
    payload of a recorder that was not recording), iff
    [durationMs >= minSpeechMs]; otherwise nothing is emitted. *)
Theorem vad_segmentation_policy c t rms ok c' ev :
  running (st c) = true -> analyser (st c) = true -> rafPending (st c) = true ->
  step c (ITick t rms ok) = (c', ev) ->
  (inSpeech (st c) = false ->
     (isVoiceQ rms = true -> (ok = true \/ recording (rec c) = true) ->
        inSpeech (st c') = true /\ speechStartAt (st c') = t /\
        recording (rec c') = true /\ rafPending (st c') = true /\
        ev = [EvDebug rms; EvSpeechStart]) /\
     (isVoiceQ rms = true -> recording (rec c) = false -> ok = false ->
        inSpeech (st c') = true /\ rafPending (st c') = false /\ ev = [EvDebug rms; EvError]) /\
     (isVoiceQ rms = false ->
        inSpeech (st c') = false /\ rafPending (st c') = true /\ ev = [EvDebug rms])) /\
  (inSpeech (st c) = true ->
     let last := if isVoiceQ rms then t else lastVoiceAt (st c) in
     let dur := Z.max 0 (t - speechStartAt (st c)) in
     ev = [EvDebug rms] /\ rafPending (st c') = true /\
     (if t - speechStartAt (st c) >=? maxSpeechMs VAD_CONFIG then
        pending c' = pending c ++ [mkEnd RMax dur (recording (rec c))] /\
        recording (rec c') = false
      else if t - last >=? silenceMs VAD_CONFIG then
        pending c' = pending c ++ [mkEnd RSilence dur (recording (rec c))] /\
        recording (rec c') = false
      else pending c' = pending c /\ inSpeech (st c') = true)) /\
  (forall n e rest size c'' ev'',
     remove_nth n (pending c) = Some (e, rest) ->
     step c (IStopDone n size) = (c'', ev'') ->
     inSpeech (st c'') = false /\
     (e_durationMs e < minSpeechMs VAD_CONFIG -> ev'' = []) /\
     (e_durationMs e >= minSpeechMs VAD_CONFIG ->
        ev'' = [EvSpeechEnd (e_durationMs e) (if e_real e then size else 0)])).
Proof.
  intros Hru Han Hraf Hstep.
  split; [|split].
  - intros Hin.
    split; [|split].
    + intros Hv Hor.
      destruct c as [[ru an ra ins ssa lva] [rc] p]; cbn in *; subst ru an ra ins.
      unfold step, tick, recorder_start in Hstep; cbn in Hstep.
      rewrite Hv in Hstep; cbn in Hstep.
      destruct rc.
      * injection Hstep as <- <-; cbn; repeat split.
      * destruct Hor as [-> | H]; [|discriminate H].
        injection Hstep as <- <-; cbn; repeat split.
    + intros Hv Hr Hok.
      destruct (tick_idle_shape c t rms ok c' ev Hru Han Hraf Hin Hstep) as [_ [H2 _]].
      exact (H2 Hv Hr Hok).
    + intros Hv.
      destruct (tick_idle_shape c t rms ok c' ev Hru Han Hraf Hin Hstep) as [_ [_ H3]].
      destruct (H3 Hv) as (A & B & _ & _ & C).
      repeat split; assumption.
  - intros Hin.
    pose proof (tick_inSpeech_shape c t rms ok c' ev Hru Han Hraf Hin Hstep) as H.
    simpl in H |- *.
    destruct H as (A & _ & _ & B & C & _ & _ & D).
    split; [exact A|]. split; [exact B|].
    destruct (t - speechStartAt (st c) >=? 15000); [exact D|].
    destruct (t - (if isVoiceQ rms then t else lastVoiceAt (st c)) >=? 700);
      [exact D | destruct D; split; assumption].
  - intros n e rest size c'' ev'' Hrm Hs.
    destruct (stopdone_shape c n e rest size c'' ev'' Hrm Hs)
      as (A & _ & _ & _ & _ & _ & _ & B & C).
    split; [exact A|]. split; [exact B | exact C].
Qed.

Lemma vad_segmentation_policy_witness :
  running (st started) = true /\ analyser (st started) = true /\
  rafPending (st started) = true /\
  step started (ITick 0 (3 # 100) true) = step started (ITick 0 (3 # 100) true) /\
  inSpeech (st (fst (step started (ITick 0 (3 # 100) true)))) = true.
Proof.
  refine (conj eq_refl (conj eq_refl (conj eq_refl (conj eq_refl _)))).
  destruct (step started (ITick 0 (3 # 100) true)) as [c' ev] eqn:E.
  destruct (vad_segmentation_policy started 0 (3 # 100) true c' ev
              eq_refl eq_refl eq_refl E) as [Hidle _].
  destruct (Hidle eq_refl) as [H1 _].
  exact (proj1 (H1 eq_refl (or_introl eq_refl))).
Defined.

(** C4 (failing input): the spec's example trace [0,0,.03,.03,.03,0,...]
    at 100 ms frames. Speech starts on the third frame (t = 200); the
    silence timeout is reached at t = 1100, where [endSpeech] measures
    [durationMs] = 1100 - 200 = 900 >= minSpeechMs, so [onSpeechEnd]
    fires once the recorder stop resolves. *)
Theorem vad_example_trace_emits_speech_end :
  snd (run started (frames 0 example_samples ++ [IStopDone 0 5000])) =
    [EvDebug 0; EvDebug 0; EvDebug (3 # 100); EvSpeechStart;
     EvDebug (3 # 100); EvDebug (3 # 100); EvDebug 0; EvDebug 0; EvDebug 0;
     EvDebug 0; EvDebug 0; EvDebug 0; EvDebug 0; EvSpeechEnd 900 5000].
Proof. vm_compute. reflexivity. Qed.

(** Animation frames only. *)
Definition isTick (i : Input) : bool :=
  match i with ITick _ _ _ => true | IStopDone _ _ => false end.

Lemma fst_run_cons (c : Cfg) (i : Input) (is : list Input) :
  fst (run c (i :: is)) = fst (run (fst (step c i)) is).
Proof.
  cbn [run]. destruct (step c i) as [c1 ev1]. cbn [fst].
  destruct (run c1 is) as [c2 ev2]. reflexivity.
Qed.

(** Frames delivered while a segment is open keep it open and the loop
    going; they may only append [endSpeech] calls, and the recorder stays
    stopped. *)
Lemma ticks_keep_open (c : Cfg) (mid : list Input) :
  running (st c) = true -> analyser (st c) = true -> rafPending (st c) = true ->
  inSpeech (st c) = true -> recording (rec c) = false -> forallb isTick mid = true ->
  let cm := fst (run c mid) in
  running (st cm) = true /\ analyser (st cm) = true /\ rafPending (st cm) = true /\
  inSpeech (st cm) = true /\ recording (rec cm) = false /\
  exists extra, pending cm = pending c ++ extra.
Proof.
  revert c; induction mid as [|i mid IH]; intros c Hru Han Hraf Hin Hrc Ht; cbv zeta.
  - cbn. repeat split; try assumption. exists []; rewrite app_nil_r; reflexivity.
  - cbn [forallb] in Ht; apply andb_prop in Ht as [Hi Ht].
    destruct i as [t q b|]; [|discriminate Hi].
    rewrite fst_run_cons.
    destruct (step c (ITick t q b)) as [c1 ev1] eqn:S1; cbn [fst].
    destruct (tick_inSpeech_shape c t q b c1 ev1 Hru Han Hraf Hin S1)
      as (_ & R1 & A1 & F1 & I1 & _ & _ & D).
    assert (Hc1 : recording (rec c1) = false /\ exists x, pending c1 = pending c ++ x).
    { destruct (t - speechStartAt (st c) >=? maxSpeechMs VAD_CONFIG);
        [destruct D as [D1 D2]; split; [exact D2 | eexists; exact D1]|].
      destruct (t - _ >=? silenceMs VAD_CONFIG);
        [destruct D as [D1 D2]; split; [exact D2 | eexists; exact D1]|].
      destruct D as [D1 D2]; rewrite D2; split; [exact Hrc | exists []; rewrite app_nil_r; exact D1]. }
    destruct Hc1 as [Rc1 [x Px]].
    destruct (IH c1 R1 A1 F1 I1 Rc1 Ht) as (R & A & F & I & Rc & y & Py).
    repeat split; try assumption.
    exists (x ++ y). rewrite Py, Px, app_assoc. reflexivity.
Qed.

Lemma remove_nth_lt {A} (j : nat) (l : list A) :
  (j < List.length l)%nat -> exists x r, remove_nth j l = Some (x, r).
Proof.
  revert j; induction l as [|y l IH]; intros j H; cbn in H; [lia|].
  destruct j as [|j]; [exists y, l; reflexivity|].
  destruct (IH j ltac:(lia)) as (x & r & E).
  exists x, (y :: r); cbn; rewrite E; reflexivity.
Qed.

Lemma nth_error_app_prefix {A} (l x : list A) (n : nat) :
  (n < List.length l)%nat -> nth_error (l ++ x) n = nth_error l n.
Proof. intros H; apply nth_error_app1, H. Qed.

(** C9: a frame that ends a segment (by silence or by the maximum
    duration) stops the recorder at once and keeps the frame loop
    scheduled. Any number of further frames may arrive before that stop
    resolves (each may call [endSpeech] again): the segment stays open,
    the loop keeps running, the recorder stays stopped and the segment's
    own stop stays pending at its place. When a pending stop then
    resolves, the segment's own or a later one, whether a segment is
    emitted or discarded, the VAD is back in its idle sub-state with the
    loop still running and the recorder stopped, and the next loud frame
    starts a new segment. *)
Theorem vad_segment_end_back_to_idle c t rms ok c1 ev1 :
  running (st c) = true -> analyser (st c) = true -> rafPending (st c) = true ->
  inSpeech (st c) = true ->
  step c (ITick t rms ok) = (c1, ev1) ->
  List.length (pending c1) = S (List.length (pending c)) ->
  recording (rec c1) = false /\ running (st c1) = true /\ rafPending (st c1) = true /\
  (forall (mid : list Input) (j : nat) (size : Z) (c2 : Cfg) (ev2 : list VadEvent)
          (t' : Z) (rms' : Q) (c3 : Cfg) (ev3 : list VadEvent),
     forallb isTick mid = true ->
     let cm := fst (run c1 mid) in
     inSpeech (st cm) = true /\ running (st cm) = true /\ rafPending (st cm) = true /\
     recording (rec cm) = false /\
     nth_error (pending cm) (List.length (pending c)) =
       nth_error (pending c1) (List.length (pending c)) /\
     ((j < List.length (pending cm))%nat ->
      step cm (IStopDone j size) = (c2, ev2) ->
      inSpeech (st c2) = false /\ running (st c2) = true /\ analyser (st c2) = true /\
      rafPending (st c2) = true /\ recording (rec c2) = false /\
      (ev2 = [] \/ exists d s, ev2 = [EvSpeechEnd d s]) /\
      (isVoiceQ rms' = true -> step c2 (ITick t' rms' true) = (c3, ev3) ->
         inSpeech (st c3) = true /\ ev3 = [EvDebug rms'; EvSpeechStart]))).
Proof.
  intros Hru Han Hraf Hin Hstep Hlen.
  pose proof (tick_inSpeech_shape c t rms ok c1 ev1 Hru Han Hraf Hin Hstep) as H.
  simpl in H.
  destruct H as (_ & R1 & A1 & F1 & I1 & _ & _ & D).
  assert (Hrec : recording (rec c1) = false).
  { destruct (t - speechStartAt (st c) >=? 15000); [destruct D as [_ D2]; exact D2|].
    destruct (t - (if isVoiceQ rms then t else lastVoiceAt (st c)) >=? 700);
      [destruct D as [_ D2]; exact D2|].
    destruct D as [D1 _]; rewrite D1 in Hlen; lia. }
  split; [exact Hrec|]. split; [exact R1|]. split; [exact F1|].
  intros mid j size c2 ev2 t' rms' c3 ev3 Hmid cm.
  destruct (ticks_keep_open c1 mid R1 A1 F1 I1 Hrec Hmid) as (Rm & Am & Fm & Im & Rcm & x & Pm).
  fold cm in Rm, Am, Fm, Im, Rcm, Pm.
  split; [exact Im|]. split; [exact Rm|]. split; [exact Fm|]. split; [exact Rcm|].
  split; [rewrite Pm; apply nth_error_app_prefix; lia|].
  intros Hj Hs2.
  destruct (remove_nth_lt j (pending cm) Hj) as (e & rest & Hrm).
  destruct (stopdone_shape cm j e rest size c2 ev2 Hrm Hs2)
    as (I2 & R2 & A2 & F2 & _ & Rc2 & _ & B & C).
  assert (Hr2 : recording (rec c2) = false) by (rewrite Rc2; exact Rcm).
  split; [exact I2|]. split; [congruence|]. split; [congruence|].
  split; [congruence|]. split; [exact Hr2|]. split.
  - destruct (Z_lt_ge_dec (e_durationMs e) (minSpeechMs VAD_CONFIG)) as [l|g];
      [left; exact (B l) | right; do 2 eexists; exact (C g)].
  - intros Hv Hs3.
    assert (Hru2 : running (st c2) = true) by congruence.
    assert (Han2 : analyser (st c2) = true) by congruence.
    assert (Hraf2 : rafPending (st c2) = true) by congruence.
    destruct (tick_idle_shape c2 t' rms' true c3 ev3 Hru2 Han2 Hraf2 I2 Hs3) as [K _].
    destruct (K Hv Hr2 eq_refl) as (K1 & _ & _ & _ & _ & _ & _ & K2).
    split; assumption.
Qed.

(** Concrete run for C9: the example segment, ended by silence at t = 1100. *)
Definition c9_before : Cfg := fst (run started (frames 0 (firstn 11 example_samples))).

(** Two more quiet frames arrive before any stop resolves; the stale
    empty stop of the last one resolves first. *)
Lemma vad_segment_end_back_to_idle_witness :
  inSpeech (st (fst (run (fst (step c9_before (ITick 1100 0 true)))
                         [ITick 1200 0 true; ITick 1300 0 true]))) = true /\
  inSpeech (st (fst (step (fst (run (fst (step c9_before (ITick 1100 0 true)))
                                    [ITick 1200 0 true; ITick 1300 0 true]))
                          (IStopDone 2 0)))) = false.
Proof.
  split; [vm_compute; reflexivity|].
  destruct (step c9_before (ITick 1100 0 true)) as [c1 ev1] eqn:E1.
  cbn [fst].
  destruct (step (fst (run c1 [ITick 1200 0 true; ITick 1300 0 true])) (IStopDone 2 0))
    as [c2 ev2] eqn:E2.
  assert (Hp : pending c9_before = []) by (vm_compute; reflexivity).
  assert (Ec1 : c1 = fst (step c9_before (ITick 1100 0 true))) by (rewrite E1; reflexivity).
  assert (Hl : List.length (pending c1) = S (List.length (pending c9_before)))
    by (rewrite Hp, Ec1; vm_compute; reflexivity).
  destruct (vad_segment_end_back_to_idle c9_before 1100 0 true c1 ev1 eq_refl eq_refl eq_refl eq_refl E1 Hl)
    as (_ & _ & _ & K).
  destruct (K [ITick 1200 0 true; ITick 1300 0 true] 2%nat 0 c2 ev2 1400 (3 # 100) c2 ev2 eq_refl)
    as (_ & _ & _ & _ & _ & K2).
  cbv zeta in K2.
  exact (proj1 (K2 ltac:(rewrite Ec1; vm_compute; lia) E2)).
Defined.

End VadClaims.

(* ------------------------------------------------------------------ *)
(** ** index.ts: the TTS response cache of [speakWithServerTts] (lines 241-277) *)

Module TtsCache.
Local Open Scope string_scope.

(** A fetched audio [Blob], identified by a number. *)
Definition Blob := nat.

(** How one [api.ttsAudio(text)] call settles; [retryable] is
    [shouldRetryTts(e)] of its error (HTTP 429/500/502/503, rate_limited,
    timeout). *)
Inductive Outcome := FetchOk (b : Blob) | FetchErr (retryable : bool).

(** An entry of [ttsInflight]: the key, whether the promise [p] is already
    in its retry (second) call, and the callers awaiting [p], the creator
    first. *)
Record Pending := mkPending {
  p_key : string;
  p_retried : bool;
  p_waiters : list nat
}.

Record St := mkSt {
  ttsCache : list (string * Blob);
  ttsCacheOrder : list string;
  ttsInflight : list Pending;
  calls : nat;                        (* number of [api.ttsAudio] calls *)
  results : list (nat * option Blob)  (* blob each caller got; None: it threw *)
}.

Definition init : St := mkSt [] [] [] 0 [].

Definition is_ws (a : Ascii.ascii) : bool :=
  match Ascii.nat_of_ascii a with
  | 32%nat | 9%nat | 10%nat | 11%nat | 12%nat | 13%nat => true
  | _ => false
  end.

(** Strings are UTF-8 byte strings. [String.prototype.trim] removes the
    JavaScript WhiteSpace and LineTerminator code points: the single bytes
    of [is_ws] (U+0009-U+000D, U+0020), and U+00A0 (C2 A0), U+1680
    (E1 9A 80), U+2000-U+200A (E2 80 80-8A), U+2028, U+2029 (E2 80 A8-A9),
    U+202F (E2 80 AF), U+205F (E2 81 9F), U+3000 (E3 80 80) and U+FEFF
    (EF BB BF). *)
Definition is_ws2 (a b : Ascii.ascii) : bool :=
  (Ascii.nat_of_ascii a =? 194)%nat && (Ascii.nat_of_ascii b =? 160)%nat.

Definition is_ws3 (a b c : Ascii.ascii) : bool :=
  let x := Ascii.nat_of_ascii a in
  let y := Ascii.nat_of_ascii b in
  let z := Ascii.nat_of_ascii c in
  (((x =? 225) && (y =? 154) && (z =? 128))
  || ((x =? 226) && (y =? 128)
      && (((128 <=? z) && (z <=? 138)) || (z =? 168) || (z =? 169) || (z =? 175)))
  || ((x =? 226) && (y =? 129) && (z =? 159))
  || ((x =? 227) && (y =? 128) && (z =? 128))
  || ((x =? 239) && (y =? 187) && (z =? 191)))%nat.

(** Drops the white space at the start of [s]. *)
Fixpoint trim_left (s : string) : string :=
  match s with
  | EmptyString => EmptyString
  | String a r =>
      if is_ws a then trim_left r else
      match r with
      | String b r1 =>
          if is_ws2 a b then trim_left r1 else
          match r1 with
          | String c r2 => if is_ws3 a b c then trim_left r2 else s
          | EmptyString => s
          end
      | EmptyString => s
      end
  end.

(** The same on a reversed string: its first bytes are the last bytes of
    the text, so a code point's bytes come in reverse order. *)
Fixpoint trim_left_rev (s : string) : string :=
  match s with
  | EmptyString => EmptyString
  | String a r =>
      if is_ws a then trim_left_rev r else
      match r with
      | String b r1 =>
          if is_ws2 b a then trim_left_rev r1 else
          match r1 with
          | String c r2 => if is_ws3 c b a then trim_left_rev r2 else s
          | EmptyString => s
          end
      | EmptyString => s
      end
  end.

Fixpoint rev_str (s : string) (acc : string) : string :=
  match s with
  | EmptyString => acc
  | String a r => rev_str r (String a acc)
  end.

(** [String.prototype.trim]: white space removed at both ends. *)
Definition trim (s : string) : string :=
  rev_str (trim_left_rev (rev_str (trim_left s) EmptyString)) EmptyString.

(** [Map.get], [Map.set] (keeps the position of an existing key, appends a
    new one) and [Map.delete]. *)
Fixpoint map_get (k : string) (m : list (string * Blob)) : option Blob :=
  match m with
  | [] => None
  | (k', v) :: r => if String.eqb k k' then Some v else map_get k r
  end.

Fixpoint map_set (k : string) (v : Blob) (m : list (string * Blob)) : list (string * Blob) :=
  match m with
  | [] => [(k, v)]
  | (k', v') :: r => if String.eqb k k' then (k, v) :: r else (k', v') :: map_set k v r
  end.

Fixpoint map_delete (k : string) (m : list (string * Blob)) : list (string * Blob) :=
  match m with
  | [] => []
  | (k', v') :: r => if String.eqb k k' then r else (k', v') :: map_delete k r
  end.

Fixpoint inflight_get (k : string) (l : list Pending) : option Pending :=
  match l with
  | [] => None
  | p :: r => if String.eqb k (p_key p) then Some p else inflight_get k r
  end.

Definition inflight_delete (k : string) (l : list Pending) : list Pending :=
  filter (fun p => negb (String.eqb k (p_key p))) l.

Definition inflight_update (k : string) (f : Pending -> Pending) (l : list Pending) : list Pending :=
  map (fun p => if String.eqb k (p_key p) then f p else p) l.

(** [while (ttsCacheOrder.length > 20) { const k = ttsCacheOrder.shift();
    if (k) ttsCache.delete(k); }] -- the empty string is falsy. *)
Fixpoint cap (fuel : nat) (cache : list (string * Blob)) (order : list string)
  : list (string * Blob) * list string :=
  match fuel with
  | O => (cache, order)
  | S f =>
      if Nat.ltb 20%nat (List.length order) then
        match order with
        | [] => (cache, order)
        | k :: rest => cap f (if String.eqb k "" then cache else map_delete k cache) rest
        end
      else (cache, order)
  end.

(** The code after [blob = await ...] on the miss path: [ttsCache.set],
    [ttsCacheOrder.push], then the size cap. Run by every caller that
    awaited the promise, the creator and the joiners alike. *)
Definition store (s : St) (c : nat) (key : string) (b : Blob) : St :=
  let (cache', order') :=
    cap (List.length (ttsCacheOrder s ++ [key]))
        (map_set key b (ttsCache s)) (ttsCacheOrder s ++ [key]) in
  mkSt cache' order' (ttsInflight s) (calls s) (results s ++ [(c, Some b)]).

Inductive Event :=
| Req (caller : nat) (text : string)     (* speakWithServerTts(text) reaches line 245 *)
| Settle (key : string) (o : Outcome).   (* the pending api.ttsAudio call of key settles *)

(** Lines 245-269 up to the first await. *)
Definition request (s : St) (c : nat) (text : string) : St :=
  let key := trim text in
  match map_get key (ttsCache s) with
  | Some b => mkSt (ttsCache s) (ttsCacheOrder s) (ttsInflight s) (calls s)
                   (results s ++ [(c, Some b)])
  | None =>
      match inflight_get key (ttsInflight s) with
      | Some _ =>
          mkSt (ttsCache s) (ttsCacheOrder s)
               (inflight_update key (fun p => mkPending (p_key p) (p_retried p)
                                                        (p_waiters p ++ [c]))
                                (ttsInflight s))
               (calls s) (results s)
      | None =>
          mkSt (ttsCache s) (ttsCacheOrder s)
               (ttsInflight s ++ [mkPending key false [c]])
               (S (calls s)) (results s)
      end
  end.

(** Settlement of the promise [p] of [key] (lines 255-269): on success the
    [finally] removes the in-flight entry, then every awaiting caller runs
    [store]; a retryable first error makes the second call; any other
    error removes the entry and every awaiting caller throws. *)
Definition settle (s : St) (key : string) (o : Outcome) : St :=
  match inflight_get key (ttsInflight s) with
  | None => s
  | Some p =>
      match o with
      | FetchOk b =>
          let s1 := mkSt (ttsCache s) (ttsCacheOrder s)
                         (inflight_delete key (ttsInflight s)) (calls s) (results s) in
          fold_left (fun acc c => store acc c key b) (p_waiters p) s1
      | FetchErr retryable =>
          if retryable && negb (p_retried p) then
            mkSt (ttsCache s) (ttsCacheOrder s)
                 (inflight_update key (fun q => mkPending (p_key q) true (p_waiters q))
                                  (ttsInflight s))
                 (S (calls s)) (results s)
          else
            mkSt (ttsCache s) (ttsCacheOrder s)
                 (inflight_delete key (ttsInflight s)) (calls s)
                 (results s ++ map (fun c => (c, None)) (p_waiters p))
      end
  end.

Definition step (s : St) (e : Event) : St :=
  match e with
  | Req c text => request s c text
  | Settle k o => settle s k o
  end.

Definition run (s : St) (evs : list Event) : St := fold_left step evs s.

End TtsCache.

Module TtsCacheFacts.
Import TtsCache.
Local Open Scope string_scope.
Local Open Scope nat_scope.

Lemma map_get_delete k j m : map_get k m = None -> map_get k (map_delete j m) = None.
Proof.
  induction m as [|[k' v'] r IH]; simpl; auto.
  destruct (String.eqb k k') eqn:E1; [discriminate|].
  intros H. destruct (String.eqb j k'); simpl; [exact H|].
  rewrite E1; auto.
Qed.

Lemma map_get_set_other k j v m : k <> j -> map_get k (map_set j v m) = map_get k m.
Proof.
  intros Hne. induction m as [|[k' v'] r IH]; simpl.
  - destruct (String.eqb k j) eqn:E; [apply String.eqb_eq in E; contradiction|reflexivity].
  - destruct (String.eqb j k') eqn:E; simpl.
    + apply String.eqb_eq in E; subst k'.
      destruct (String.eqb k j) eqn:E'; [apply String.eqb_eq in E'; contradiction|reflexivity].
    + destruct (String.eqb k k'); auto.
Qed.

Lemma cap_get_none f k cache order :
  map_get k cache = None -> map_get k (fst (cap f cache order)) = None.
Proof.
  revert cache order; induction f as [|f IH]; intros cache order H; simpl; auto.
  destruct (Nat.ltb 20 (List.length order)); simpl; auto.
  destruct order as [|k' rest]; simpl; auto.
  apply IH. destruct (String.eqb k' ""); auto using map_get_delete.
Qed.

Lemma store_get_other s c key b k :
  k <> key -> map_get k (ttsCache s) = None -> map_get k (ttsCache (store s c key b)) = None.
Proof.
  intros Hne H. unfold store.
  destruct (cap _ _ _) as [cache' order'] eqn:E. simpl.
  pose proof (cap_get_none (List.length (ttsCacheOrder s ++ [key])) k
                (map_set key b (ttsCache s)) (ttsCacheOrder s ++ [key])) as Hc.
  rewrite E in Hc. simpl in Hc. apply Hc.
  rewrite map_get_set_other; auto.
Qed.

Lemma store_inflight s c key b : ttsInflight (store s c key b) = ttsInflight s.
Proof. unfold store; destruct (cap _ _ _); reflexivity. Qed.

Lemma fold_store_inflight ws s key b :
  ttsInflight (fold_left (fun acc c => store acc c key b) ws s) = ttsInflight s.
Proof.
  revert s; induction ws as [|w ws IH]; intros s; simpl; auto.
  rewrite IH. apply store_inflight.
Qed.

Lemma fold_store_get_other ws s key b k :
  k <> key -> map_get k (ttsCache s) = None ->
  map_get k (ttsCache (fold_left (fun acc c => store acc c key b) ws s)) = None.
Proof.
  revert s; induction ws as [|w ws IH]; intros s Hne H; simpl; auto.
  apply IH; auto using store_get_other.
Qed.

Lemma inflight_get_in k l p : inflight_get k l = Some p -> In p l /\ p_key p = k.
Proof.
  induction l as [|q r IH]; simpl; [discriminate|].
  destruct (String.eqb k (p_key q)) eqn:E.
  - intros H; injection H as <-; apply String.eqb_eq in E; auto.
  - intros H; destruct (IH H); auto.
Qed.

Lemma inflight_get_delete k l : inflight_get k (inflight_delete k l) = None.
Proof.
  induction l as [|q r IH]; simpl; auto.
  destruct (String.eqb k (p_key q)) eqn:E; simpl; auto.
  rewrite E; exact IH.
Qed.

Lemma in_inflight_delete p k l : In p (inflight_delete k l) -> In p l /\ p_key p <> k.
Proof.
  unfold inflight_delete; rewrite filter_In; intros [H E].
  split; auto. intros Heq; subst k. rewrite String.eqb_refl in E; discriminate.
Qed.

Lemma in_inflight_update p k f l :
  (forall q, p_key (f q) = p_key q) ->
  In p (inflight_update k f l) -> exists q, In q l /\ p_key p = p_key q.
Proof.
  intros Hf. unfold inflight_update; rewrite in_map_iff.
  intros [q [Hq Hin]]. exists q; split; auto.
  destruct (String.eqb k (p_key q)); subst; auto.
Qed.

(** Invariant of reachable states: a key with a pending fetch is not cached. *)
Definition Inv (s : St) : Prop :=
  forall p, In p (ttsInflight s) -> map_get (p_key p) (ttsCache s) = None.

Lemma step_inv s e : Inv s -> Inv (step s e).
Proof.
  intros HI. destruct e as [c text | key o]; simpl.
  - unfold request.
    destruct (map_get (trim text) (ttsCache s)) eqn:Eg; [exact HI|].
    destruct (inflight_get (trim text) (ttsInflight s)) as [p0|] eqn:Ei.
    + intros p Hp; simpl in *.
      edestruct (in_inflight_update p) as [q [Hq Hk]];
        [ | exact Hp | rewrite Hk; apply HI; exact Hq ]; intros; reflexivity.
    + intros p Hp; simpl in *. apply in_app_or in Hp as [Hp|[Hp|[]]].
      * apply HI; exact Hp.
      * subst p; simpl; exact Eg.
  - unfold settle.
    destruct (inflight_get key (ttsInflight s)) as [p|] eqn:Ei; [|exact HI].
    destruct o as [b | r].
    + intros q Hq.
      rewrite fold_store_inflight in Hq; simpl in Hq.
      destruct (in_inflight_delete q key _ Hq) as [Hin Hne].
      apply fold_store_get_other; auto.
    + destruct (r && negb (p_retried p)).
      * intros q Hq; simpl in *.
        edestruct (in_inflight_update q) as [q' [Hq' Hk]];
          [ | exact Hq | rewrite Hk; apply HI; exact Hq' ]; intros; reflexivity.
      * intros q Hq; simpl in *.
        destruct (in_inflight_delete q key _ Hq) as [Hin _].
        apply HI; exact Hin.
Qed.

Lemma run_inv evs s : Inv s -> Inv (run s evs).
Proof.
  unfold run; revert s; induction evs as [|e evs IH]; intros s H; simpl; auto.
  apply IH, step_inv, H.
Qed.

Lemma init_inv : Inv init.
Proof. intros p []. Qed.

End TtsCacheFacts.

Module TtsCacheClaims.
Import TtsCache TtsCacheFacts.
Local Open Scope string_scope.
Local Open Scope nat_scope.

(** One-letter key "A", "B", ... *)
Definition keyN (i : nat) : string := String (Ascii.ascii_of_nat (65 + i)) EmptyString.

(** [n] sequential, successful syntheses of the keys [keyN from ..]. *)
Definition fill (from n : nat) : list Event :=
  flat_map (fun i => [Req (100 + i) (keyN i); Settle (keyN i) (FetchOk (100 + i))])
           (seq from n).

(** Two callers ask for "Z" while its fetch is pending, then 19 other
    keys are synthesised one after the other, then "Z" is asked again. *)
Definition fifo_trace : list Event :=
  [Req 1 "Z"; Req 2 "Z"; Settle "Z" (FetchOk 7)] ++ fill 0 19 ++
  [Req 3 "Z"; Settle "Z" (FetchOk 8)].

(** A whitespace-only text (key "") is synthesised, then 20 other keys. *)
Definition empty_key_trace : list Event :=
  [Req 1 " "; Settle "" (FetchOk 7)] ++ fill 0 20.

(** C5 (failing inputs): the concurrent pair makes one synthesis call, but
    both callers push "Z" on [ttsCacheOrder]. The stale second entry later
    evicts the freshly re-inserted "Z" while the older "A" stays cached.
    Separately, an evicted key "" is never deleted from [ttsCache]
    ([if (k)] is false for ""), so the cache reaches 21 entries. *)
Theorem tts_cache_fifo_and_bound_failures :
  calls (run init [Req 1 "Z"; Req 2 "Z"; Settle "Z" (FetchOk 7)]) = 1 /\
  ttsCacheOrder (run init [Req 1 "Z"; Req 2 "Z"; Settle "Z" (FetchOk 7)]) = ["Z"; "Z"] /\
  map_get "Z" (ttsCache (run init fifo_trace)) = None /\
  map_get "A" (ttsCache (run init fifo_trace)) = Some 100 /\
  List.length (ttsCache (run init empty_key_trace)) = 21.
Proof. vm_compute. repeat split. Qed.

(** C8: when the fetch of a key finally rejects (a non-retryable error, or
    any error of its single retry), nothing is cached for it, its
    in-flight entry is gone, every caller awaiting it gets the failure,
    and a later request for the same text makes a new synthesis call. *)
Theorem failed_fetch_never_cached evs k p retryable c text :
  inflight_get k (ttsInflight (run init evs)) = Some p ->
  retryable = false \/ p_retried p = true ->
  let s := run init evs in
  let s' := step s (Settle k (FetchErr retryable)) in
  ttsCache s' = ttsCache s /\ map_get k (ttsCache s') = None /\
  inflight_get k (ttsInflight s') = None /\
  (forall w, In w (p_waiters p) -> In (w, None) (results s')) /\
  (trim text = k -> calls (step s' (Req c text)) = S (calls s')).
Proof.
  intros Hp Hfail s s'.
  assert (HI : Inv s) by (apply run_inv, init_inv).
  destruct (inflight_get_in _ _ _ Hp) as [Hin Hk].
  assert (Hnc : map_get k (ttsCache s) = None) by (rewrite <- Hk; apply HI; exact Hin).
  assert (Hs' : s' = mkSt (ttsCache s) (ttsCacheOrder s)
                          (inflight_delete k (ttsInflight s)) (calls s)
                          (results s ++ map (fun c => (c, None)) (p_waiters p))).
  { subst s'; simpl; unfold settle. fold s in Hp. rewrite Hp.
    destruct Hfail as [-> | ->]; simpl; [reflexivity|].
    rewrite andb_false_r; reflexivity. }
  rewrite Hs'; simpl.
  split; [reflexivity|]. split; [exact Hnc|]. split; [apply inflight_get_delete|].
  split.
  - intros w Hw. apply in_or_app; right. apply in_map_iff. exists w; auto.
  - intros Ht. unfold request; simpl. rewrite Ht, Hnc, inflight_get_delete. reflexivity.
Qed.

Lemma failed_fetch_never_cached_witness :
  inflight_get "hi" (ttsInflight (run init [Req 1 "hi"])) = Some (mkPending "hi" false [1]) /\
  calls (step (step (run init [Req 1 "hi"]) (Settle "hi" (FetchErr false))) (Req 2 " hi")) = 2.
Proof.
  assert (H1 : inflight_get "hi" (ttsInflight (run init [Req 1 "hi"])) =
               Some (mkPending "hi" false [1])) by reflexivity.
  split; [exact H1|].
  destruct (failed_fetch_never_cached [Req 1 "hi"] "hi" (mkPending "hi" false [1]) false 2 " hi"
              H1 (or_introl eq_refl)) as (_ & _ & _ & _ & K).
  rewrite (K eq_refl). reflexivity.
Defined.

End TtsCacheClaims.

(** * The widget orchestrator (widget-src/index.ts)

    The module-level [let] variables of the widget become the fields of a
    record [O].  Each handler runs its synchronous part up to its first
    [await]; the suspended rest of an async function is a pending process
    ([Proc]) that a later environment event (a settled promise, an audio
    element event, an animation frame, a user action) resumes.  Microtasks
    queued by a handler (the continuation of a promise it resolves) run at
    the end of the same event.  The UI calls ([ui.setState], logs) are left
    out except for the error line and the text box's enabled flag.  The boot greeting of
    [maybeBootGreet] is a process of its own, outside the turns. *)
Module Orch.

Inductive WidgetState := Idle | Listening | Thinking | Speaking.
Inductive Mode := Voice | Text.
Inductive StateEvent := VAD_DONE | LLM_DONE | TTS_END.

Definition ws_eqb (a b : WidgetState) : bool :=
  match a, b with
  | Idle, Idle | Listening, Listening | Thinking, Thinking | Speaking, Speaking => true
  | _, _ => false
  end.

Definition isVoice (m : Mode) : bool := match m with Voice => true | Text => false end.
Definition isText (m : Mode) : bool := negb (isVoice m).

(** Modelled from the spec: [reduceState] lives in stateMachine.ts,
    which is not among the sources; it follows the spec's table
    (VAD_DONE listening to thinking, LLM_DONE thinking to speaking,
    TTS_END speaking to idle, any other pair unchanged). *)
Definition reduceState (s : WidgetState) (e : StateEvent) : WidgetState :=
  match s, e with
  | Listening, VAD_DONE => Thinking
  | Thinking, LLM_DONE => Speaking
  | Speaking, TTS_END => Idle
  | s, _ => s
  end.

(** The [HTMLAudioElement] held in [currentAudio]: its [muted] flag and
    whether its [volume] is 0. *)
Record Audio := mkAudio { a_muted : bool; a_volume0 : bool }.

(** The barge-in analysis graph ([bargeCtx], [bargeSrc], [bargeAnalyser],
    [bargeBuf]) with the [aboveSince] of its tick closure. *)
Record Barge := mkBarge { aboveSince : option Z }.

(** Whose reply is being produced: the voice turn of [onSpeechEnd], the
    text turn of [onSendText], or the boot greeting of [maybeBootGreet]. *)
Inductive Kind := KVoice | KText | KGreet.

(** Where a [speak] call is suspended: awaiting the TTS blob, awaiting
    [audio.play()], awaiting the end of playback, or awaiting the Web
    Speech fallback after the server TTS returned [null]. *)
Inductive SpeakStage := SFetch | SPlay | SPlaying | SWebSpeech.

(** A suspended async function: [ensureVoiceListening] awaiting
    [getUserMedia], a voice turn awaiting [api.asr], a turn awaiting
    [api.chat], a turn or the greeting awaiting [speak], the greeting
    awaiting [getBootGreeting]. *)
Inductive Proc :=
| PMic
| PAsr
| PChat (k : Kind)
| PSpeak (k : Kind) (sp : SpeakStage)
| PGreet.

(** The widget's variables; [vad], [stream], [recorder] stand for a non-null
    object, [recording] for [recorder.isRecording()], [currentAudioStop] for
    a non-null stop callback, [bootGreetingText] for a greeting text
    obtained ([getBootGreeting] never returns an empty one), and
    [bootGreetingInFlight] for a non-null greeting promise.  [teardowns] counts the runs of
    [stopVoicePipeline] and [stopAll]; [openGraphs] counts the barge-in
    graphs created and not yet closed. *)
#[projections(primitive)]
Record O := mkO {
  state : WidgetState;
  inFlight : bool;
  mode : Mode;
  micMuted : bool;
  speakerMuted : bool;
  consent : bool;
  session : bool;
  vad : bool;
  stream : bool;
  recorder : bool;
  recording : bool;
  currentAudio : option Audio;
  currentAudioStop : bool;
  pendingListenAfterSpeak : bool;
  pendingStopVoiceAfterTurn : bool;
  bootGreetingDisplayed : bool;
  bootGreetingSpoken : bool;
  bootGreetingText : bool;
  bootGreetingInFlight : bool;
  barge : option Barge;
  bargeRaf : bool;
  textFallbackEnabled : bool;
  uiError : option string;
  procs : list Proc;
  teardowns : nat;
  openGraphs : nat
}.

Definition set_state (v : WidgetState) (s : O) : O :=
  {| state := v; inFlight := inFlight s; mode := mode s; micMuted := micMuted s; speakerMuted := speakerMuted s; consent := consent s; session := session s; vad := vad s; stream := stream s; recorder := recorder s; recording := recording s; currentAudio := currentAudio s; currentAudioStop := currentAudioStop s; pendingListenAfterSpeak := pendingListenAfterSpeak s; pendingStopVoiceAfterTurn := pendingStopVoiceAfterTurn s; bootGreetingDisplayed := bootGreetingDisplayed s; bootGreetingSpoken := bootGreetingSpoken s; bootGreetingText := bootGreetingText s; bootGreetingInFlight := bootGreetingInFlight s; barge := barge s; bargeRaf := bargeRaf s; textFallbackEnabled := textFallbackEnabled s; uiError := uiError s; procs := procs s; teardowns := teardowns s; openGraphs := openGraphs s |}.
Definition set_inFlight (v : bool) (s : O) : O :=
  {| state := state s; inFlight := v; mode := mode s; micMuted := micMuted s; speakerMuted := speakerMuted s; consent := consent s; session := session s; vad := vad s; stream := stream s; recorder := recorder s; recording := recording s; currentAudio := currentAudio s; currentAudioStop := currentAudioStop s; pendingListenAfterSpeak := pendingListenAfterSpeak s; pendingStopVoiceAfterTurn := pendingStopVoiceAfterTurn s; bootGreetingDisplayed := bootGreetingDisplayed s; bootGreetingSpoken := bootGreetingSpoken s; bootGreetingText := bootGreetingText s; bootGreetingInFlight := bootGreetingInFlight s; barge := barge s; bargeRaf := bargeRaf s; textFallbackEnabled := textFallbackEnabled s; uiError := uiError s; procs := procs s; teardowns := teardowns s; openGraphs := openGraphs s |}.
Definition set_mode (v : Mode) (s : O) : O :=
  {| state := state s; inFlight := inFlight s; mode := v; micMuted := micMuted s; speakerMuted := speakerMuted s; consent := consent s; session := session s; vad := vad s; stream := stream s; recorder := recorder s; recording := recording s; currentAudio := currentAudio s; currentAudioStop := currentAudioStop s; pendingListenAfterSpeak := pendingListenAfterSpeak s; pendingStopVoiceAfterTurn := pendingStopVoiceAfterTurn s; bootGreetingDisplayed := bootGreetingDisplayed s; bootGreetingSpoken := bootGreetingSpoken s; bootGreetingText := bootGreetingText s; bootGreetingInFlight := bootGreetingInFlight s; barge := barge s; bargeRaf := bargeRaf s; textFallbackEnabled := textFallbackEnabled s; uiError := uiError s; procs := procs s; teardowns := teardowns s; openGraphs := openGraphs s |}.
Definition set_micMuted (v : bool) (s : O) : O :=
  {| state := state s; inFlight := inFlight s; mode := mode s; micMuted := v; speakerMuted := speakerMuted s; consent := consent s; session := session s; vad := vad s; stream := stream s; recorder := recorder s; recording := recording s; currentAudio := currentAudio s; currentAudioStop := currentAudioStop s; pendingListenAfterSpeak := pendingListenAfterSpeak s; pendingStopVoiceAfterTurn := pendingStopVoiceAfterTurn s; bootGreetingDisplayed := bootGreetingDisplayed s; bootGreetingSpoken := bootGreetingSpoken s; bootGreetingText := bootGreetingText s; bootGreetingInFlight := bootGreetingInFlight s; barge := barge s; bargeRaf := bargeRaf s; textFallbackEnabled := textFallbackEnabled s; uiError := uiError s; procs := procs s; teardowns := teardowns s; openGraphs := openGraphs s |}.
Definition set_speakerMuted (v : bool) (s : O) : O :=
  {| state := state s; inFlight := inFlight s; mode := mode s; micMuted := micMuted s; speakerMuted := v; consent := consent s; session := session s; vad := vad s; stream := stream s; recorder := recorder s; recording := recording s; currentAudio := currentAudio s; currentAudioStop := currentAudioStop s; pendingListenAfterSpeak := pendingListenAfterSpeak s; pendingStopVoiceAfterTurn := pendingStopVoiceAfterTurn s; bootGreetingDisplayed := bootGreetingDisplayed s; bootGreetingSpoken := bootGreetingSpoken s; bootGreetingText := bootGreetingText s; bootGreetingInFlight := bootGreetingInFlight s; barge := barge s; bargeRaf := bargeRaf s; textFallbackEnabled := textFallbackEnabled s; uiError := uiError s; procs := procs s; teardowns := teardowns s; openGraphs := openGraphs s |}.
Definition set_consent (v : bool) (s : O) : O :=
  {| state := state s; inFlight := inFlight s; mode := mode s; micMuted := micMuted s; speakerMuted := speakerMuted s; consent := v; session := session s; vad := vad s; stream := stream s; recorder := recorder s; recording := recording s; currentAudio := currentAudio s; currentAudioStop := currentAudioStop s; pendingListenAfterSpeak := pendingListenAfterSpeak s; pendingStopVoiceAfterTurn := pendingStopVoiceAfterTurn s; bootGreetingDisplayed := bootGreetingDisplayed s; bootGreetingSpoken := bootGreetingSpoken s; bootGreetingText := bootGreetingText s; bootGreetingInFlight := bootGreetingInFlight s; barge := barge s; bargeRaf := bargeRaf s; textFallbackEnabled := textFallbackEnabled s; uiError := uiError s; procs := procs s; teardowns := teardowns s; openGraphs := openGraphs s |}.
Definition set_session (v : bool) (s : O) : O :=
  {| state := state s; inFlight := inFlight s; mode := mode s; micMuted := micMuted s; speakerMuted := speakerMuted s; consent := consent s; session := v; vad := vad s; stream := stream s; recorder := recorder s; recording := recording s; currentAudio := currentAudio s; currentAudioStop := currentAudioStop s; pendingListenAfterSpeak := pendingListenAfterSpeak s; pendingStopVoiceAfterTurn := pendingStopVoiceAfterTurn s; bootGreetingDisplayed := bootGreetingDisplayed s; bootGreetingSpoken := bootGreetingSpoken s; bootGreetingText := bootGreetingText s; bootGreetingInFlight := bootGreetingInFlight s; barge := barge s; bargeRaf := bargeRaf s; textFallbackEnabled := textFallbackEnabled s; uiError := uiError s; procs := procs s; teardowns := teardowns s; openGraphs := openGraphs s |}.
Definition set_vad (v : bool) (s : O) : O :=
  {| state := state s; inFlight := inFlight s; mode := mode s; micMuted := micMuted s; speakerMuted := speakerMuted s; consent := consent s; session := session s; vad := v; stream := stream s; recorder := recorder s; recording := recording s; currentAudio := currentAudio s; currentAudioStop := currentAudioStop s; pendingListenAfterSpeak := pendingListenAfterSpeak s; pendingStopVoiceAfterTurn := pendingStopVoiceAfterTurn s; bootGreetingDisplayed := bootGreetingDisplayed s; bootGreetingSpoken := bootGreetingSpoken s; bootGreetingText := bootGreetingText s; bootGreetingInFlight := bootGreetingInFlight s; barge := barge s; bargeRaf := bargeRaf s; textFallbackEnabled := textFallbackEnabled s; uiError := uiError s; procs := procs s; teardowns := teardowns s; openGraphs := openGraphs s |}.
Definition set_stream (v : bool) (s : O) : O :=
  {| state := state s; inFlight := inFlight s; mode := mode s; micMuted := micMuted s; speakerMuted := speakerMuted s; consent := consent s; session := session s; vad := vad s; stream := v; recorder := recorder s; recording := recording s; currentAudio := currentAudio s; currentAudioStop := currentAudioStop s; pendingListenAfterSpeak := pendingListenAfterSpeak s; pendingStopVoiceAfterTurn := pendingStopVoiceAfterTurn s; bootGreetingDisplayed := bootGreetingDisplayed s; bootGreetingSpoken := bootGreetingSpoken s; bootGreetingText := bootGreetingText s; bootGreetingInFlight := bootGreetingInFlight s; barge := barge s; bargeRaf := bargeRaf s; textFallbackEnabled := textFallbackEnabled s; uiError := uiError s; procs := procs s; teardowns := teardowns s; openGraphs := openGraphs s |}.
Definition set_recorder (v : bool) (s : O) : O :=
  {| state := state s; inFlight := inFlight s; mode := mode s; micMuted := micMuted s; speakerMuted := speakerMuted s; consent := consent s; session := session s; vad := vad s; stream := stream s; recorder := v; recording := recording s; currentAudio := currentAudio s; currentAudioStop := currentAudioStop s; pendingListenAfterSpeak := pendingListenAfterSpeak s; pendingStopVoiceAfterTurn := pendingStopVoiceAfterTurn s; bootGreetingDisplayed := bootGreetingDisplayed s; bootGreetingSpoken := bootGreetingSpoken s; bootGreetingText := bootGreetingText s; bootGreetingInFlight := bootGreetingInFlight s; barge := barge s; bargeRaf := bargeRaf s; textFallbackEnabled := textFallbackEnabled s; uiError := uiError s; procs := procs s; teardowns := teardowns s; openGraphs := openGraphs s |}.
Definition set_recording (v : bool) (s : O) : O :=
  {| state := state s; inFlight := inFlight s; mode := mode s; micMuted := micMuted s; speakerMuted := speakerMuted s; consent := consent s; session := session s; vad := vad s; stream := stream s; recorder := recorder s; recording := v; currentAudio := currentAudio s; currentAudioStop := currentAudioStop s; pendingListenAfterSpeak := pendingListenAfterSpeak s; pendingStopVoiceAfterTurn := pendingStopVoiceAfterTurn s; bootGreetingDisplayed := bootGreetingDisplayed s; bootGreetingSpoken := bootGreetingSpoken s; bootGreetingText := bootGreetingText s; bootGreetingInFlight := bootGreetingInFlight s; barge := barge s; bargeRaf := bargeRaf s; textFallbackEnabled := textFallbackEnabled s; uiError := uiError s; procs := procs s; teardowns := teardowns s; openGraphs := openGraphs s |}.
Definition set_currentAudio (v : option Audio) (s : O) : O :=
  {| state := state s; inFlight := inFlight s; mode := mode s; micMuted := micMuted s; speakerMuted := speakerMuted s; consent := consent s; session := session s; vad := vad s; stream := stream s; recorder := recorder s; recording := recording s; currentAudio := v; currentAudioStop := currentAudioStop s; pendingListenAfterSpeak := pendingListenAfterSpeak s; pendingStopVoiceAfterTurn := pendingStopVoiceAfterTurn s; bootGreetingDisplayed := bootGreetingDisplayed s; bootGreetingSpoken := bootGreetingSpoken s; bootGreetingText := bootGreetingText s; bootGreetingInFlight := bootGreetingInFlight s; barge := barge s; bargeRaf := bargeRaf s; textFallbackEnabled := textFallbackEnabled s; uiError := uiError s; procs := procs s; teardowns := teardowns s; openGraphs := openGraphs s |}.
Definition set_currentAudioStop (v : bool) (s : O) : O :=
  {| state := state s; inFlight := inFlight s; mode := mode s; micMuted := micMuted s; speakerMuted := speakerMuted s; consent := consent s; session := session s; vad := vad s; stream := stream s; recorder := recorder s; recording := recording s; currentAudio := currentAudio s; currentAudioStop := v; pendingListenAfterSpeak := pendingListenAfterSpeak s; pendingStopVoiceAfterTurn := pendingStopVoiceAfterTurn s; bootGreetingDisplayed := bootGreetingDisplayed s; bootGreetingSpoken := bootGreetingSpoken s; bootGreetingText := bootGreetingText s; bootGreetingInFlight := bootGreetingInFlight s; barge := barge s; bargeRaf := bargeRaf s; textFallbackEnabled := textFallbackEnabled s; uiError := uiError s; procs := procs s; teardowns := teardowns s; openGraphs := openGraphs s |}.
Definition set_pendingListenAfterSpeak (v : bool) (s : O) : O :=
  {| state := state s; inFlight := inFlight s; mode := mode s; micMuted := micMuted s; speakerMuted := speakerMuted s; consent := consent s; session := session s; vad := vad s; stream := stream s; recorder := recorder s; recording := recording s; currentAudio := currentAudio s; currentAudioStop := currentAudioStop s; pendingListenAfterSpeak := v; pendingStopVoiceAfterTurn := pendingStopVoiceAfterTurn s; bootGreetingDisplayed := bootGreetingDisplayed s; bootGreetingSpoken := bootGreetingSpoken s; bootGreetingText := bootGreetingText s; bootGreetingInFlight := bootGreetingInFlight s; barge := barge s; bargeRaf := bargeRaf s; textFallbackEnabled := textFallbackEnabled s; uiError := uiError s; procs := procs s; teardowns := teardowns s; openGraphs := openGraphs s |}.
Definition set_pendingStopVoiceAfterTurn (v : bool) (s : O) : O :=
  {| state := state s; inFlight := inFlight s; mode := mode s; micMuted := micMuted s; speakerMuted := speakerMuted s; consent := consent s; session := session s; vad := vad s; stream := stream s; recorder := recorder s; recording := recording s; currentAudio := currentAudio s; currentAudioStop := currentAudioStop s; pendingListenAfterSpeak := pendingListenAfterSpeak s; pendingStopVoiceAfterTurn := v; bootGreetingDisplayed := bootGreetingDisplayed s; bootGreetingSpoken := bootGreetingSpoken s; bootGreetingText := bootGreetingText s; bootGreetingInFlight := bootGreetingInFlight s; barge := barge s; bargeRaf := bargeRaf s; textFallbackEnabled := textFallbackEnabled s; uiError := uiError s; procs := procs s; teardowns := teardowns s; openGraphs := openGraphs s |}.
Definition set_bootGreetingDisplayed (v : bool) (s : O) : O :=
  {| state := state s; inFlight := inFlight s; mode := mode s; micMuted := micMuted s; speakerMuted := speakerMuted s; consent := consent s; session := session s; vad := vad s; stream := stream s; recorder := recorder s; recording := recording s; currentAudio := currentAudio s; currentAudioStop := currentAudioStop s; pendingListenAfterSpeak := pendingListenAfterSpeak s; pendingStopVoiceAfterTurn := pendingStopVoiceAfterTurn s; bootGreetingDisplayed := v; bootGreetingSpoken := bootGreetingSpoken s; bootGreetingText := bootGreetingText s; bootGreetingInFlight := bootGreetingInFlight s; barge := barge s; bargeRaf := bargeRaf s; textFallbackEnabled := textFallbackEnabled s; uiError := uiError s; procs := procs s; teardowns := teardowns s; openGraphs := openGraphs s |}.
Definition set_bootGreetingSpoken (v : bool) (s : O) : O :=
  {| state := state s; inFlight := inFlight s; mode := mode s; micMuted := micMuted s; speakerMuted := speakerMuted s; consent := consent s; session := session s; vad := vad s; stream := stream s; recorder := recorder s; recording := recording s; currentAudio := currentAudio s; currentAudioStop := currentAudioStop s; pendingListenAfterSpeak := pendingListenAfterSpeak s; pendingStopVoiceAfterTurn := pendingStopVoiceAfterTurn s; bootGreetingDisplayed := bootGreetingDisplayed s; bootGreetingSpoken := v; bootGreetingText := bootGreetingText s; bootGreetingInFlight := bootGreetingInFlight s; barge := barge s; bargeRaf := bargeRaf s; textFallbackEnabled := textFallbackEnabled s; uiError := uiError s; procs := procs s; teardowns := teardowns s; openGraphs := openGraphs s |}.
Definition set_bootGreetingText (v : bool) (s : O) : O :=
  {| state := state s; inFlight := inFlight s; mode := mode s; micMuted := micMuted s; speakerMuted := speakerMuted s; consent := consent s; session := session s; vad := vad s; stream := stream s; recorder := recorder s; recording := recording s; currentAudio := currentAudio s; currentAudioStop := currentAudioStop s; pendingListenAfterSpeak := pendingListenAfterSpeak s; pendingStopVoiceAfterTurn := pendingStopVoiceAfterTurn s; bootGreetingDisplayed := bootGreetingDisplayed s; bootGreetingSpoken := bootGreetingSpoken s; bootGreetingText := v; bootGreetingInFlight := bootGreetingInFlight s; barge := barge s; bargeRaf := bargeRaf s; textFallbackEnabled := textFallbackEnabled s; uiError := uiError s; procs := procs s; teardowns := teardowns s; openGraphs := openGraphs s |}.
Definition set_bootGreetingInFlight (v : bool) (s : O) : O :=
  {| state := state s; inFlight := inFlight s; mode := mode s; micMuted := micMuted s; speakerMuted := speakerMuted s; consent := consent s; session := session s; vad := vad s; stream := stream s; recorder := recorder s; recording := recording s; currentAudio := currentAudio s; currentAudioStop := currentAudioStop s; pendingListenAfterSpeak := pendingListenAfterSpeak s; pendingStopVoiceAfterTurn := pendingStopVoiceAfterTurn s; bootGreetingDisplayed := bootGreetingDisplayed s; bootGreetingSpoken := bootGreetingSpoken s; bootGreetingText := bootGreetingText s; bootGreetingInFlight := v; barge := barge s; bargeRaf := bargeRaf s; textFallbackEnabled := textFallbackEnabled s; uiError := uiError s; procs := procs s; teardowns := teardowns s; openGraphs := openGraphs s |}.
Definition set_barge (v : option Barge) (s : O) : O :=
  {| state := state s; inFlight := inFlight s; mode := mode s; micMuted := micMuted s; speakerMuted := speakerMuted s; consent := consent s; session := session s; vad := vad s; stream := stream s; recorder := recorder s; recording := recording s; currentAudio := currentAudio s; currentAudioStop := currentAudioStop s; pendingListenAfterSpeak := pendingListenAfterSpeak s; pendingStopVoiceAfterTurn := pendingStopVoiceAfterTurn s; bootGreetingDisplayed := bootGreetingDisplayed s; bootGreetingSpoken := bootGreetingSpoken s; bootGreetingText := bootGreetingText s; bootGreetingInFlight := bootGreetingInFlight s; barge := v; bargeRaf := bargeRaf s; textFallbackEnabled := textFallbackEnabled s; uiError := uiError s; procs := procs s; teardowns := teardowns s; openGraphs := openGraphs s |}.
Definition set_bargeRaf (v : bool) (s : O) : O :=
  {| state := state s; inFlight := inFlight s; mode := mode s; micMuted := micMuted s; speakerMuted := speakerMuted s; consent := consent s; session := session s; vad := vad s; stream := stream s; recorder := recorder s; recording := recording s; currentAudio := currentAudio s; currentAudioStop := currentAudioStop s; pendingListenAfterSpeak := pendingListenAfterSpeak s; pendingStopVoiceAfterTurn := pendingStopVoiceAfterTurn s; bootGreetingDisplayed := bootGreetingDisplayed s; bootGreetingSpoken := bootGreetingSpoken s; bootGreetingText := bootGreetingText s; bootGreetingInFlight := bootGreetingInFlight s; barge := barge s; bargeRaf := v; textFallbackEnabled := textFallbackEnabled s; uiError := uiError s; procs := procs s; teardowns := teardowns s; openGraphs := openGraphs s |}.
Definition set_textFallbackEnabled (v : bool) (s : O) : O :=
  {| state := state s; inFlight := inFlight s; mode := mode s; micMuted := micMuted s; speakerMuted := speakerMuted s; consent := consent s; session := session s; vad := vad s; stream := stream s; recorder := recorder s; recording := recording s; currentAudio := currentAudio s; currentAudioStop := currentAudioStop s; pendingListenAfterSpeak := pendingListenAfterSpeak s; pendingStopVoiceAfterTurn := pendingStopVoiceAfterTurn s; bootGreetingDisplayed := bootGreetingDisplayed s; bootGreetingSpoken := bootGreetingSpoken s; bootGreetingText := bootGreetingText s; bootGreetingInFlight := bootGreetingInFlight s; barge := barge s; bargeRaf := bargeRaf s; textFallbackEnabled := v; uiError := uiError s; procs := procs s; teardowns := teardowns s; openGraphs := openGraphs s |}.
Definition set_uiError (v : option string) (s : O) : O :=
  {| state := state s; inFlight := inFlight s; mode := mode s; micMuted := micMuted s; speakerMuted := speakerMuted s; consent := consent s; session := session s; vad := vad s; stream := stream s; recorder := recorder s; recording := recording s; currentAudio := currentAudio s; currentAudioStop := currentAudioStop s; pendingListenAfterSpeak := pendingListenAfterSpeak s; pendingStopVoiceAfterTurn := pendingStopVoiceAfterTurn s; bootGreetingDisplayed := bootGreetingDisplayed s; bootGreetingSpoken := bootGreetingSpoken s; bootGreetingText := bootGreetingText s; bootGreetingInFlight := bootGreetingInFlight s; barge := barge s; bargeRaf := bargeRaf s; textFallbackEnabled := textFallbackEnabled s; uiError := v; procs := procs s; teardowns := teardowns s; openGraphs := openGraphs s |}.
Definition set_procs (v : list Proc) (s : O) : O :=
  {| state := state s; inFlight := inFlight s; mode := mode s; micMuted := micMuted s; speakerMuted := speakerMuted s; consent := consent s; session := session s; vad := vad s; stream := stream s; recorder := recorder s; recording := recording s; currentAudio := currentAudio s; currentAudioStop := currentAudioStop s; pendingListenAfterSpeak := pendingListenAfterSpeak s; pendingStopVoiceAfterTurn := pendingStopVoiceAfterTurn s; bootGreetingDisplayed := bootGreetingDisplayed s; bootGreetingSpoken := bootGreetingSpoken s; bootGreetingText := bootGreetingText s; bootGreetingInFlight := bootGreetingInFlight s; barge := barge s; bargeRaf := bargeRaf s; textFallbackEnabled := textFallbackEnabled s; uiError := uiError s; procs := v; teardowns := teardowns s; openGraphs := openGraphs s |}.
Definition set_teardowns (v : nat) (s : O) : O :=
  {| state := state s; inFlight := inFlight s; mode := mode s; micMuted := micMuted s; speakerMuted := speakerMuted s; consent := consent s; session := session s; vad := vad s; stream := stream s; recorder := recorder s; recording := recording s; currentAudio := currentAudio s; currentAudioStop := currentAudioStop s; pendingListenAfterSpeak := pendingListenAfterSpeak s; pendingStopVoiceAfterTurn := pendingStopVoiceAfterTurn s; bootGreetingDisplayed := bootGreetingDisplayed s; bootGreetingSpoken := bootGreetingSpoken s; bootGreetingText := bootGreetingText s; bootGreetingInFlight := bootGreetingInFlight s; barge := barge s; bargeRaf := bargeRaf s; textFallbackEnabled := textFallbackEnabled s; uiError := uiError s; procs := procs s; teardowns := v; openGraphs := openGraphs s |}.
Definition set_openGraphs (v : nat) (s : O) : O :=
  {| state := state s; inFlight := inFlight s; mode := mode s; micMuted := micMuted s; speakerMuted := speakerMuted s; consent := consent s; session := session s; vad := vad s; stream := stream s; recorder := recorder s; recording := recording s; currentAudio := currentAudio s; currentAudioStop := currentAudioStop s; pendingListenAfterSpeak := pendingListenAfterSpeak s; pendingStopVoiceAfterTurn := pendingStopVoiceAfterTurn s; bootGreetingDisplayed := bootGreetingDisplayed s; bootGreetingSpoken := bootGreetingSpoken s; bootGreetingText := bootGreetingText s; bootGreetingInFlight := bootGreetingInFlight s; barge := barge s; bargeRaf := bargeRaf s; textFallbackEnabled := textFallbackEnabled s; uiError := uiError s; procs := procs s; teardowns := teardowns s; openGraphs := v |}.

(** [setState] and [setInFlight] also refresh the text box's enabled flag. *)
Definition setState (next : WidgetState) (s : O) : O :=
  let s := set_state next s in
  set_textFallbackEnabled (ws_eqb next Idle && isText (mode s) && negb (inFlight s)) s.

Definition setInFlight (next : bool) (s : O) : O :=
  let s := set_inFlight next s in
  set_textFallbackEnabled (ws_eqb (state s) Idle && isText (mode s) && negb next) s.

(** [vad?.stop(...); vad = null]: stopping the VAD stops a recording in
    progress ([recorder.stop()] clears its flag before its first await). *)
Definition drop_vad (s : O) : O :=
  set_vad false (if vad s then set_recording false s else s).

(** [recorder?.dispose(); recorder = null]. *)
Definition drop_recorder (s : O) : O :=
  set_recorder false (if recorder s then set_recording false s else s).

Definition stopVoicePipeline (keepTts keepState keepInFlight : bool) (s : O) : O :=
  let s := set_stream false (drop_recorder (drop_vad s)) in
  let s := if keepTts then s else set_currentAudio None s in
  let s := if keepInFlight then s else setInFlight false s in
  let s := if keepState then s else setState Idle s in
  set_teardowns (S (teardowns s)) s.

Definition stopAll (message : option string) (s : O) : O :=
  let s := set_currentAudio None (set_stream false (drop_recorder (drop_vad s))) in
  let s := setState Idle (setInFlight false s) in
  let s := match message with Some m => set_uiError (Some m) s | None => s end in
  set_teardowns (S (teardowns s)) s.

Definition isSome {A} (o : option A) : bool := match o with Some _ => true | None => false end.

(** The gates of [ensureVoiceListening], in the order of its early returns. *)
Definition listen_gates (s : O) : bool :=
  isVoice (mode s) && negb (micMuted s) && consent s && negb (inFlight s)
  && ws_eqb (state s) Idle && (bootGreetingDisplayed s || bootGreetingSpoken s)
  && negb (isSome (currentAudio s)) && negb (pendingStopVoiceAfterTurn s).

(** The part of [ensureVoiceListening] after the mic stream is available:
    recorder, a fresh VAD, and the listening state ([vad.start()] is the
    VAD's own business, see [Vad]). *)
Definition listen_start (s : O) : O :=
  let s := if recorder s then s else set_recorder true s in
  setState Listening (set_vad true s).

Definition spawn (p : Proc) (s : O) : O := set_procs (procs s ++ [p]) s.

Definition ensureVoiceListening (s : O) : O :=
  if listen_gates s then
    if stream s then listen_start s else spawn PMic s
  else s.

Definition stopBargeInMonitor (s : O) : O :=
  match barge s with
  | Some _ => set_openGraphs (openGraphs s - 1) (set_barge None (set_bargeRaf false s))
  | None => set_bargeRaf false s
  end.

Definition barge_gates (s : O) : bool :=
  match currentAudio s with
  | Some a =>
      isVoice (mode s) && negb (micMuted s) && consent s && stream s
      && negb (speakerMuted s) && negb (a_muted a) && negb (a_volume0 a)
  | None => false
  end.

(** [graphOk]: building the analysis graph ([new AudioContext()],
    [createMediaStreamSource], [createAnalyser]) does not throw; if it
    throws, the [catch] tears the partial graph down again. *)
Definition startBargeInMonitor (graphOk : bool) (s : O) : O :=
  let s := stopBargeInMonitor s in
  if barge_gates s then
    if graphOk then
      set_bargeRaf true (set_barge (Some (mkBarge None)) (set_openGraphs (S (openGraphs s)) s))
    else stopBargeInMonitor s
  else s.

(** Removes the first pending process accepted by [f]. *)
Fixpoint take (f : Proc -> bool) (l : list Proc) : option (Proc * list Proc) :=
  match l with
  | [] => None
  | p :: l' =>
      if f p then Some (p, l')
      else match take f l' with Some (q, r) => Some (q, p :: r) | None => None end
  end.

Definition isPMic (p : Proc) : bool := match p with PMic => true | _ => false end.
Definition isPAsr (p : Proc) : bool := match p with PAsr => true | _ => false end.
Definition isPChat (p : Proc) : bool := match p with PChat _ => true | _ => false end.
Definition isPGreet (p : Proc) : bool := match p with PGreet => true | _ => false end.
Definition sp_eqb (a b : SpeakStage) : bool :=
  match a, b with
  | SFetch, SFetch | SPlay, SPlay | SPlaying, SPlaying | SWebSpeech, SWebSpeech => true
  | _, _ => false
  end.
Definition atStage (sp : SpeakStage) (p : Proc) : bool :=
  match p with PSpeak _ sp' => sp_eqb sp sp' | _ => false end.

(** The end of the voice turn in [onSpeechEnd] after [await speak]. *)
Definition voice_after_speak (s : O) : O :=
  let s := setState (reduceState (state s) TTS_END) s in
  let s := setState Idle (setInFlight false s) in
  if pendingStopVoiceAfterTurn s || isText (mode s) then
    stopVoicePipeline true false false (set_pendingStopVoiceAfterTurn false s)
  else ensureVoiceListening s.

(** The [finally] block of [onSendText]. *)
Definition text_finally (s : O) : O :=
  let s := setState Idle (setInFlight false s) in
  if pendingListenAfterSpeak s && isVoice (mode s)
  then ensureVoiceListening (set_pendingListenAfterSpeak false s)
  else s.

(** The end of the boot greeting after [const res = await speak(...)]:
    [res] is [null] when both the server TTS and Web Speech failed; the
    [finally] of the greeting's promise then clears [bootGreetingInFlight]. *)
Definition greet_after_speak (res : bool) (s : O) : O :=
  set_bootGreetingInFlight false
    (if res then ensureVoiceListening (setState Idle (set_bootGreetingSpoken true s))
     else setState Idle s).

(** The continuation of [await speak(...)], with the truthiness of its
    result (only the greeting reads it). *)
Definition after_speak (k : Kind) (res : bool) (s : O) : O :=
  match k with
  | KVoice => voice_after_speak s
  | KText => text_finally s
  | KGreet => greet_after_speak res s
  end.

(** [await speak(...)]: with the speaker muted, [speakWithServerTts]
    returns [{ ttsMs: 0 }] at once and the caller resumes in the same job. *)
Definition speak_begin (k : Kind) (s : O) : O :=
  if speakerMuted s then after_speak k true s else spawn (PSpeak k SFetch) s.

(** The greeting's async body once [bootGreetingText] is set: it is shown,
    then, with the speaker muted, counted as spoken; otherwise the VAD is
    stopped and the greeting is spoken. *)
Definition greet_body (s : O) : O :=
  let s := set_bootGreetingDisplayed true s in
  if speakerMuted s then
    set_bootGreetingInFlight false
      (ensureVoiceListening (setState Idle (set_bootGreetingSpoken true s)))
  else speak_begin KGreet (setState Speaking (drop_vad s)).

(** [maybeBootGreet]: its early returns, then the greeting's promise,
    which awaits [getBootGreeting] unless a text was already obtained. *)
Definition maybeBootGreet (s : O) : O :=
  if bootGreetingSpoken s then s
  else if negb (session s) then s
  else if bootGreetingInFlight s then s
  else
    let s := set_bootGreetingInFlight true s in
    if bootGreetingText s then greet_body s else spawn PGreet s.

(** The [finally] block around playback in [speakWithServerTts]. *)
Definition playback_finally (s : O) : O :=
  set_currentAudioStop false (set_currentAudio None (stopBargeInMonitor s)).

Definition asr_empty_msg : string :=
  "I couldn't transcribe that. Please switch to Text mode and type your message.".
Definition pipeline_msg : string := "Something went wrong".
Definition vad_msg : string := "VAD error".
Definition chat_text_msg : string := "Chat failed".
Definition mic_msg : string :=
  "Microphone is unavailable. Check browser permissions and tap the page to try again.".
Definition wait_msg : string := "Please wait for the current reply to finish.".
Definition switch_msg : string := "Switch to Text mode to send a message.".
Definition session_msg : string := "Initializing session. Please wait a moment and try again.".

(** [cb.onSpeechEnd] of the VAD created in [ensureVoiceListening]. *)
Definition onSpeechEnd (sizeBytes : Z) (s : O) : O :=
  if negb (ws_eqb (state s) Listening) || inFlight s then s else
  let s := setInFlight true s in
  let s := setState (reduceState (state s) VAD_DONE) s in
  let s := drop_vad s in
  if sizeBytes <? 1200 then ensureVoiceListening (setState Idle (setInFlight false s))
  else spawn PAsr s.

(** [getBootGreeting] resolves (it never rejects) for the greeting. *)
Definition onGreet (s : O) : O :=
  match take isPGreet (procs s) with
  | Some (_, rest) => greet_body (set_bootGreetingText true (set_procs rest s))
  | None => s
  end.

(** [getUserMedia] settles for a suspended [ensureVoiceListening]. *)
Definition onMic (ok : bool) (s : O) : O :=
  match take isPMic (procs s) with
  | Some (_, rest) =>
      let s := set_procs rest s in
      if ok then listen_start (set_stream true s)
      else set_uiError (Some mic_msg) (setState Idle s)
  | None => s
  end.

(** [api.asr] settles for a voice turn ([None]: it rejects). *)
Definition onAsr (r : option string) (s : O) : O :=
  match take isPAsr (procs s) with
  | Some (_, rest) =>
      let s := set_procs rest s in
      match r with
      | None => stopAll (Some pipeline_msg) s
      | Some text =>
          if String.eqb (TtsCache.trim text) "" then set_mode Text (stopAll (Some asr_empty_msg) s)
          else spawn (PChat KVoice) s
      end
  | None => s
  end.

(** [api.chat] settles for a voice or a text turn. *)
Definition onChat (ok : bool) (s : O) : O :=
  match take isPChat (procs s) with
  | Some (PChat KVoice, rest) =>
      let s := set_procs rest s in
      if ok then speak_begin KVoice (setState (reduceState (state s) LLM_DONE) s)
      else stopAll (Some pipeline_msg) s
  | Some (PChat KText, rest) =>
      let s := set_procs rest s in
      if ok then speak_begin KText (setState Speaking s)
      else text_finally (stopAll (Some chat_text_msg) s)
  | _ => s
  end.

(** The TTS blob is obtained (cache hit, joined fetch or own fetch) or the
    fetch fails, in which case [speakWithServerTts] returns [null] and
    [speak] falls back to Web Speech. *)
Definition onTts (ok : bool) (s : O) : O :=
  match take (atStage SFetch) (procs s) with
  | Some (PSpeak k _, rest) =>
      let s := set_procs rest s in
      if ok then spawn (PSpeak k SPlay) (set_currentAudio (Some (mkAudio (speakerMuted s) (speakerMuted s))) s)
      else spawn (PSpeak k SWebSpeech) s
  | _ => s
  end.

(** [audio.play()] settles; then [startBargeInMonitor] runs, whose graph
    is built when [graph] holds. *)
Definition onPlay (ok graph : bool) (s : O) : O :=
  match take (atStage SPlay) (procs s) with
  | Some (PSpeak k _, rest) =>
      let s := set_procs rest s in
      if ok then spawn (PSpeak k SPlaying) (set_currentAudioStop true (startBargeInMonitor graph s))
      else spawn (PSpeak k SWebSpeech) (playback_finally s)
  | _ => s
  end.

(** [audio.onended] or [audio.onerror] of the live audio element. *)
Definition onEnded (s : O) : O :=
  match currentAudio s with
  | None => s
  | Some _ =>
      match take (atStage SPlaying) (procs s) with
      | Some (PSpeak k _, rest) => after_speak k true (playback_finally (set_procs rest s))
      | _ => s
      end
  end.

(** The Web Speech fallback settles; [ok]: it returned a result. *)
Definition onWebSpeech (ok : bool) (s : O) : O :=
  match take (atStage SWebSpeech) (procs s) with
  | Some (PSpeak k _, rest) => after_speak k ok (set_procs rest s)
  | _ => s
  end.

Definition bargeThreshold : Q := 9 # 100.
Definition minHoldMs : Z := 260.

(** The interruption branch of the barge-in tick: [currentAudioStop?.()]
    pauses the audio and resolves the playback promise, whose continuation
    (the [finally] of [speakWithServerTts], then the turn) runs after the
    tick returns. *)
Definition bargeIn (s : O) : O :=
  let s := set_pendingListenAfterSpeak false s in
  let stopped := currentAudioStop s in
  let s := ensureVoiceListening (setState Idle (stopBargeInMonitor s)) in
  if stopped then
    match take (atStage SPlaying) (procs s) with
    | Some (PSpeak k _, rest) => after_speak k true (playback_finally (set_procs rest s))
    | _ => s
    end
  else s.

(** An animation frame of the barge-in monitor, with the RMS level of the
    mic and [performance.now()]. *)
Definition bargeTick (now : Z) (rms : Q) (s : O) : O :=
  if negb (bargeRaf s) then s else
  let s := set_bargeRaf false s in
  match barge s with
  | None => s
  | Some b =>
      match currentAudio s with
      | Some a =>
          if isVoice (mode s) && negb (micMuted s) && negb (speakerMuted s)
             && negb (a_muted a) && negb (a_volume0 a) then
            if Qle_bool bargeThreshold rms then
              let since := match aboveSince b with Some x => x | None => now end in
              if minHoldMs <=? now - since then bargeIn s
              else set_bargeRaf true (set_barge (Some (mkBarge (Some since))) s)
            else set_bargeRaf true (set_barge (Some (mkBarge None)) s)
          else stopBargeInMonitor s
      | None => stopBargeInMonitor s
      end
  end.

Definition onSelectMode (m : Mode) (s : O) : O :=
  let s := set_uiError None (set_mode m s) in
  match m with
  | Text =>
      if ws_eqb (state s) Listening || inFlight s || (recorder s && recording s)
      then set_pendingStopVoiceAfterTurn true s
      else stopVoicePipeline true (ws_eqb (state s) Speaking) true s
  | Voice =>
      if ws_eqb (state s) Speaking || isSome (currentAudio s) then
        let s := set_pendingListenAfterSpeak true s in
        maybeBootGreet (if ws_eqb (state s) Speaking then s else setState Speaking s)
      else ensureVoiceListening (maybeBootGreet (setState Idle s))
  end.

Definition onToggleMicMuted (next : bool) (s : O) : O :=
  let s := set_micMuted next s in
  if next then stopVoicePipeline true (ws_eqb (state s) Speaking) true s
  else ensureVoiceListening (maybeBootGreet (setState Idle s)).

Definition onToggleSpeakerMuted (next : bool) (s : O) : O :=
  let s := set_speakerMuted next s in
  let s := match currentAudio s with
           | Some _ => set_currentAudio (Some (mkAudio next next)) s
           | None => s
           end in
  if next then s else maybeBootGreet s.

Definition onSendText (s : O) : O :=
  let s := set_uiError None s in
  if negb (isText (mode s)) then set_uiError (Some switch_msg) s
  else if inFlight s then set_uiError (Some wait_msg) s
  else if negb (session s) then set_uiError (Some session_msg) s
  else spawn (PChat KText) (setState Thinking (setInFlight true (drop_vad s))).

Inductive Ev :=
| ESpeechEnd (durationMs sizeBytes : Z)  (* cb.onSpeechEnd of any VAD, current or stale *)
| EVadRecord                             (* the current VAD starts the recorder at speech onset *)
| EVadError                              (* cb.onError of the current VAD *)
| EMic (ok : bool)
| EAsr (text : option string)
| EChat (ok : bool)
| ETts (ok : bool)
| EPlay (ok graph : bool)
| EEnded
| EWebSpeech (ok : bool)
| EGreet                                 (* getBootGreeting resolves *)
| EBargeTick (now : Z) (rms : Q)
| ESelectMode (m : Mode)
| EToggleMic (muted : bool)
| EToggleSpeaker (muted : bool)
| ESendText.                             (* the send button, enabled by setTextFallbackEnabled *)

Definition step (s : O) (e : Ev) : O :=
  match e with
  | ESpeechEnd _ size => onSpeechEnd size s
  | EVadRecord => if vad s then set_recording true s else s
  | EVadError => if vad s then stopAll (Some vad_msg) s else s
  | EMic ok => onMic ok s
  | EAsr r => onAsr r s
  | EChat ok => onChat ok s
  | ETts ok => onTts ok s
  | EPlay ok g => onPlay ok g s
  | EEnded => onEnded s
  | EWebSpeech ok => onWebSpeech ok s
  | EGreet => onGreet s
  | EBargeTick now rms => bargeTick now rms s
  | ESelectMode m => onSelectMode m s
  | EToggleMic b => onToggleMicMuted b s
  | EToggleSpeaker b => onToggleSpeakerMuted b s
  | ESendText => if textFallbackEnabled s then onSendText s else s
  end.

Definition run (s : O) (es : list Ev) : O := fold_left step es s.

Definition kind_eqb (a b : Kind) : bool :=
  match a, b with KVoice, KVoice | KText, KText | KGreet, KGreet => true | _, _ => false end.

Definition proc_eqb (p q : Proc) : bool :=
  match p, q with
  | PMic, PMic | PAsr, PAsr | PGreet, PGreet => true
  | PChat k, PChat k' => kind_eqb k k'
  | PSpeak k sp, PSpeak k' sp' => kind_eqb k k' && sp_eqb sp sp'
  | _, _ => false
  end.

Fixpoint procs_eqb (l r : list Proc) : bool :=
  match l, r with
  | [], [] => true
  | p :: l, q :: r => proc_eqb p q && procs_eqb l r
  | _, _ => false
  end.

(** The events by which a collaborator settles a suspended await of a turn
    (transcription, chat, TTS fetch, [audio.play()], the end of playback,
    Web Speech). *)
Definition settles (e : Ev) : bool :=
  match e with
  | EAsr _ | EChat _ | ETts _ | EPlay _ _ | EEnded | EWebSpeech _ => true
  | _ => false
  end.

(** [inFlight] holds in every state of the run of [es] from [s]. *)
Fixpoint flying (s : O) (es : list Ev) : bool :=
  inFlight s && match es with [] => true | e :: es' => flying (step s e) es' end.

(** The suspended processes of a turn: neither the mic request of
    [ensureVoiceListening] nor the boot greeting. *)
Definition isTurn (p : Proc) : bool :=
  match p with PMic | PGreet | PSpeak KGreet _ => false | _ => true end.

(** The settlements along the run of [es] from [s] that resume a suspended
    turn (a settlement nothing waits for changes nothing). *)
Fixpoint resolutions (s : O) (es : list Ev) : nat :=
  match es with
  | [] => 0
  | e :: es' =>
      (if settles e && negb (procs_eqb (filter isTurn (procs (step s e))) (filter isTurn (procs s)))
       then 1 else 0)
      + resolutions (step s e) es'
  end.

End Orch.

Module OrchFacts.
Import Orch.

(** ** Barge-in graphs *)

(** Reduces field reads of setter chains, without unfolding the handlers. *)
Ltac proj_simpl :=
  cbn [state inFlight mode micMuted speakerMuted consent session vad stream recorder recording currentAudio currentAudioStop pendingListenAfterSpeak pendingStopVoiceAfterTurn bootGreetingDisplayed bootGreetingSpoken bootGreetingText bootGreetingInFlight barge bargeRaf textFallbackEnabled uiError procs teardowns openGraphs
       set_state set_inFlight set_mode set_micMuted set_speakerMuted set_consent set_session set_vad set_stream set_recorder set_recording set_currentAudio set_currentAudioStop set_pendingListenAfterSpeak set_pendingStopVoiceAfterTurn set_bootGreetingDisplayed set_bootGreetingSpoken set_bootGreetingText set_bootGreetingInFlight set_barge set_bargeRaf set_textFallbackEnabled set_uiError set_procs set_teardowns set_openGraphs] in *.

Definition GraphInv (s : O) : Prop :=
  openGraphs s = if isSome (barge s) then 1%nat else 0%nat.

Lemma graph_ext (s t : O) :
  openGraphs t = openGraphs s -> barge t = barge s -> GraphInv s -> GraphInv t.
Proof. unfold GraphInv; intros -> ->; exact (fun H => H). Qed.

Lemma stop_barge_fields (s : O) :
  barge (stopBargeInMonitor s) = None /\ bargeRaf (stopBargeInMonitor s) = false.
Proof. unfold stopBargeInMonitor; destruct (barge s) eqn:E; cbn; rewrite ?E; split; reflexivity. Qed.

Lemma graph_stop (s : O) : GraphInv s -> GraphInv (stopBargeInMonitor s).
Proof.
  unfold GraphInv, stopBargeInMonitor.
  destruct (barge s) eqn:E; cbn; rewrite ?E; intros ->; reflexivity.
Qed.

Lemma graph_start (g : bool) (s : O) : GraphInv s -> GraphInv (startBargeInMonitor g s).
Proof.
  intros H. pose proof (graph_stop s H) as H1.
  unfold startBargeInMonitor.
  destruct (barge_gates (stopBargeInMonitor s)); [|exact H1].
  destruct g; [|apply graph_stop, H1].
  unfold GraphInv in *; cbn.
  rewrite H1, (proj1 (stop_barge_fields s)); reflexivity.
Qed.

Ltac graph_lemmas :=
  lazymatch goal with
  | |- GraphInv (stopBargeInMonitor _) => apply graph_stop
  | |- GraphInv (startBargeInMonitor _ _) => apply graph_start
  end.

Ltac graph_tac :=
  cbv beta zeta;
  repeat match goal with
  | H : GraphInv ?s |- GraphInv ?s => exact H
  | |- GraphInv (if ?b then _ else _) => destruct b
  | |- GraphInv (match ?x with _ => _ end) => destruct x
  | |- GraphInv _ => graph_lemmas
  | |- GraphInv (?f ?s) => apply (graph_ext s); [proj_simpl; reflexivity | proj_simpl; reflexivity | ]
  | |- GraphInv (?f ?v ?s) => apply (graph_ext s); [proj_simpl; reflexivity | proj_simpl; reflexivity | ]
  end.

Lemma graph_setState (v : WidgetState) (s : O) : GraphInv s -> GraphInv (setState v s).
Proof.
  intros H; unfold setState; graph_tac.
Qed.

Ltac graph_lemmas ::=
  lazymatch goal with
  | |- GraphInv (stopBargeInMonitor _) => apply graph_stop
  | |- GraphInv (startBargeInMonitor _ _) => apply graph_start
  | |- GraphInv (setState _ _) => apply graph_setState
  end.

Lemma graph_setInFlight (v : bool) (s : O) : GraphInv s -> GraphInv (setInFlight v s).
Proof.
  intros H; unfold setInFlight; graph_tac.
Qed.

Ltac graph_lemmas ::=
  lazymatch goal with
  | |- GraphInv (stopBargeInMonitor _) => apply graph_stop
  | |- GraphInv (startBargeInMonitor _ _) => apply graph_start
  | |- GraphInv (setState _ _) => apply graph_setState
  | |- GraphInv (setInFlight _ _) => apply graph_setInFlight
  end.

Lemma graph_drop_vad (s : O) : GraphInv s -> GraphInv (drop_vad s).
Proof.
  intros H; unfold drop_vad; graph_tac.
Qed.

Ltac graph_lemmas ::=
  lazymatch goal with
  | |- GraphInv (stopBargeInMonitor _) => apply graph_stop
  | |- GraphInv (startBargeInMonitor _ _) => apply graph_start
  | |- GraphInv (setState _ _) => apply graph_setState
  | |- GraphInv (setInFlight _ _) => apply graph_setInFlight
  | |- GraphInv (drop_vad _) => apply graph_drop_vad
  end.

Lemma graph_drop_recorder (s : O) : GraphInv s -> GraphInv (drop_recorder s).
Proof.
  intros H; unfold drop_recorder; graph_tac.
Qed.

Ltac graph_lemmas ::=
  lazymatch goal with
  | |- GraphInv (stopBargeInMonitor _) => apply graph_stop
  | |- GraphInv (startBargeInMonitor _ _) => apply graph_start
  | |- GraphInv (setState _ _) => apply graph_setState
  | |- GraphInv (setInFlight _ _) => apply graph_setInFlight
  | |- GraphInv (drop_vad _) => apply graph_drop_vad
  | |- GraphInv (drop_recorder _) => apply graph_drop_recorder
  end.

Lemma graph_stopVoicePipeline (a b c : bool) (s : O) : GraphInv s -> GraphInv (stopVoicePipeline a b c s).
Proof.
  intros H; unfold stopVoicePipeline; graph_tac.
Qed.

Ltac graph_lemmas ::=
  lazymatch goal with
  | |- GraphInv (stopBargeInMonitor _) => apply graph_stop
  | |- GraphInv (startBargeInMonitor _ _) => apply graph_start
  | |- GraphInv (setState _ _) => apply graph_setState
  | |- GraphInv (setInFlight _ _) => apply graph_setInFlight
  | |- GraphInv (drop_vad _) => apply graph_drop_vad
  | |- GraphInv (drop_recorder _) => apply graph_drop_recorder
  | |- GraphInv (stopVoicePipeline _ _ _ _) => apply graph_stopVoicePipeline
  end.

Lemma graph_stopAll (m : option string) (s : O) : GraphInv s -> GraphInv (stopAll m s).
Proof.
  intros H; unfold stopAll; graph_tac.
Qed.

Ltac graph_lemmas ::=
  lazymatch goal with
  | |- GraphInv (stopBargeInMonitor _) => apply graph_stop
  | |- GraphInv (startBargeInMonitor _ _) => apply graph_start
  | |- GraphInv (setState _ _) => apply graph_setState
  | |- GraphInv (setInFlight _ _) => apply graph_setInFlight
  | |- GraphInv (drop_vad _) => apply graph_drop_vad
  | |- GraphInv (drop_recorder _) => apply graph_drop_recorder
  | |- GraphInv (stopVoicePipeline _ _ _ _) => apply graph_stopVoicePipeline
  | |- GraphInv (stopAll _ _) => apply graph_stopAll
  end.

Lemma graph_listen_start (s : O) : GraphInv s -> GraphInv (listen_start s).
Proof.
  intros H; unfold listen_start; graph_tac.
Qed.

Ltac graph_lemmas ::=
  lazymatch goal with
  | |- GraphInv (stopBargeInMonitor _) => apply graph_stop
  | |- GraphInv (startBargeInMonitor _ _) => apply graph_start
  | |- GraphInv (setState _ _) => apply graph_setState
  | |- GraphInv (setInFlight _ _) => apply graph_setInFlight
  | |- GraphInv (drop_vad _) => apply graph_drop_vad
  | |- GraphInv (drop_recorder _) => apply graph_drop_recorder
  | |- GraphInv (stopVoicePipeline _ _ _ _) => apply graph_stopVoicePipeline
  | |- GraphInv (stopAll _ _) => apply graph_stopAll
  | |- GraphInv (listen_start _) => apply graph_listen_start
  end.

Lemma graph_ensureVoiceListening (s : O) : GraphInv s -> GraphInv (ensureVoiceListening s).
Proof.
  intros H; unfold ensureVoiceListening; graph_tac.
Qed.

Ltac graph_lemmas ::=
  lazymatch goal with
  | |- GraphInv (stopBargeInMonitor _) => apply graph_stop
  | |- GraphInv (startBargeInMonitor _ _) => apply graph_start
  | |- GraphInv (setState _ _) => apply graph_setState
  | |- GraphInv (setInFlight _ _) => apply graph_setInFlight
  | |- GraphInv (drop_vad _) => apply graph_drop_vad
  | |- GraphInv (drop_recorder _) => apply graph_drop_recorder
  | |- GraphInv (stopVoicePipeline _ _ _ _) => apply graph_stopVoicePipeline
  | |- GraphInv (stopAll _ _) => apply graph_stopAll
  | |- GraphInv (listen_start _) => apply graph_listen_start
  | |- GraphInv (ensureVoiceListening _) => apply graph_ensureVoiceListening
  end.

Lemma graph_spawn (p : Proc) (s : O) : GraphInv s -> GraphInv (spawn p s).
Proof.
  intros H; unfold spawn; graph_tac.
Qed.

Ltac graph_lemmas ::=
  lazymatch goal with
  | |- GraphInv (stopBargeInMonitor _) => apply graph_stop
  | |- GraphInv (startBargeInMonitor _ _) => apply graph_start
  | |- GraphInv (setState _ _) => apply graph_setState
  | |- GraphInv (setInFlight _ _) => apply graph_setInFlight
  | |- GraphInv (drop_vad _) => apply graph_drop_vad
  | |- GraphInv (drop_recorder _) => apply graph_drop_recorder
  | |- GraphInv (stopVoicePipeline _ _ _ _) => apply graph_stopVoicePipeline
  | |- GraphInv (stopAll _ _) => apply graph_stopAll
  | |- GraphInv (listen_start _) => apply graph_listen_start
  | |- GraphInv (ensureVoiceListening _) => apply graph_ensureVoiceListening
  | |- GraphInv (spawn _ _) => apply graph_spawn
  end.

Lemma graph_voice_after_speak (s : O) : GraphInv s -> GraphInv (voice_after_speak s).
Proof.
  intros H; unfold voice_after_speak; graph_tac.
Qed.

Ltac graph_lemmas ::=
  lazymatch goal with
  | |- GraphInv (stopBargeInMonitor _) => apply graph_stop
  | |- GraphInv (startBargeInMonitor _ _) => apply graph_start
  | |- GraphInv (setState _ _) => apply graph_setState
  | |- GraphInv (setInFlight _ _) => apply graph_setInFlight
  | |- GraphInv (drop_vad _) => apply graph_drop_vad
  | |- GraphInv (drop_recorder _) => apply graph_drop_recorder
  | |- GraphInv (stopVoicePipeline _ _ _ _) => apply graph_stopVoicePipeline
  | |- GraphInv (stopAll _ _) => apply graph_stopAll
  | |- GraphInv (listen_start _) => apply graph_listen_start
  | |- GraphInv (ensureVoiceListening _) => apply graph_ensureVoiceListening
  | |- GraphInv (spawn _ _) => apply graph_spawn
  | |- GraphInv (voice_after_speak _) => apply graph_voice_after_speak
  end.

Lemma graph_text_finally (s : O) : GraphInv s -> GraphInv (text_finally s).
Proof.
  intros H; unfold text_finally; graph_tac.
Qed.

Ltac graph_lemmas ::=
  lazymatch goal with
  | |- GraphInv (stopBargeInMonitor _) => apply graph_stop
  | |- GraphInv (startBargeInMonitor _ _) => apply graph_start
  | |- GraphInv (setState _ _) => apply graph_setState
  | |- GraphInv (setInFlight _ _) => apply graph_setInFlight
  | |- GraphInv (drop_vad _) => apply graph_drop_vad
  | |- GraphInv (drop_recorder _) => apply graph_drop_recorder
  | |- GraphInv (stopVoicePipeline _ _ _ _) => apply graph_stopVoicePipeline
  | |- GraphInv (stopAll _ _) => apply graph_stopAll
  | |- GraphInv (listen_start _) => apply graph_listen_start
  | |- GraphInv (ensureVoiceListening _) => apply graph_ensureVoiceListening
  | |- GraphInv (spawn _ _) => apply graph_spawn
  | |- GraphInv (voice_after_speak _) => apply graph_voice_after_speak
  | |- GraphInv (text_finally _) => apply graph_text_finally
  end.

Lemma graph_greet_after_speak (r : bool) (s : O) : GraphInv s -> GraphInv (greet_after_speak r s).
Proof.
  intros H; unfold greet_after_speak; graph_tac.
Qed.

Ltac graph_lemmas ::=
  lazymatch goal with
  | |- GraphInv (stopBargeInMonitor _) => apply graph_stop
  | |- GraphInv (startBargeInMonitor _ _) => apply graph_start
  | |- GraphInv (setState _ _) => apply graph_setState
  | |- GraphInv (setInFlight _ _) => apply graph_setInFlight
  | |- GraphInv (drop_vad _) => apply graph_drop_vad
  | |- GraphInv (drop_recorder _) => apply graph_drop_recorder
  | |- GraphInv (stopVoicePipeline _ _ _ _) => apply graph_stopVoicePipeline
  | |- GraphInv (stopAll _ _) => apply graph_stopAll
  | |- GraphInv (listen_start _) => apply graph_listen_start
  | |- GraphInv (ensureVoiceListening _) => apply graph_ensureVoiceListening
  | |- GraphInv (spawn _ _) => apply graph_spawn
  | |- GraphInv (voice_after_speak _) => apply graph_voice_after_speak
  | |- GraphInv (text_finally _) => apply graph_text_finally
  | |- GraphInv (greet_after_speak _ _) => apply graph_greet_after_speak
  end.

Lemma graph_after_speak (k : Kind) (r : bool) (s : O) : GraphInv s -> GraphInv (after_speak k r s).
Proof.
  intros H; unfold after_speak; graph_tac.
Qed.

Ltac graph_lemmas ::=
  lazymatch goal with
  | |- GraphInv (stopBargeInMonitor _) => apply graph_stop
  | |- GraphInv (startBargeInMonitor _ _) => apply graph_start
  | |- GraphInv (setState _ _) => apply graph_setState
  | |- GraphInv (setInFlight _ _) => apply graph_setInFlight
  | |- GraphInv (drop_vad _) => apply graph_drop_vad
  | |- GraphInv (drop_recorder _) => apply graph_drop_recorder
  | |- GraphInv (stopVoicePipeline _ _ _ _) => apply graph_stopVoicePipeline
  | |- GraphInv (stopAll _ _) => apply graph_stopAll
  | |- GraphInv (listen_start _) => apply graph_listen_start
  | |- GraphInv (ensureVoiceListening _) => apply graph_ensureVoiceListening
  | |- GraphInv (spawn _ _) => apply graph_spawn
  | |- GraphInv (voice_after_speak _) => apply graph_voice_after_speak
  | |- GraphInv (text_finally _) => apply graph_text_finally
  | |- GraphInv (greet_after_speak _ _) => apply graph_greet_after_speak
  | |- GraphInv (after_speak _ _ _) => apply graph_after_speak
  end.

Lemma graph_speak_begin (k : Kind) (s : O) : GraphInv s -> GraphInv (speak_begin k s).
Proof.
  intros H; unfold speak_begin; graph_tac.
Qed.

Ltac graph_lemmas ::=
  lazymatch goal with
  | |- GraphInv (stopBargeInMonitor _) => apply graph_stop
  | |- GraphInv (startBargeInMonitor _ _) => apply graph_start
  | |- GraphInv (setState _ _) => apply graph_setState
  | |- GraphInv (setInFlight _ _) => apply graph_setInFlight
  | |- GraphInv (drop_vad _) => apply graph_drop_vad
  | |- GraphInv (drop_recorder _) => apply graph_drop_recorder
  | |- GraphInv (stopVoicePipeline _ _ _ _) => apply graph_stopVoicePipeline
  | |- GraphInv (stopAll _ _) => apply graph_stopAll
  | |- GraphInv (listen_start _) => apply graph_listen_start
  | |- GraphInv (ensureVoiceListening _) => apply graph_ensureVoiceListening
  | |- GraphInv (spawn _ _) => apply graph_spawn
  | |- GraphInv (voice_after_speak _) => apply graph_voice_after_speak
  | |- GraphInv (text_finally _) => apply graph_text_finally
  | |- GraphInv (greet_after_speak _ _) => apply graph_greet_after_speak
  | |- GraphInv (after_speak _ _ _) => apply graph_after_speak
  | |- GraphInv (speak_begin _ _) => apply graph_speak_begin
  end.

Lemma graph_greet_body (s : O) : GraphInv s -> GraphInv (greet_body s).
Proof.
  intros H; unfold greet_body; graph_tac.
Qed.

Ltac graph_lemmas ::=
  lazymatch goal with
  | |- GraphInv (stopBargeInMonitor _) => apply graph_stop
  | |- GraphInv (startBargeInMonitor _ _) => apply graph_start
  | |- GraphInv (setState _ _) => apply graph_setState
  | |- GraphInv (setInFlight _ _) => apply graph_setInFlight
  | |- GraphInv (drop_vad _) => apply graph_drop_vad
  | |- GraphInv (drop_recorder _) => apply graph_drop_recorder
  | |- GraphInv (stopVoicePipeline _ _ _ _) => apply graph_stopVoicePipeline
  | |- GraphInv (stopAll _ _) => apply graph_stopAll
  | |- GraphInv (listen_start _) => apply graph_listen_start
  | |- GraphInv (ensureVoiceListening _) => apply graph_ensureVoiceListening
  | |- GraphInv (spawn _ _) => apply graph_spawn
  | |- GraphInv (voice_after_speak _) => apply graph_voice_after_speak
  | |- GraphInv (text_finally _) => apply graph_text_finally
  | |- GraphInv (greet_after_speak _ _) => apply graph_greet_after_speak
  | |- GraphInv (after_speak _ _ _) => apply graph_after_speak
  | |- GraphInv (speak_begin _ _) => apply graph_speak_begin
  | |- GraphInv (greet_body _) => apply graph_greet_body
  end.

Lemma graph_maybeBootGreet (s : O) : GraphInv s -> GraphInv (maybeBootGreet s).
Proof.
  intros H; unfold maybeBootGreet; graph_tac.
Qed.

Ltac graph_lemmas ::=
  lazymatch goal with
  | |- GraphInv (stopBargeInMonitor _) => apply graph_stop
  | |- GraphInv (startBargeInMonitor _ _) => apply graph_start
  | |- GraphInv (setState _ _) => apply graph_setState
  | |- GraphInv (setInFlight _ _) => apply graph_setInFlight
  | |- GraphInv (drop_vad _) => apply graph_drop_vad
  | |- GraphInv (drop_recorder _) => apply graph_drop_recorder
  | |- GraphInv (stopVoicePipeline _ _ _ _) => apply graph_stopVoicePipeline
  | |- GraphInv (stopAll _ _) => apply graph_stopAll
  | |- GraphInv (listen_start _) => apply graph_listen_start
  | |- GraphInv (ensureVoiceListening _) => apply graph_ensureVoiceListening
  | |- GraphInv (spawn _ _) => apply graph_spawn
  | |- GraphInv (voice_after_speak _) => apply graph_voice_after_speak
  | |- GraphInv (text_finally _) => apply graph_text_finally
  | |- GraphInv (greet_after_speak _ _) => apply graph_greet_after_speak
  | |- GraphInv (after_speak _ _ _) => apply graph_after_speak
  | |- GraphInv (speak_begin _ _) => apply graph_speak_begin
  | |- GraphInv (greet_body _) => apply graph_greet_body
  | |- GraphInv (maybeBootGreet _) => apply graph_maybeBootGreet
  end.

Lemma graph_playback_finally (s : O) : GraphInv s -> GraphInv (playback_finally s).
Proof.
  intros H; unfold playback_finally; graph_tac.
Qed.

Ltac graph_lemmas ::=
  lazymatch goal with
  | |- GraphInv (stopBargeInMonitor _) => apply graph_stop
  | |- GraphInv (startBargeInMonitor _ _) => apply graph_start
  | |- GraphInv (setState _ _) => apply graph_setState
  | |- GraphInv (setInFlight _ _) => apply graph_setInFlight
  | |- GraphInv (drop_vad _) => apply graph_drop_vad
  | |- GraphInv (drop_recorder _) => apply graph_drop_recorder
  | |- GraphInv (stopVoicePipeline _ _ _ _) => apply graph_stopVoicePipeline
  | |- GraphInv (stopAll _ _) => apply graph_stopAll
  | |- GraphInv (listen_start _) => apply graph_listen_start
  | |- GraphInv (ensureVoiceListening _) => apply graph_ensureVoiceListening
  | |- GraphInv (spawn _ _) => apply graph_spawn
  | |- GraphInv (voice_after_speak _) => apply graph_voice_after_speak
  | |- GraphInv (text_finally _) => apply graph_text_finally
  | |- GraphInv (greet_after_speak _ _) => apply graph_greet_after_speak
  | |- GraphInv (after_speak _ _ _) => apply graph_after_speak
  | |- GraphInv (speak_begin _ _) => apply graph_speak_begin
  | |- GraphInv (greet_body _) => apply graph_greet_body
  | |- GraphInv (maybeBootGreet _) => apply graph_maybeBootGreet
  | |- GraphInv (playback_finally _) => apply graph_playback_finally
  end.

Lemma graph_onSpeechEnd (z : Z) (s : O) : GraphInv s -> GraphInv (onSpeechEnd z s).
Proof.
  intros H; unfold onSpeechEnd; graph_tac.
Qed.

Ltac graph_lemmas ::=
  lazymatch goal with
  | |- GraphInv (stopBargeInMonitor _) => apply graph_stop
  | |- GraphInv (startBargeInMonitor _ _) => apply graph_start
  | |- GraphInv (setState _ _) => apply graph_setState
  | |- GraphInv (setInFlight _ _) => apply graph_setInFlight
  | |- GraphInv (drop_vad _) => apply graph_drop_vad
  | |- GraphInv (drop_recorder _) => apply graph_drop_recorder
  | |- GraphInv (stopVoicePipeline _ _ _ _) => apply graph_stopVoicePipeline
  | |- GraphInv (stopAll _ _) => apply graph_stopAll
  | |- GraphInv (listen_start _) => apply graph_listen_start
  | |- GraphInv (ensureVoiceListening _) => apply graph_ensureVoiceListening
  | |- GraphInv (spawn _ _) => apply graph_spawn
  | |- GraphInv (voice_after_speak _) => apply graph_voice_after_speak
  | |- GraphInv (text_finally _) => apply graph_text_finally
  | |- GraphInv (greet_after_speak _ _) => apply graph_greet_after_speak
  | |- GraphInv (after_speak _ _ _) => apply graph_after_speak
  | |- GraphInv (speak_begin _ _) => apply graph_speak_begin
  | |- GraphInv (greet_body _) => apply graph_greet_body
  | |- GraphInv (maybeBootGreet _) => apply graph_maybeBootGreet
  | |- GraphInv (playback_finally _) => apply graph_playback_finally
  | |- GraphInv (onSpeechEnd _ _) => apply graph_onSpeechEnd
  end.

Lemma graph_onMic (b : bool) (s : O) : GraphInv s -> GraphInv (onMic b s).
Proof.
  intros H; unfold onMic; graph_tac.
Qed.

Ltac graph_lemmas ::=
  lazymatch goal with
  | |- GraphInv (stopBargeInMonitor _) => apply graph_stop
  | |- GraphInv (startBargeInMonitor _ _) => apply graph_start
  | |- GraphInv (setState _ _) => apply graph_setState
  | |- GraphInv (setInFlight _ _) => apply graph_setInFlight
  | |- GraphInv (drop_vad _) => apply graph_drop_vad
  | |- GraphInv (drop_recorder _) => apply graph_drop_recorder
  | |- GraphInv (stopVoicePipeline _ _ _ _) => apply graph_stopVoicePipeline
  | |- GraphInv (stopAll _ _) => apply graph_stopAll
  | |- GraphInv (listen_start _) => apply graph_listen_start
  | |- GraphInv (ensureVoiceListening _) => apply graph_ensureVoiceListening
  | |- GraphInv (spawn _ _) => apply graph_spawn
  | |- GraphInv (voice_after_speak _) => apply graph_voice_after_speak
  | |- GraphInv (text_finally _) => apply graph_text_finally
  | |- GraphInv (greet_after_speak _ _) => apply graph_greet_after_speak
  | |- GraphInv (after_speak _ _ _) => apply graph_after_speak
  | |- GraphInv (speak_begin _ _) => apply graph_speak_begin
  | |- GraphInv (greet_body _) => apply graph_greet_body
  | |- GraphInv (maybeBootGreet _) => apply graph_maybeBootGreet
  | |- GraphInv (playback_finally _) => apply graph_playback_finally
  | |- GraphInv (onSpeechEnd _ _) => apply graph_onSpeechEnd
  | |- GraphInv (onMic _ _) => apply graph_onMic
  end.

Lemma graph_onAsr (r : option string) (s : O) : GraphInv s -> GraphInv (onAsr r s).
Proof.
  intros H; unfold onAsr; graph_tac.
Qed.

Ltac graph_lemmas ::=
  lazymatch goal with
  | |- GraphInv (stopBargeInMonitor _) => apply graph_stop
  | |- GraphInv (startBargeInMonitor _ _) => apply graph_start
  | |- GraphInv (setState _ _) => apply graph_setState
  | |- GraphInv (setInFlight _ _) => apply graph_setInFlight
  | |- GraphInv (drop_vad _) => apply graph_drop_vad
  | |- GraphInv (drop_recorder _) => apply graph_drop_recorder
  | |- GraphInv (stopVoicePipeline _ _ _ _) => apply graph_stopVoicePipeline
  | |- GraphInv (stopAll _ _) => apply graph_stopAll
  | |- GraphInv (listen_start _) => apply graph_listen_start
  | |- GraphInv (ensureVoiceListening _) => apply graph_ensureVoiceListening
  | |- GraphInv (spawn _ _) => apply graph_spawn
  | |- GraphInv (voice_after_speak _) => apply graph_voice_after_speak
  | |- GraphInv (text_finally _) => apply graph_text_finally
  | |- GraphInv (greet_after_speak _ _) => apply graph_greet_after_speak
  | |- GraphInv (after_speak _ _ _) => apply graph_after_speak
  | |- GraphInv (speak_begin _ _) => apply graph_speak_begin
  | |- GraphInv (greet_body _) => apply graph_greet_body
  | |- GraphInv (maybeBootGreet _) => apply graph_maybeBootGreet
  | |- GraphInv (playback_finally _) => apply graph_playback_finally
  | |- GraphInv (onSpeechEnd _ _) => apply graph_onSpeechEnd
  | |- GraphInv (onMic _ _) => apply graph_onMic
  | |- GraphInv (onAsr _ _) => apply graph_onAsr
  end.

Lemma graph_onChat (b : bool) (s : O) : GraphInv s -> GraphInv (onChat b s).
Proof.
  intros H; unfold onChat; graph_tac.
Qed.

Ltac graph_lemmas ::=
  lazymatch goal with
  | |- GraphInv (stopBargeInMonitor _) => apply graph_stop
  | |- GraphInv (startBargeInMonitor _ _) => apply graph_start
  | |- GraphInv (setState _ _) => apply graph_setState
  | |- GraphInv (setInFlight _ _) => apply graph_setInFlight
  | |- GraphInv (drop_vad _) => apply graph_drop_vad
  | |- GraphInv (drop_recorder _) => apply graph_drop_recorder
  | |- GraphInv (stopVoicePipeline _ _ _ _) => apply graph_stopVoicePipeline
  | |- GraphInv (stopAll _ _) => apply graph_stopAll
  | |- GraphInv (listen_start _) => apply graph_listen_start
  | |- GraphInv (ensureVoiceListening _) => apply graph_ensureVoiceListening
  | |- GraphInv (spawn _ _) => apply graph_spawn
  | |- GraphInv (voice_after_speak _) => apply graph_voice_after_speak
  | |- GraphInv (text_finally _) => apply graph_text_finally
  | |- GraphInv (greet_after_speak _ _) => apply graph_greet_after_speak
  | |- GraphInv (after_speak _ _ _) => apply graph_after_speak
  | |- GraphInv (speak_begin _ _) => apply graph_speak_begin
  | |- GraphInv (greet_body _) => apply graph_greet_body
  | |- GraphInv (maybeBootGreet _) => apply graph_maybeBootGreet
  | |- GraphInv (playback_finally _) => apply graph_playback_finally
  | |- GraphInv (onSpeechEnd _ _) => apply graph_onSpeechEnd
  | |- GraphInv (onMic _ _) => apply graph_onMic
  | |- GraphInv (onAsr _ _) => apply graph_onAsr
  | |- GraphInv (onChat _ _) => apply graph_onChat
  end.

Lemma graph_onTts (b : bool) (s : O) : GraphInv s -> GraphInv (onTts b s).
Proof.
  intros H; unfold onTts; graph_tac.
Qed.

Ltac graph_lemmas ::=
  lazymatch goal with
  | |- GraphInv (stopBargeInMonitor _) => apply graph_stop
  | |- GraphInv (startBargeInMonitor _ _) => apply graph_start
  | |- GraphInv (setState _ _) => apply graph_setState
  | |- GraphInv (setInFlight _ _) => apply graph_setInFlight
  | |- GraphInv (drop_vad _) => apply graph_drop_vad
  | |- GraphInv (drop_recorder _) => apply graph_drop_recorder
  | |- GraphInv (stopVoicePipeline _ _ _ _) => apply graph_stopVoicePipeline
  | |- GraphInv (stopAll _ _) => apply graph_stopAll
  | |- GraphInv (listen_start _) => apply graph_listen_start
  | |- GraphInv (ensureVoiceListening _) => apply graph_ensureVoiceListening
  | |- GraphInv (spawn _ _) => apply graph_spawn
  | |- GraphInv (voice_after_speak _) => apply graph_voice_after_speak
  | |- GraphInv (text_finally _) => apply graph_text_finally
  | |- GraphInv (greet_after_speak _ _) => apply graph_greet_after_speak
  | |- GraphInv (after_speak _ _ _) => apply graph_after_speak
  | |- GraphInv (speak_begin _ _) => apply graph_speak_begin
  | |- GraphInv (greet_body _) => apply graph_greet_body
  | |- GraphInv (maybeBootGreet _) => apply graph_maybeBootGreet
  | |- GraphInv (playback_finally _) => apply graph_playback_finally
  | |- GraphInv (onSpeechEnd _ _) => apply graph_onSpeechEnd
  | |- GraphInv (onMic _ _) => apply graph_onMic
  | |- GraphInv (onAsr _ _) => apply graph_onAsr
  | |- GraphInv (onChat _ _) => apply graph_onChat
  | |- GraphInv (onTts _ _) => apply graph_onTts
  end.

Lemma graph_onPlay (b g : bool) (s : O) : GraphInv s -> GraphInv (onPlay b g s).
Proof.
  intros H; unfold onPlay; graph_tac.
Qed.

Ltac graph_lemmas ::=
  lazymatch goal with
  | |- GraphInv (stopBargeInMonitor _) => apply graph_stop
  | |- GraphInv (startBargeInMonitor _ _) => apply graph_start
  | |- GraphInv (setState _ _) => apply graph_setState
  | |- GraphInv (setInFlight _ _) => apply graph_setInFlight
  | |- GraphInv (drop_vad _) => apply graph_drop_vad
  | |- GraphInv (drop_recorder _) => apply graph_drop_recorder
  | |- GraphInv (stopVoicePipeline _ _ _ _) => apply graph_stopVoicePipeline
  | |- GraphInv (stopAll _ _) => apply graph_stopAll
  | |- GraphInv (listen_start _) => apply graph_listen_start
  | |- GraphInv (ensureVoiceListening _) => apply graph_ensureVoiceListening
  | |- GraphInv (spawn _ _) => apply graph_spawn
  | |- GraphInv (voice_after_speak _) => apply graph_voice_after_speak
  | |- GraphInv (text_finally _) => apply graph_text_finally
  | |- GraphInv (greet_after_speak _ _) => apply graph_greet_after_speak
  | |- GraphInv (after_speak _ _ _) => apply graph_after_speak
  | |- GraphInv (speak_begin _ _) => apply graph_speak_begin
  | |- GraphInv (greet_body _) => apply graph_greet_body
  | |- GraphInv (maybeBootGreet _) => apply graph_maybeBootGreet
  | |- GraphInv (playback_finally _) => apply graph_playback_finally
  | |- GraphInv (onSpeechEnd _ _) => apply graph_onSpeechEnd
  | |- GraphInv (onMic _ _) => apply graph_onMic
  | |- GraphInv (onAsr _ _) => apply graph_onAsr
  | |- GraphInv (onChat _ _) => apply graph_onChat
  | |- GraphInv (onTts _ _) => apply graph_onTts
  | |- GraphInv (onPlay _ _ _) => apply graph_onPlay
  end.

Lemma graph_onEnded (s : O) : GraphInv s -> GraphInv (onEnded s).
Proof.
  intros H; unfold onEnded; graph_tac.
Qed.

Ltac graph_lemmas ::=
  lazymatch goal with
  | |- GraphInv (stopBargeInMonitor _) => apply graph_stop
  | |- GraphInv (startBargeInMonitor _ _) => apply graph_start
  | |- GraphInv (setState _ _) => apply graph_setState
  | |- GraphInv (setInFlight _ _) => apply graph_setInFlight
  | |- GraphInv (drop_vad _) => apply graph_drop_vad
  | |- GraphInv (drop_recorder _) => apply graph_drop_recorder
  | |- GraphInv (stopVoicePipeline _ _ _ _) => apply graph_stopVoicePipeline
  | |- GraphInv (stopAll _ _) => apply graph_stopAll
  | |- GraphInv (listen_start _) => apply graph_listen_start
  | |- GraphInv (ensureVoiceListening _) => apply graph_ensureVoiceListening
  | |- GraphInv (spawn _ _) => apply graph_spawn
  | |- GraphInv (voice_after_speak _) => apply graph_voice_after_speak
  | |- GraphInv (text_finally _) => apply graph_text_finally
  | |- GraphInv (greet_after_speak _ _) => apply graph_greet_after_speak
  | |- GraphInv (after_speak _ _ _) => apply graph_after_speak
  | |- GraphInv (speak_begin _ _) => apply graph_speak_begin
  | |- GraphInv (greet_body _) => apply graph_greet_body
  | |- GraphInv (maybeBootGreet _) => apply graph_maybeBootGreet
  | |- GraphInv (playback_finally _) => apply graph_playback_finally
  | |- GraphInv (onSpeechEnd _ _) => apply graph_onSpeechEnd
  | |- GraphInv (onMic _ _) => apply graph_onMic
  | |- GraphInv (onAsr _ _) => apply graph_onAsr
  | |- GraphInv (onChat _ _) => apply graph_onChat
  | |- GraphInv (onTts _ _) => apply graph_onTts
  | |- GraphInv (onPlay _ _ _) => apply graph_onPlay
  | |- GraphInv (onEnded _) => apply graph_onEnded
  end.

Lemma graph_onWebSpeech (b : bool) (s : O) : GraphInv s -> GraphInv (onWebSpeech b s).
Proof.
  intros H; unfold onWebSpeech; graph_tac.
Qed.

Ltac graph_lemmas ::=
  lazymatch goal with
  | |- GraphInv (stopBargeInMonitor _) => apply graph_stop
  | |- GraphInv (startBargeInMonitor _ _) => apply graph_start
  | |- GraphInv (setState _ _) => apply graph_setState
  | |- GraphInv (setInFlight _ _) => apply graph_setInFlight
  | |- GraphInv (drop_vad _) => apply graph_drop_vad
  | |- GraphInv (drop_recorder _) => apply graph_drop_recorder
  | |- GraphInv (stopVoicePipeline _ _ _ _) => apply graph_stopVoicePipeline
  | |- GraphInv (stopAll _ _) => apply graph_stopAll
  | |- GraphInv (listen_start _) => apply graph_listen_start
  | |- GraphInv (ensureVoiceListening _) => apply graph_ensureVoiceListening
  | |- GraphInv (spawn _ _) => apply graph_spawn
  | |- GraphInv (voice_after_speak _) => apply graph_voice_after_speak
  | |- GraphInv (text_finally _) => apply graph_text_finally
  | |- GraphInv (greet_after_speak _ _) => apply graph_greet_after_speak
  | |- GraphInv (after_speak _ _ _) => apply graph_after_speak
  | |- GraphInv (speak_begin _ _) => apply graph_speak_begin
  | |- GraphInv (greet_body _) => apply graph_greet_body
  | |- GraphInv (maybeBootGreet _) => apply graph_maybeBootGreet
  | |- GraphInv (playback_finally _) => apply graph_playback_finally
  | |- GraphInv (onSpeechEnd _ _) => apply graph_onSpeechEnd
  | |- GraphInv (onMic _ _) => apply graph_onMic
  | |- GraphInv (onAsr _ _) => apply graph_onAsr
  | |- GraphInv (onChat _ _) => apply graph_onChat
  | |- GraphInv (onTts _ _) => apply graph_onTts
  | |- GraphInv (onPlay _ _ _) => apply graph_onPlay
  | |- GraphInv (onEnded _) => apply graph_onEnded
  | |- GraphInv (onWebSpeech _ _) => apply graph_onWebSpeech
  end.

Lemma graph_onGreet (s : O) : GraphInv s -> GraphInv (onGreet s).
Proof.
  intros H; unfold onGreet; graph_tac.
Qed.

Ltac graph_lemmas ::=
  lazymatch goal with
  | |- GraphInv (stopBargeInMonitor _) => apply graph_stop
  | |- GraphInv (startBargeInMonitor _ _) => apply graph_start
  | |- GraphInv (setState _ _) => apply graph_setState
  | |- GraphInv (setInFlight _ _) => apply graph_setInFlight
  | |- GraphInv (drop_vad _) => apply graph_drop_vad
  | |- GraphInv (drop_recorder _) => apply graph_drop_recorder
  | |- GraphInv (stopVoicePipeline _ _ _ _) => apply graph_stopVoicePipeline
  | |- GraphInv (stopAll _ _) => apply graph_stopAll
  | |- GraphInv (listen_start _) => apply graph_listen_start
  | |- GraphInv (ensureVoiceListening _) => apply graph_ensureVoiceListening
  | |- GraphInv (spawn _ _) => apply graph_spawn
  | |- GraphInv (voice_after_speak _) => apply graph_voice_after_speak
  | |- GraphInv (text_finally _) => apply graph_text_finally
  | |- GraphInv (greet_after_speak _ _) => apply graph_greet_after_speak
  | |- GraphInv (after_speak _ _ _) => apply graph_after_speak
  | |- GraphInv (speak_begin _ _) => apply graph_speak_begin
  | |- GraphInv (greet_body _) => apply graph_greet_body
  | |- GraphInv (maybeBootGreet _) => apply graph_maybeBootGreet
  | |- GraphInv (playback_finally _) => apply graph_playback_finally
  | |- GraphInv (onSpeechEnd _ _) => apply graph_onSpeechEnd
  | |- GraphInv (onMic _ _) => apply graph_onMic
  | |- GraphInv (onAsr _ _) => apply graph_onAsr
  | |- GraphInv (onChat _ _) => apply graph_onChat
  | |- GraphInv (onTts _ _) => apply graph_onTts
  | |- GraphInv (onPlay _ _ _) => apply graph_onPlay
  | |- GraphInv (onEnded _) => apply graph_onEnded
  | |- GraphInv (onWebSpeech _ _) => apply graph_onWebSpeech
  | |- GraphInv (onGreet _) => apply graph_onGreet
  end.

Lemma graph_bargeIn (s : O) : GraphInv s -> GraphInv (bargeIn s).
Proof.
  intros H; unfold bargeIn; graph_tac.
Qed.

Ltac graph_lemmas ::=
  lazymatch goal with
  | |- GraphInv (stopBargeInMonitor _) => apply graph_stop
  | |- GraphInv (startBargeInMonitor _ _) => apply graph_start
  | |- GraphInv (setState _ _) => apply graph_setState
  | |- GraphInv (setInFlight _ _) => apply graph_setInFlight
  | |- GraphInv (drop_vad _) => apply graph_drop_vad
  | |- GraphInv (drop_recorder _) => apply graph_drop_recorder
  | |- GraphInv (stopVoicePipeline _ _ _ _) => apply graph_stopVoicePipeline
  | |- GraphInv (stopAll _ _) => apply graph_stopAll
  | |- GraphInv (listen_start _) => apply graph_listen_start
  | |- GraphInv (ensureVoiceListening _) => apply graph_ensureVoiceListening
  | |- GraphInv (spawn _ _) => apply graph_spawn
  | |- GraphInv (voice_after_speak _) => apply graph_voice_after_speak
  | |- GraphInv (text_finally _) => apply graph_text_finally
  | |- GraphInv (greet_after_speak _ _) => apply graph_greet_after_speak
  | |- GraphInv (after_speak _ _ _) => apply graph_after_speak
  | |- GraphInv (speak_begin _ _) => apply graph_speak_begin
  | |- GraphInv (greet_body _) => apply graph_greet_body
  | |- GraphInv (maybeBootGreet _) => apply graph_maybeBootGreet
  | |- GraphInv (playback_finally _) => apply graph_playback_finally
  | |- GraphInv (onSpeechEnd _ _) => apply graph_onSpeechEnd
  | |- GraphInv (onMic _ _) => apply graph_onMic
  | |- GraphInv (onAsr _ _) => apply graph_onAsr
  | |- GraphInv (onChat _ _) => apply graph_onChat
  | |- GraphInv (onTts _ _) => apply graph_onTts
  | |- GraphInv (onPlay _ _ _) => apply graph_onPlay
  | |- GraphInv (onEnded _) => apply graph_onEnded
  | |- GraphInv (onWebSpeech _ _) => apply graph_onWebSpeech
  | |- GraphInv (onGreet _) => apply graph_onGreet
  | |- GraphInv (bargeIn _) => apply graph_bargeIn
  end.

Lemma graph_bargeTick (t : Z) (q : Q) (s : O) : GraphInv s -> GraphInv (bargeTick t q s).
Proof.
  intros H; unfold bargeTick; cbv beta zeta.
  destruct (bargeRaf s); cbn [negb]; [|exact H].
  assert (H0 : GraphInv (set_bargeRaf false s)) by exact H.
  revert H0; generalize (set_bargeRaf false s) as s0; clear H; intros s0 H0.
  destruct (barge s0) as [b|] eqn:E; [|exact H0].
  destruct (currentAudio s0); [|apply graph_stop; exact H0].
  repeat match goal with
  | |- GraphInv (if ?c then _ else _) => destruct c
  end;
  first [ apply graph_stop; exact H0 | apply graph_bargeIn; exact H0
        | unfold GraphInv in *; proj_simpl; rewrite E in H0; exact H0 ].
Qed.

Ltac graph_lemmas ::=
  lazymatch goal with
  | |- GraphInv (stopBargeInMonitor _) => apply graph_stop
  | |- GraphInv (startBargeInMonitor _ _) => apply graph_start
  | |- GraphInv (setState _ _) => apply graph_setState
  | |- GraphInv (setInFlight _ _) => apply graph_setInFlight
  | |- GraphInv (drop_vad _) => apply graph_drop_vad
  | |- GraphInv (drop_recorder _) => apply graph_drop_recorder
  | |- GraphInv (stopVoicePipeline _ _ _ _) => apply graph_stopVoicePipeline
  | |- GraphInv (stopAll _ _) => apply graph_stopAll
  | |- GraphInv (listen_start _) => apply graph_listen_start
  | |- GraphInv (ensureVoiceListening _) => apply graph_ensureVoiceListening
  | |- GraphInv (spawn _ _) => apply graph_spawn
  | |- GraphInv (voice_after_speak _) => apply graph_voice_after_speak
  | |- GraphInv (text_finally _) => apply graph_text_finally
  | |- GraphInv (greet_after_speak _ _) => apply graph_greet_after_speak
  | |- GraphInv (after_speak _ _ _) => apply graph_after_speak
  | |- GraphInv (speak_begin _ _) => apply graph_speak_begin
  | |- GraphInv (greet_body _) => apply graph_greet_body
  | |- GraphInv (maybeBootGreet _) => apply graph_maybeBootGreet
  | |- GraphInv (playback_finally _) => apply graph_playback_finally
  | |- GraphInv (onSpeechEnd _ _) => apply graph_onSpeechEnd
  | |- GraphInv (onMic _ _) => apply graph_onMic
  | |- GraphInv (onAsr _ _) => apply graph_onAsr
  | |- GraphInv (onChat _ _) => apply graph_onChat
  | |- GraphInv (onTts _ _) => apply graph_onTts
  | |- GraphInv (onPlay _ _ _) => apply graph_onPlay
  | |- GraphInv (onEnded _) => apply graph_onEnded
  | |- GraphInv (onWebSpeech _ _) => apply graph_onWebSpeech
  | |- GraphInv (onGreet _) => apply graph_onGreet
  | |- GraphInv (bargeIn _) => apply graph_bargeIn
  | |- GraphInv (bargeTick _ _ _) => apply graph_bargeTick
  end.

Lemma graph_onSelectMode (m : Mode) (s : O) : GraphInv s -> GraphInv (onSelectMode m s).
Proof.
  intros H; unfold onSelectMode; graph_tac.
Qed.

Ltac graph_lemmas ::=
  lazymatch goal with
  | |- GraphInv (stopBargeInMonitor _) => apply graph_stop
  | |- GraphInv (startBargeInMonitor _ _) => apply graph_start
  | |- GraphInv (setState _ _) => apply graph_setState
  | |- GraphInv (setInFlight _ _) => apply graph_setInFlight
  | |- GraphInv (drop_vad _) => apply graph_drop_vad
  | |- GraphInv (drop_recorder _) => apply graph_drop_recorder
  | |- GraphInv (stopVoicePipeline _ _ _ _) => apply graph_stopVoicePipeline
  | |- GraphInv (stopAll _ _) => apply graph_stopAll
  | |- GraphInv (listen_start _) => apply graph_listen_start
  | |- GraphInv (ensureVoiceListening _) => apply graph_ensureVoiceListening
  | |- GraphInv (spawn _ _) => apply graph_spawn
  | |- GraphInv (voice_after_speak _) => apply graph_voice_after_speak
  | |- GraphInv (text_finally _) => apply graph_text_finally
  | |- GraphInv (greet_after_speak _ _) => apply graph_greet_after_speak
  | |- GraphInv (after_speak _ _ _) => apply graph_after_speak
  | |- GraphInv (speak_begin _ _) => apply graph_speak_begin
  | |- GraphInv (greet_body _) => apply graph_greet_body
  | |- GraphInv (maybeBootGreet _) => apply graph_maybeBootGreet
  | |- GraphInv (playback_finally _) => apply graph_playback_finally
  | |- GraphInv (onSpeechEnd _ _) => apply graph_onSpeechEnd
  | |- GraphInv (onMic _ _) => apply graph_onMic
  | |- GraphInv (onAsr _ _) => apply graph_onAsr
  | |- GraphInv (onChat _ _) => apply graph_onChat
  | |- GraphInv (onTts _ _) => apply graph_onTts
  | |- GraphInv (onPlay _ _ _) => apply graph_onPlay
  | |- GraphInv (onEnded _) => apply graph_onEnded
  | |- GraphInv (onWebSpeech _ _) => apply graph_onWebSpeech
  | |- GraphInv (onGreet _) => apply graph_onGreet
  | |- GraphInv (bargeIn _) => apply graph_bargeIn
  | |- GraphInv (bargeTick _ _ _) => apply graph_bargeTick
  | |- GraphInv (onSelectMode _ _) => apply graph_onSelectMode
  end.

Lemma graph_onToggleMicMuted (b : bool) (s : O) : GraphInv s -> GraphInv (onToggleMicMuted b s).
Proof.
  intros H; unfold onToggleMicMuted; graph_tac.
Qed.

Ltac graph_lemmas ::=
  lazymatch goal with
  | |- GraphInv (stopBargeInMonitor _) => apply graph_stop
  | |- GraphInv (startBargeInMonitor _ _) => apply graph_start
  | |- GraphInv (setState _ _) => apply graph_setState
  | |- GraphInv (setInFlight _ _) => apply graph_setInFlight
  | |- GraphInv (drop_vad _) => apply graph_drop_vad
  | |- GraphInv (drop_recorder _) => apply graph_drop_recorder
  | |- GraphInv (stopVoicePipeline _ _ _ _) => apply graph_stopVoicePipeline
  | |- GraphInv (stopAll _ _) => apply graph_stopAll
  | |- GraphInv (listen_start _) => apply graph_listen_start
  | |- GraphInv (ensureVoiceListening _) => apply graph_ensureVoiceListening
  | |- GraphInv (spawn _ _) => apply graph_spawn
  | |- GraphInv (voice_after_speak _) => apply graph_voice_after_speak
  | |- GraphInv (text_finally _) => apply graph_text_finally
  | |- GraphInv (greet_after_speak _ _) => apply graph_greet_after_speak
  | |- GraphInv (after_speak _ _ _) => apply graph_after_speak
  | |- GraphInv (speak_begin _ _) => apply graph_speak_begin
  | |- GraphInv (greet_body _) => apply graph_greet_body
  | |- GraphInv (maybeBootGreet _) => apply graph_maybeBootGreet
  | |- GraphInv (playback_finally _) => apply graph_playback_finally
  | |- GraphInv (onSpeechEnd _ _) => apply graph_onSpeechEnd
  | |- GraphInv (onMic _ _) => apply graph_onMic
  | |- GraphInv (onAsr _ _) => apply graph_onAsr
  | |- GraphInv (onChat _ _) => apply graph_onChat
  | |- GraphInv (onTts _ _) => apply graph_onTts
  | |- GraphInv (onPlay _ _ _) => apply graph_onPlay
  | |- GraphInv (onEnded _) => apply graph_onEnded
  | |- GraphInv (onWebSpeech _ _) => apply graph_onWebSpeech
  | |- GraphInv (onGreet _) => apply graph_onGreet
  | |- GraphInv (bargeIn _) => apply graph_bargeIn
  | |- GraphInv (bargeTick _ _ _) => apply graph_bargeTick
  | |- GraphInv (onSelectMode _ _) => apply graph_onSelectMode
  | |- GraphInv (onToggleMicMuted _ _) => apply graph_onToggleMicMuted
  end.

Lemma graph_onToggleSpeakerMuted (b : bool) (s : O) : GraphInv s -> GraphInv (onToggleSpeakerMuted b s).
Proof.
  intros H; unfold onToggleSpeakerMuted; graph_tac.
Qed.

Ltac graph_lemmas ::=
  lazymatch goal with
  | |- GraphInv (stopBargeInMonitor _) => apply graph_stop
  | |- GraphInv (startBargeInMonitor _ _) => apply graph_start
  | |- GraphInv (setState _ _) => apply graph_setState
  | |- GraphInv (setInFlight _ _) => apply graph_setInFlight
  | |- GraphInv (drop_vad _) => apply graph_drop_vad
  | |- GraphInv (drop_recorder _) => apply graph_drop_recorder
  | |- GraphInv (stopVoicePipeline _ _ _ _) => apply graph_stopVoicePipeline
  | |- GraphInv (stopAll _ _) => apply graph_stopAll
  | |- GraphInv (listen_start _) => apply graph_listen_start
  | |- GraphInv (ensureVoiceListening _) => apply graph_ensureVoiceListening
  | |- GraphInv (spawn _ _) => apply graph_spawn
  | |- GraphInv (voice_after_speak _) => apply graph_voice_after_speak
  | |- GraphInv (text_finally _) => apply graph_text_finally
  | |- GraphInv (greet_after_speak _ _) => apply graph_greet_after_speak
  | |- GraphInv (after_speak _ _ _) => apply graph_after_speak
  | |- GraphInv (speak_begin _ _) => apply graph_speak_begin
  | |- GraphInv (greet_body _) => apply graph_greet_body
  | |- GraphInv (maybeBootGreet _) => apply graph_maybeBootGreet
  | |- GraphInv (playback_finally _) => apply graph_playback_finally
  | |- GraphInv (onSpeechEnd _ _) => apply graph_onSpeechEnd
  | |- GraphInv (onMic _ _) => apply graph_onMic
  | |- GraphInv (onAsr _ _) => apply graph_onAsr
  | |- GraphInv (onChat _ _) => apply graph_onChat
  | |- GraphInv (onTts _ _) => apply graph_onTts
  | |- GraphInv (onPlay _ _ _) => apply graph_onPlay
  | |- GraphInv (onEnded _) => apply graph_onEnded
  | |- GraphInv (onWebSpeech _ _) => apply graph_onWebSpeech
  | |- GraphInv (onGreet _) => apply graph_onGreet
  | |- GraphInv (bargeIn _) => apply graph_bargeIn
  | |- GraphInv (bargeTick _ _ _) => apply graph_bargeTick
  | |- GraphInv (onSelectMode _ _) => apply graph_onSelectMode
  | |- GraphInv (onToggleMicMuted _ _) => apply graph_onToggleMicMuted
  | |- GraphInv (onToggleSpeakerMuted _ _) => apply graph_onToggleSpeakerMuted
  end.

Lemma graph_onSendText (s : O) : GraphInv s -> GraphInv (onSendText s).
Proof.
  intros H; unfold onSendText; graph_tac.
Qed.

Ltac graph_lemmas ::=
  lazymatch goal with
  | |- GraphInv (stopBargeInMonitor _) => apply graph_stop
  | |- GraphInv (startBargeInMonitor _ _) => apply graph_start
  | |- GraphInv (setState _ _) => apply graph_setState
  | |- GraphInv (setInFlight _ _) => apply graph_setInFlight
  | |- GraphInv (drop_vad _) => apply graph_drop_vad
  | |- GraphInv (drop_recorder _) => apply graph_drop_recorder
  | |- GraphInv (stopVoicePipeline _ _ _ _) => apply graph_stopVoicePipeline
  | |- GraphInv (stopAll _ _) => apply graph_stopAll
  | |- GraphInv (listen_start _) => apply graph_listen_start
  | |- GraphInv (ensureVoiceListening _) => apply graph_ensureVoiceListening
  | |- GraphInv (spawn _ _) => apply graph_spawn
  | |- GraphInv (voice_after_speak _) => apply graph_voice_after_speak
  | |- GraphInv (text_finally _) => apply graph_text_finally
  | |- GraphInv (greet_after_speak _ _) => apply graph_greet_after_speak
  | |- GraphInv (after_speak _ _ _) => apply graph_after_speak
  | |- GraphInv (speak_begin _ _) => apply graph_speak_begin
  | |- GraphInv (greet_body _) => apply graph_greet_body
  | |- GraphInv (maybeBootGreet _) => apply graph_maybeBootGreet
  | |- GraphInv (playback_finally _) => apply graph_playback_finally
  | |- GraphInv (onSpeechEnd _ _) => apply graph_onSpeechEnd
  | |- GraphInv (onMic _ _) => apply graph_onMic
  | |- GraphInv (onAsr _ _) => apply graph_onAsr
  | |- GraphInv (onChat _ _) => apply graph_onChat
  | |- GraphInv (onTts _ _) => apply graph_onTts
  | |- GraphInv (onPlay _ _ _) => apply graph_onPlay
  | |- GraphInv (onEnded _) => apply graph_onEnded
  | |- GraphInv (onWebSpeech _ _) => apply graph_onWebSpeech
  | |- GraphInv (onGreet _) => apply graph_onGreet
  | |- GraphInv (bargeIn _) => apply graph_bargeIn
  | |- GraphInv (bargeTick _ _ _) => apply graph_bargeTick
  | |- GraphInv (onSelectMode _ _) => apply graph_onSelectMode
  | |- GraphInv (onToggleMicMuted _ _) => apply graph_onToggleMicMuted
  | |- GraphInv (onToggleSpeakerMuted _ _) => apply graph_onToggleSpeakerMuted
  | |- GraphInv (onSendText _) => apply graph_onSendText
  end.

Lemma graph_step (s : O) (e : Ev) : GraphInv s -> GraphInv (step s e).
Proof. intros H; destruct e; cbn [step]; graph_tac. Qed.

(** ** The barge-in monitor after playback *)

Definition MonitorOff (s : O) : Prop := barge s = None /\ bargeRaf s = false.

Lemma off_ext (s t : O) :
  barge t = barge s -> bargeRaf t = bargeRaf s -> MonitorOff s -> MonitorOff t.
Proof. unfold MonitorOff; intros -> ->; exact (fun H => H). Qed.

Lemma off_stop (s : O) : MonitorOff (stopBargeInMonitor s).
Proof. exact (stop_barge_fields s). Qed.


Ltac off_lemmas :=
  lazymatch goal with
  | |- MonitorOff (stopBargeInMonitor _) => apply off_stop
  end.

Ltac off_tac :=
  cbv beta zeta;
  repeat match goal with
  | H : MonitorOff ?s |- MonitorOff ?s => exact H
  | |- MonitorOff (if ?b then _ else _) => destruct b
  | |- MonitorOff (match ?x with _ => _ end) => destruct x
  | |- MonitorOff _ => off_lemmas
  | |- MonitorOff (?f ?s) => apply (off_ext s); [proj_simpl; reflexivity | proj_simpl; reflexivity | ]
  | |- MonitorOff (?f ?v ?s) => apply (off_ext s); [proj_simpl; reflexivity | proj_simpl; reflexivity | ]
  end.

Lemma off_setState (v : WidgetState) (s : O) : MonitorOff s -> MonitorOff (setState v s).
Proof. intros H; unfold setState; off_tac. Qed.

Ltac off_lemmas ::=
  lazymatch goal with
  | |- MonitorOff (stopBargeInMonitor _) => apply off_stop
  | |- MonitorOff (setState _ _) => apply off_setState
  end.

Lemma off_setInFlight (v : bool) (s : O) : MonitorOff s -> MonitorOff (setInFlight v s).
Proof. intros H; unfold setInFlight; off_tac. Qed.

Ltac off_lemmas ::=
  lazymatch goal with
  | |- MonitorOff (stopBargeInMonitor _) => apply off_stop
  | |- MonitorOff (setState _ _) => apply off_setState
  | |- MonitorOff (setInFlight _ _) => apply off_setInFlight
  end.

Lemma off_drop_vad (s : O) : MonitorOff s -> MonitorOff (drop_vad s).
Proof. intros H; unfold drop_vad; off_tac. Qed.

Ltac off_lemmas ::=
  lazymatch goal with
  | |- MonitorOff (stopBargeInMonitor _) => apply off_stop
  | |- MonitorOff (setState _ _) => apply off_setState
  | |- MonitorOff (setInFlight _ _) => apply off_setInFlight
  | |- MonitorOff (drop_vad _) => apply off_drop_vad
  end.

Lemma off_drop_recorder (s : O) : MonitorOff s -> MonitorOff (drop_recorder s).
Proof. intros H; unfold drop_recorder; off_tac. Qed.

Ltac off_lemmas ::=
  lazymatch goal with
  | |- MonitorOff (stopBargeInMonitor _) => apply off_stop
  | |- MonitorOff (setState _ _) => apply off_setState
  | |- MonitorOff (setInFlight _ _) => apply off_setInFlight
  | |- MonitorOff (drop_vad _) => apply off_drop_vad
  | |- MonitorOff (drop_recorder _) => apply off_drop_recorder
  end.

Lemma off_stopVoicePipeline (a b c : bool) (s : O) : MonitorOff s -> MonitorOff (stopVoicePipeline a b c s).
Proof. intros H; unfold stopVoicePipeline; off_tac. Qed.

Ltac off_lemmas ::=
  lazymatch goal with
  | |- MonitorOff (stopBargeInMonitor _) => apply off_stop
  | |- MonitorOff (setState _ _) => apply off_setState
  | |- MonitorOff (setInFlight _ _) => apply off_setInFlight
  | |- MonitorOff (drop_vad _) => apply off_drop_vad
  | |- MonitorOff (drop_recorder _) => apply off_drop_recorder
  | |- MonitorOff (stopVoicePipeline _ _ _ _) => apply off_stopVoicePipeline
  end.

Lemma off_stopAll (m : option string) (s : O) : MonitorOff s -> MonitorOff (stopAll m s).
Proof. intros H; unfold stopAll; off_tac. Qed.

Ltac off_lemmas ::=
  lazymatch goal with
  | |- MonitorOff (stopBargeInMonitor _) => apply off_stop
  | |- MonitorOff (setState _ _) => apply off_setState
  | |- MonitorOff (setInFlight _ _) => apply off_setInFlight
  | |- MonitorOff (drop_vad _) => apply off_drop_vad
  | |- MonitorOff (drop_recorder _) => apply off_drop_recorder
  | |- MonitorOff (stopVoicePipeline _ _ _ _) => apply off_stopVoicePipeline
  | |- MonitorOff (stopAll _ _) => apply off_stopAll
  end.

Lemma off_listen_start (s : O) : MonitorOff s -> MonitorOff (listen_start s).
Proof. intros H; unfold listen_start; off_tac. Qed.

Ltac off_lemmas ::=
  lazymatch goal with
  | |- MonitorOff (stopBargeInMonitor _) => apply off_stop
  | |- MonitorOff (setState _ _) => apply off_setState
  | |- MonitorOff (setInFlight _ _) => apply off_setInFlight
  | |- MonitorOff (drop_vad _) => apply off_drop_vad
  | |- MonitorOff (drop_recorder _) => apply off_drop_recorder
  | |- MonitorOff (stopVoicePipeline _ _ _ _) => apply off_stopVoicePipeline
  | |- MonitorOff (stopAll _ _) => apply off_stopAll
  | |- MonitorOff (listen_start _) => apply off_listen_start
  end.

Lemma off_ensureVoiceListening (s : O) : MonitorOff s -> MonitorOff (ensureVoiceListening s).
Proof. intros H; unfold ensureVoiceListening; off_tac. Qed.

Ltac off_lemmas ::=
  lazymatch goal with
  | |- MonitorOff (stopBargeInMonitor _) => apply off_stop
  | |- MonitorOff (setState _ _) => apply off_setState
  | |- MonitorOff (setInFlight _ _) => apply off_setInFlight
  | |- MonitorOff (drop_vad _) => apply off_drop_vad
  | |- MonitorOff (drop_recorder _) => apply off_drop_recorder
  | |- MonitorOff (stopVoicePipeline _ _ _ _) => apply off_stopVoicePipeline
  | |- MonitorOff (stopAll _ _) => apply off_stopAll
  | |- MonitorOff (listen_start _) => apply off_listen_start
  | |- MonitorOff (ensureVoiceListening _) => apply off_ensureVoiceListening
  end.

Lemma off_spawn (p : Proc) (s : O) : MonitorOff s -> MonitorOff (spawn p s).
Proof. intros H; unfold spawn; off_tac. Qed.

Ltac off_lemmas ::=
  lazymatch goal with
  | |- MonitorOff (stopBargeInMonitor _) => apply off_stop
  | |- MonitorOff (setState _ _) => apply off_setState
  | |- MonitorOff (setInFlight _ _) => apply off_setInFlight
  | |- MonitorOff (drop_vad _) => apply off_drop_vad
  | |- MonitorOff (drop_recorder _) => apply off_drop_recorder
  | |- MonitorOff (stopVoicePipeline _ _ _ _) => apply off_stopVoicePipeline
  | |- MonitorOff (stopAll _ _) => apply off_stopAll
  | |- MonitorOff (listen_start _) => apply off_listen_start
  | |- MonitorOff (ensureVoiceListening _) => apply off_ensureVoiceListening
  | |- MonitorOff (spawn _ _) => apply off_spawn
  end.

Lemma off_voice_after_speak (s : O) : MonitorOff s -> MonitorOff (voice_after_speak s).
Proof. intros H; unfold voice_after_speak; off_tac. Qed.

Ltac off_lemmas ::=
  lazymatch goal with
  | |- MonitorOff (stopBargeInMonitor _) => apply off_stop
  | |- MonitorOff (setState _ _) => apply off_setState
  | |- MonitorOff (setInFlight _ _) => apply off_setInFlight
  | |- MonitorOff (drop_vad _) => apply off_drop_vad
  | |- MonitorOff (drop_recorder _) => apply off_drop_recorder
  | |- MonitorOff (stopVoicePipeline _ _ _ _) => apply off_stopVoicePipeline
  | |- MonitorOff (stopAll _ _) => apply off_stopAll
  | |- MonitorOff (listen_start _) => apply off_listen_start
  | |- MonitorOff (ensureVoiceListening _) => apply off_ensureVoiceListening
  | |- MonitorOff (spawn _ _) => apply off_spawn
  | |- MonitorOff (voice_after_speak _) => apply off_voice_after_speak
  end.

Lemma off_text_finally (s : O) : MonitorOff s -> MonitorOff (text_finally s).
Proof. intros H; unfold text_finally; off_tac. Qed.

Ltac off_lemmas ::=
  lazymatch goal with
  | |- MonitorOff (stopBargeInMonitor _) => apply off_stop
  | |- MonitorOff (setState _ _) => apply off_setState
  | |- MonitorOff (setInFlight _ _) => apply off_setInFlight
  | |- MonitorOff (drop_vad _) => apply off_drop_vad
  | |- MonitorOff (drop_recorder _) => apply off_drop_recorder
  | |- MonitorOff (stopVoicePipeline _ _ _ _) => apply off_stopVoicePipeline
  | |- MonitorOff (stopAll _ _) => apply off_stopAll
  | |- MonitorOff (listen_start _) => apply off_listen_start
  | |- MonitorOff (ensureVoiceListening _) => apply off_ensureVoiceListening
  | |- MonitorOff (spawn _ _) => apply off_spawn
  | |- MonitorOff (voice_after_speak _) => apply off_voice_after_speak
  | |- MonitorOff (text_finally _) => apply off_text_finally
  end.

Lemma off_start_failed (s : O) : MonitorOff (startBargeInMonitor false s).
Proof. unfold startBargeInMonitor; cbv zeta; destruct (barge_gates _); apply off_stop. Qed.

Lemma off_greet_after_speak (r : bool) (s : O) : MonitorOff s -> MonitorOff (greet_after_speak r s).
Proof. intros H; unfold greet_after_speak; off_tac. Qed.

Ltac off_lemmas ::=
  lazymatch goal with
  | |- MonitorOff (stopBargeInMonitor _) => apply off_stop
  | |- MonitorOff (setState _ _) => apply off_setState
  | |- MonitorOff (setInFlight _ _) => apply off_setInFlight
  | |- MonitorOff (drop_vad _) => apply off_drop_vad
  | |- MonitorOff (drop_recorder _) => apply off_drop_recorder
  | |- MonitorOff (stopVoicePipeline _ _ _ _) => apply off_stopVoicePipeline
  | |- MonitorOff (stopAll _ _) => apply off_stopAll
  | |- MonitorOff (listen_start _) => apply off_listen_start
  | |- MonitorOff (ensureVoiceListening _) => apply off_ensureVoiceListening
  | |- MonitorOff (spawn _ _) => apply off_spawn
  | |- MonitorOff (voice_after_speak _) => apply off_voice_after_speak
  | |- MonitorOff (text_finally _) => apply off_text_finally
  | |- MonitorOff (startBargeInMonitor false _) => apply off_start_failed
  | |- MonitorOff (greet_after_speak _ _) => apply off_greet_after_speak
  end.

Lemma off_after_speak (k : Kind) (r : bool) (s : O) : MonitorOff s -> MonitorOff (after_speak k r s).
Proof. intros H; unfold after_speak; off_tac. Qed.

Ltac off_lemmas ::=
  lazymatch goal with
  | |- MonitorOff (stopBargeInMonitor _) => apply off_stop
  | |- MonitorOff (setState _ _) => apply off_setState
  | |- MonitorOff (setInFlight _ _) => apply off_setInFlight
  | |- MonitorOff (drop_vad _) => apply off_drop_vad
  | |- MonitorOff (drop_recorder _) => apply off_drop_recorder
  | |- MonitorOff (stopVoicePipeline _ _ _ _) => apply off_stopVoicePipeline
  | |- MonitorOff (stopAll _ _) => apply off_stopAll
  | |- MonitorOff (listen_start _) => apply off_listen_start
  | |- MonitorOff (ensureVoiceListening _) => apply off_ensureVoiceListening
  | |- MonitorOff (spawn _ _) => apply off_spawn
  | |- MonitorOff (voice_after_speak _) => apply off_voice_after_speak
  | |- MonitorOff (text_finally _) => apply off_text_finally
  | |- MonitorOff (startBargeInMonitor false _) => apply off_start_failed
  | |- MonitorOff (greet_after_speak _ _) => apply off_greet_after_speak
  | |- MonitorOff (after_speak _ _ _) => apply off_after_speak
  end.

Lemma off_speak_begin (k : Kind) (s : O) : MonitorOff s -> MonitorOff (speak_begin k s).
Proof. intros H; unfold speak_begin; off_tac. Qed.

Ltac off_lemmas ::=
  lazymatch goal with
  | |- MonitorOff (stopBargeInMonitor _) => apply off_stop
  | |- MonitorOff (setState _ _) => apply off_setState
  | |- MonitorOff (setInFlight _ _) => apply off_setInFlight
  | |- MonitorOff (drop_vad _) => apply off_drop_vad
  | |- MonitorOff (drop_recorder _) => apply off_drop_recorder
  | |- MonitorOff (stopVoicePipeline _ _ _ _) => apply off_stopVoicePipeline
  | |- MonitorOff (stopAll _ _) => apply off_stopAll
  | |- MonitorOff (listen_start _) => apply off_listen_start
  | |- MonitorOff (ensureVoiceListening _) => apply off_ensureVoiceListening
  | |- MonitorOff (spawn _ _) => apply off_spawn
  | |- MonitorOff (voice_after_speak _) => apply off_voice_after_speak
  | |- MonitorOff (text_finally _) => apply off_text_finally
  | |- MonitorOff (startBargeInMonitor false _) => apply off_start_failed
  | |- MonitorOff (greet_after_speak _ _) => apply off_greet_after_speak
  | |- MonitorOff (after_speak _ _ _) => apply off_after_speak
  | |- MonitorOff (speak_begin _ _) => apply off_speak_begin
  end.

Lemma off_greet_body (s : O) : MonitorOff s -> MonitorOff (greet_body s).
Proof. intros H; unfold greet_body; off_tac. Qed.

Ltac off_lemmas ::=
  lazymatch goal with
  | |- MonitorOff (stopBargeInMonitor _) => apply off_stop
  | |- MonitorOff (setState _ _) => apply off_setState
  | |- MonitorOff (setInFlight _ _) => apply off_setInFlight
  | |- MonitorOff (drop_vad _) => apply off_drop_vad
  | |- MonitorOff (drop_recorder _) => apply off_drop_recorder
  | |- MonitorOff (stopVoicePipeline _ _ _ _) => apply off_stopVoicePipeline
  | |- MonitorOff (stopAll _ _) => apply off_stopAll
  | |- MonitorOff (listen_start _) => apply off_listen_start
  | |- MonitorOff (ensureVoiceListening _) => apply off_ensureVoiceListening
  | |- MonitorOff (spawn _ _) => apply off_spawn
  | |- MonitorOff (voice_after_speak _) => apply off_voice_after_speak
  | |- MonitorOff (text_finally _) => apply off_text_finally
  | |- MonitorOff (startBargeInMonitor false _) => apply off_start_failed
  | |- MonitorOff (greet_after_speak _ _) => apply off_greet_after_speak
  | |- MonitorOff (after_speak _ _ _) => apply off_after_speak
  | |- MonitorOff (speak_begin _ _) => apply off_speak_begin
  | |- MonitorOff (greet_body _) => apply off_greet_body
  end.

Lemma off_maybeBootGreet (s : O) : MonitorOff s -> MonitorOff (maybeBootGreet s).
Proof. intros H; unfold maybeBootGreet; off_tac. Qed.

Ltac off_lemmas ::=
  lazymatch goal with
  | |- MonitorOff (stopBargeInMonitor _) => apply off_stop
  | |- MonitorOff (setState _ _) => apply off_setState
  | |- MonitorOff (setInFlight _ _) => apply off_setInFlight
  | |- MonitorOff (drop_vad _) => apply off_drop_vad
  | |- MonitorOff (drop_recorder _) => apply off_drop_recorder
  | |- MonitorOff (stopVoicePipeline _ _ _ _) => apply off_stopVoicePipeline
  | |- MonitorOff (stopAll _ _) => apply off_stopAll
  | |- MonitorOff (listen_start _) => apply off_listen_start
  | |- MonitorOff (ensureVoiceListening _) => apply off_ensureVoiceListening
  | |- MonitorOff (spawn _ _) => apply off_spawn
  | |- MonitorOff (voice_after_speak _) => apply off_voice_after_speak
  | |- MonitorOff (text_finally _) => apply off_text_finally
  | |- MonitorOff (startBargeInMonitor false _) => apply off_start_failed
  | |- MonitorOff (greet_after_speak _ _) => apply off_greet_after_speak
  | |- MonitorOff (after_speak _ _ _) => apply off_after_speak
  | |- MonitorOff (speak_begin _ _) => apply off_speak_begin
  | |- MonitorOff (greet_body _) => apply off_greet_body
  | |- MonitorOff (maybeBootGreet _) => apply off_maybeBootGreet
  end.

Lemma off_playback_finally (s : O) : MonitorOff (playback_finally s).
Proof.
  unfold playback_finally.
  apply (off_ext (stopBargeInMonitor s)); [proj_simpl; reflexivity | proj_simpl; reflexivity | apply off_stop].
Qed.

Lemma take_sound (f : Proc -> bool) (l : list Proc) (p : Proc) (r : list Proc) :
  take f l = Some (p, r) -> f p = true.
Proof.
  revert r; induction l as [|q l IH]; cbn; intros r H; [discriminate|].
  destruct (f q) eqn:E.
  - injection H as <- <-; exact E.
  - destruct (take f l) as [[q' r']|] eqn:T; [|discriminate].
    injection H as <- <-; exact (IH r' eq_refl).
Qed.

Lemma take_playing (l : list Proc) (p : Proc) (r : list Proc) :
  take (atStage SPlaying) l = Some (p, r) -> exists k, p = PSpeak k SPlaying.
Proof.
  intros H; apply take_sound in H.
  destruct p as [| | k | k [] |]; try discriminate; exists k; reflexivity.
Qed.

Lemma take_play (l : list Proc) (p : Proc) (r : list Proc) :
  take (atStage SPlay) l = Some (p, r) -> exists k, p = PSpeak k SPlay.
Proof.
  intros H; apply take_sound in H.
  destruct p as [| | k | k [] |]; try discriminate; exists k; reflexivity.
Qed.

Lemma off_bargeIn (s : O) : MonitorOff (bargeIn s).
Proof.
  unfold bargeIn; cbv beta zeta.
  assert (H0 : MonitorOff (ensureVoiceListening (setState Idle
                 (stopBargeInMonitor (set_pendingListenAfterSpeak false s)))))
    by (apply off_ensureVoiceListening, off_setState, off_stop).
  revert H0.
  generalize (ensureVoiceListening (setState Idle
                (stopBargeInMonitor (set_pendingListenAfterSpeak false s)))) as s0.
  intros s0 H0.
  destruct (currentAudioStop (set_pendingListenAfterSpeak false s)); [|exact H0].
  destruct (take (atStage SPlaying) (procs s0)) as [[p rest]|]; [|exact H0].
  destruct p as [| | k | k sp |]; try exact H0.
  apply off_after_speak, off_playback_finally.
Qed.

Lemma off_onEnded (s : O) :
  isSome (currentAudio s) = true -> take (atStage SPlaying) (procs s) <> None ->
  MonitorOff (onEnded s).
Proof.
  intros Ha Ht; unfold onEnded.
  destruct (currentAudio s); [|discriminate].
  destruct (take (atStage SPlaying) (procs s)) as [[p rest]|] eqn:T; [|congruence].
  destruct (take_playing _ _ _ T) as [k ->].
  apply off_after_speak, off_playback_finally.
Qed.

Lemma off_onPlay_failed (g : bool) (s : O) :
  take (atStage SPlay) (procs s) <> None -> MonitorOff (onPlay false g s).
Proof.
  intros Ht; unfold onPlay.
  destruct (take (atStage SPlay) (procs s)) as [[p rest]|] eqn:T; [|congruence].
  destruct (take_play _ _ _ T) as [k ->]; cbv beta zeta.
  apply off_spawn, off_playback_finally.
Qed.

Lemma set_bargeRaf_same (s : O) : bargeRaf s = false -> set_bargeRaf false s = s.
Proof. intros H; destruct s; cbn in *; subst; reflexivity. Qed.

Lemma stop_idem (s : O) : stopBargeInMonitor (stopBargeInMonitor s) = stopBargeInMonitor s.
Proof.
  destruct (stop_barge_fields s) as [Hb Hr].
  unfold stopBargeInMonitor at 1; rewrite Hb.
  apply set_bargeRaf_same; exact Hr.
Qed.

Lemma stop_none (s : O) : barge s = None -> stopBargeInMonitor s = set_bargeRaf false s.
Proof. intros H; unfold stopBargeInMonitor; rewrite H; reflexivity. Qed.

Lemma graph_run (s : O) (es : list Ev) : GraphInv s -> GraphInv (run s es).
Proof.
  unfold run; revert s; induction es as [|e es IH]; intros s H; [exact H|].
  cbn [fold_left]; apply IH, graph_step, H.
Qed.

(** ** Turns in flight *)

(** How far a suspended turn still has to go: its remaining awaits. *)
Definition turnw (p : Proc) : nat :=
  match p with
  | PMic => 0
  | PAsr => 5
  | PChat _ => 4
  | PSpeak KGreet _ => 0
  | PSpeak _ SFetch => 3
  | PSpeak _ SPlay => 2
  | PSpeak _ _ => 1
  | PGreet => 0
  end.

Fixpoint turns (l : list Proc) : nat :=
  match l with [] => 0 | p :: l => (if isTurn p then 1 else 0) + turns l end.

Fixpoint rank (l : list Proc) : nat :=
  match l with [] => 0 | p :: l => turnw p + rank l end.

Lemma turns_app (l r : list Proc) : turns (l ++ r) = (turns l + turns r)%nat.
Proof. induction l as [|p l IH]; cbn; [reflexivity|rewrite IH; lia]. Qed.

Lemma rank_app (l r : list Proc) : rank (l ++ r) = (rank l + rank r)%nat.
Proof. induction l as [|p l IH]; cbn; [reflexivity|rewrite IH; lia]. Qed.

Lemma take_turns (f : Proc -> bool) (l : list Proc) (p : Proc) (r : list Proc) :
  take f l = Some (p, r) ->
  turns l = ((if isTurn p then 1 else 0) + turns r)%nat /\ rank l = (turnw p + rank r)%nat.
Proof.
  revert r; induction l as [|q l IH]; cbn; intros r H; [discriminate|].
  destruct (f q).
  - injection H as <- <-; split; reflexivity.
  - destruct (take f l) as [[q' r']|] eqn:T; [|discriminate].
    injection H as <- <-. destruct (IH r' eq_refl) as [E1 E2].
    cbn; rewrite E1, E2; split; lia.
Qed.

Definition NoFlight (t : O) : Prop := inFlight t = false.

Lemma nf_ext (s t : O) : inFlight t = inFlight s -> NoFlight s -> NoFlight t.
Proof. unfold NoFlight; intros ->; exact (fun H => H). Qed.

Lemma nf_setInFlight_false (s : O) : NoFlight (setInFlight false s).
Proof. reflexivity. Qed.

Lemma nf_stopAll (m : option string) (s : O) : NoFlight (stopAll m s).
Proof. unfold stopAll, NoFlight; cbv beta zeta; destruct m; reflexivity. Qed.

(** The suspended turns of [t] are [L], in order. *)
Definition TRis (L : list Proc) (t : O) : Prop := filter isTurn (procs t) = L.

Lemma tr_ext (L : list Proc) (s t : O) : procs t = procs s -> TRis L s -> TRis L t.
Proof. unfold TRis; intros ->; exact (fun H => H). Qed.

Lemma tr_spawn_non (L : list Proc) (p : Proc) (s : O) :
  isTurn p = false -> TRis L s -> TRis L (spawn p s).
Proof.
  unfold TRis, spawn; proj_simpl; intros N H; rewrite filter_app, H; cbn; rewrite N, app_nil_r; reflexivity.
Qed.

Lemma tr_spawn_mic (L : list Proc) (s : O) : TRis L s -> TRis L (spawn PMic s).
Proof. apply tr_spawn_non; reflexivity. Qed.

Lemma tr_spawn_greet (L : list Proc) (s : O) : TRis L s -> TRis L (spawn PGreet s).
Proof. apply tr_spawn_non; reflexivity. Qed.

Lemma tr_spawn_kgreet (L : list Proc) (sp : SpeakStage) (s : O) :
  TRis L s -> TRis L (spawn (PSpeak KGreet sp) s).
Proof. apply tr_spawn_non; reflexivity. Qed.

Ltac nf_lemmas :=
  lazymatch goal with
  | |- NoFlight (setInFlight false _) => apply nf_setInFlight_false
  | |- NoFlight (stopAll _ _) => apply nf_stopAll
  end.

Ltac nf_tac :=
  cbv beta zeta;
  repeat match goal with
  | H : NoFlight ?s |- NoFlight ?s => exact H
  | |- NoFlight (if ?b then _ else _) => destruct b
  | |- NoFlight (match ?x with _ => _ end) => destruct x
  | |- NoFlight _ => nf_lemmas
  | |- NoFlight (?f ?s) => apply (nf_ext s); [proj_simpl; reflexivity | ]
  | |- NoFlight (?f ?v ?s) => apply (nf_ext s); [proj_simpl; reflexivity | ]
  end.

Lemma nf_setState (v : WidgetState) (s : O) : NoFlight s -> NoFlight (setState v s).
Proof. intros H; unfold setState; nf_tac. Qed.

Ltac nf_lemmas ::=
  lazymatch goal with
  | |- NoFlight (setInFlight false _) => apply nf_setInFlight_false
  | |- NoFlight (stopAll _ _) => apply nf_stopAll
  | |- NoFlight (setState _ _) => apply nf_setState
  end.

Lemma nf_drop_vad (s : O) : NoFlight s -> NoFlight (drop_vad s).
Proof. intros H; unfold drop_vad; nf_tac. Qed.

Ltac nf_lemmas ::=
  lazymatch goal with
  | |- NoFlight (setInFlight false _) => apply nf_setInFlight_false
  | |- NoFlight (stopAll _ _) => apply nf_stopAll
  | |- NoFlight (setState _ _) => apply nf_setState
  | |- NoFlight (drop_vad _) => apply nf_drop_vad
  end.

Lemma nf_drop_recorder (s : O) : NoFlight s -> NoFlight (drop_recorder s).
Proof. intros H; unfold drop_recorder; nf_tac. Qed.

Ltac nf_lemmas ::=
  lazymatch goal with
  | |- NoFlight (setInFlight false _) => apply nf_setInFlight_false
  | |- NoFlight (stopAll _ _) => apply nf_stopAll
  | |- NoFlight (setState _ _) => apply nf_setState
  | |- NoFlight (drop_vad _) => apply nf_drop_vad
  | |- NoFlight (drop_recorder _) => apply nf_drop_recorder
  end.

Lemma nf_stopVoicePipeline (a b c : bool) (s : O) : NoFlight s -> NoFlight (stopVoicePipeline a b c s).
Proof. intros H; unfold stopVoicePipeline; nf_tac. Qed.

Ltac nf_lemmas ::=
  lazymatch goal with
  | |- NoFlight (setInFlight false _) => apply nf_setInFlight_false
  | |- NoFlight (stopAll _ _) => apply nf_stopAll
  | |- NoFlight (setState _ _) => apply nf_setState
  | |- NoFlight (drop_vad _) => apply nf_drop_vad
  | |- NoFlight (drop_recorder _) => apply nf_drop_recorder
  | |- NoFlight (stopVoicePipeline _ _ _ _) => apply nf_stopVoicePipeline
  end.

Lemma nf_listen_start (s : O) : NoFlight s -> NoFlight (listen_start s).
Proof. intros H; unfold listen_start; nf_tac. Qed.

Ltac nf_lemmas ::=
  lazymatch goal with
  | |- NoFlight (setInFlight false _) => apply nf_setInFlight_false
  | |- NoFlight (stopAll _ _) => apply nf_stopAll
  | |- NoFlight (setState _ _) => apply nf_setState
  | |- NoFlight (drop_vad _) => apply nf_drop_vad
  | |- NoFlight (drop_recorder _) => apply nf_drop_recorder
  | |- NoFlight (stopVoicePipeline _ _ _ _) => apply nf_stopVoicePipeline
  | |- NoFlight (listen_start _) => apply nf_listen_start
  end.

Lemma nf_ensureVoiceListening (s : O) : NoFlight s -> NoFlight (ensureVoiceListening s).
Proof. intros H; unfold ensureVoiceListening; nf_tac. Qed.

Ltac nf_lemmas ::=
  lazymatch goal with
  | |- NoFlight (setInFlight false _) => apply nf_setInFlight_false
  | |- NoFlight (stopAll _ _) => apply nf_stopAll
  | |- NoFlight (setState _ _) => apply nf_setState
  | |- NoFlight (drop_vad _) => apply nf_drop_vad
  | |- NoFlight (drop_recorder _) => apply nf_drop_recorder
  | |- NoFlight (stopVoicePipeline _ _ _ _) => apply nf_stopVoicePipeline
  | |- NoFlight (listen_start _) => apply nf_listen_start
  | |- NoFlight (ensureVoiceListening _) => apply nf_ensureVoiceListening
  end.

Lemma nf_spawn (p : Proc) (s : O) : NoFlight s -> NoFlight (spawn p s).
Proof. intros H; unfold spawn; nf_tac. Qed.

Ltac nf_lemmas ::=
  lazymatch goal with
  | |- NoFlight (setInFlight false _) => apply nf_setInFlight_false
  | |- NoFlight (stopAll _ _) => apply nf_stopAll
  | |- NoFlight (setState _ _) => apply nf_setState
  | |- NoFlight (drop_vad _) => apply nf_drop_vad
  | |- NoFlight (drop_recorder _) => apply nf_drop_recorder
  | |- NoFlight (stopVoicePipeline _ _ _ _) => apply nf_stopVoicePipeline
  | |- NoFlight (listen_start _) => apply nf_listen_start
  | |- NoFlight (ensureVoiceListening _) => apply nf_ensureVoiceListening
  | |- NoFlight (spawn _ _) => apply nf_spawn
  end.

Lemma nf_stopBargeInMonitor (s : O) : NoFlight s -> NoFlight (stopBargeInMonitor s).
Proof. intros H; unfold stopBargeInMonitor; nf_tac. Qed.

Ltac nf_lemmas ::=
  lazymatch goal with
  | |- NoFlight (setInFlight false _) => apply nf_setInFlight_false
  | |- NoFlight (stopAll _ _) => apply nf_stopAll
  | |- NoFlight (setState _ _) => apply nf_setState
  | |- NoFlight (drop_vad _) => apply nf_drop_vad
  | |- NoFlight (drop_recorder _) => apply nf_drop_recorder
  | |- NoFlight (stopVoicePipeline _ _ _ _) => apply nf_stopVoicePipeline
  | |- NoFlight (listen_start _) => apply nf_listen_start
  | |- NoFlight (ensureVoiceListening _) => apply nf_ensureVoiceListening
  | |- NoFlight (spawn _ _) => apply nf_spawn
  | |- NoFlight (stopBargeInMonitor _) => apply nf_stopBargeInMonitor
  end.

Lemma nf_startBargeInMonitor (g : bool) (s : O) : NoFlight s -> NoFlight (startBargeInMonitor g s).
Proof. intros H; unfold startBargeInMonitor; nf_tac. Qed.

Ltac nf_lemmas ::=
  lazymatch goal with
  | |- NoFlight (setInFlight false _) => apply nf_setInFlight_false
  | |- NoFlight (stopAll _ _) => apply nf_stopAll
  | |- NoFlight (setState _ _) => apply nf_setState
  | |- NoFlight (drop_vad _) => apply nf_drop_vad
  | |- NoFlight (drop_recorder _) => apply nf_drop_recorder
  | |- NoFlight (stopVoicePipeline _ _ _ _) => apply nf_stopVoicePipeline
  | |- NoFlight (listen_start _) => apply nf_listen_start
  | |- NoFlight (ensureVoiceListening _) => apply nf_ensureVoiceListening
  | |- NoFlight (spawn _ _) => apply nf_spawn
  | |- NoFlight (stopBargeInMonitor _) => apply nf_stopBargeInMonitor
  | |- NoFlight (startBargeInMonitor _ _) => apply nf_startBargeInMonitor
  end.

Lemma nf_playback_finally (s : O) : NoFlight s -> NoFlight (playback_finally s).
Proof. intros H; unfold playback_finally; nf_tac. Qed.

Ltac nf_lemmas ::=
  lazymatch goal with
  | |- NoFlight (setInFlight false _) => apply nf_setInFlight_false
  | |- NoFlight (stopAll _ _) => apply nf_stopAll
  | |- NoFlight (setState _ _) => apply nf_setState
  | |- NoFlight (drop_vad _) => apply nf_drop_vad
  | |- NoFlight (drop_recorder _) => apply nf_drop_recorder
  | |- NoFlight (stopVoicePipeline _ _ _ _) => apply nf_stopVoicePipeline
  | |- NoFlight (listen_start _) => apply nf_listen_start
  | |- NoFlight (ensureVoiceListening _) => apply nf_ensureVoiceListening
  | |- NoFlight (spawn _ _) => apply nf_spawn
  | |- NoFlight (stopBargeInMonitor _) => apply nf_stopBargeInMonitor
  | |- NoFlight (startBargeInMonitor _ _) => apply nf_startBargeInMonitor
  | |- NoFlight (playback_finally _) => apply nf_playback_finally
  end.

Lemma nf_voice_after_speak (s : O) : NoFlight (voice_after_speak s).
Proof. unfold voice_after_speak; nf_tac. Qed.

Ltac nf_lemmas ::=
  lazymatch goal with
  | |- NoFlight (setInFlight false _) => apply nf_setInFlight_false
  | |- NoFlight (stopAll _ _) => apply nf_stopAll
  | |- NoFlight (setState _ _) => apply nf_setState
  | |- NoFlight (drop_vad _) => apply nf_drop_vad
  | |- NoFlight (drop_recorder _) => apply nf_drop_recorder
  | |- NoFlight (stopVoicePipeline _ _ _ _) => apply nf_stopVoicePipeline
  | |- NoFlight (listen_start _) => apply nf_listen_start
  | |- NoFlight (ensureVoiceListening _) => apply nf_ensureVoiceListening
  | |- NoFlight (spawn _ _) => apply nf_spawn
  | |- NoFlight (stopBargeInMonitor _) => apply nf_stopBargeInMonitor
  | |- NoFlight (startBargeInMonitor _ _) => apply nf_startBargeInMonitor
  | |- NoFlight (playback_finally _) => apply nf_playback_finally
  | |- NoFlight (voice_after_speak _) => apply nf_voice_after_speak
  end.

Lemma nf_text_finally (s : O) : NoFlight (text_finally s).
Proof. unfold text_finally; nf_tac. Qed.

Ltac nf_lemmas ::=
  lazymatch goal with
  | |- NoFlight (setInFlight false _) => apply nf_setInFlight_false
  | |- NoFlight (stopAll _ _) => apply nf_stopAll
  | |- NoFlight (setState _ _) => apply nf_setState
  | |- NoFlight (drop_vad _) => apply nf_drop_vad
  | |- NoFlight (drop_recorder _) => apply nf_drop_recorder
  | |- NoFlight (stopVoicePipeline _ _ _ _) => apply nf_stopVoicePipeline
  | |- NoFlight (listen_start _) => apply nf_listen_start
  | |- NoFlight (ensureVoiceListening _) => apply nf_ensureVoiceListening
  | |- NoFlight (spawn _ _) => apply nf_spawn
  | |- NoFlight (stopBargeInMonitor _) => apply nf_stopBargeInMonitor
  | |- NoFlight (startBargeInMonitor _ _) => apply nf_startBargeInMonitor
  | |- NoFlight (playback_finally _) => apply nf_playback_finally
  | |- NoFlight (voice_after_speak _) => apply nf_voice_after_speak
  | |- NoFlight (text_finally _) => apply nf_text_finally
  end.

Lemma nf_greet_after_speak (r : bool) (s : O) : NoFlight s -> NoFlight (greet_after_speak r s).
Proof. intros H; unfold greet_after_speak; nf_tac. Qed.

(** The end of a turn clears [inFlight]; the greeting's end keeps it. *)
Lemma nf_after_speak (k : Kind) (r : bool) (s : O) : k <> KGreet -> NoFlight (after_speak k r s).
Proof. intros K; destruct k; [apply nf_voice_after_speak | apply nf_text_finally | congruence]. Qed.

Lemma nf_after_speak_any (k : Kind) (r : bool) (s : O) : NoFlight s -> NoFlight (after_speak k r s).
Proof. intros H; destruct k; [apply nf_voice_after_speak | apply nf_text_finally | apply nf_greet_after_speak, H]. Qed.

Ltac nf_lemmas ::=
  lazymatch goal with
  | |- NoFlight (setInFlight false _) => apply nf_setInFlight_false
  | |- NoFlight (stopAll _ _) => apply nf_stopAll
  | |- NoFlight (setState _ _) => apply nf_setState
  | |- NoFlight (drop_vad _) => apply nf_drop_vad
  | |- NoFlight (drop_recorder _) => apply nf_drop_recorder
  | |- NoFlight (stopVoicePipeline _ _ _ _) => apply nf_stopVoicePipeline
  | |- NoFlight (listen_start _) => apply nf_listen_start
  | |- NoFlight (ensureVoiceListening _) => apply nf_ensureVoiceListening
  | |- NoFlight (spawn _ _) => apply nf_spawn
  | |- NoFlight (stopBargeInMonitor _) => apply nf_stopBargeInMonitor
  | |- NoFlight (startBargeInMonitor _ _) => apply nf_startBargeInMonitor
  | |- NoFlight (playback_finally _) => apply nf_playback_finally
  | |- NoFlight (voice_after_speak _) => apply nf_voice_after_speak
  | |- NoFlight (text_finally _) => apply nf_text_finally
  | |- NoFlight (greet_after_speak _ _) => apply nf_greet_after_speak
  | |- NoFlight (after_speak _ _) => apply nf_after_speak
  | |- NoFlight (after_speak _ _ _) => apply nf_after_speak_any
  end.

Lemma nf_speak_begin (k : Kind) (s : O) : NoFlight s -> NoFlight (speak_begin k s).
Proof. intros H; unfold speak_begin; nf_tac. Qed.

Ltac nf_lemmas ::=
  lazymatch goal with
  | |- NoFlight (setInFlight false _) => apply nf_setInFlight_false
  | |- NoFlight (stopAll _ _) => apply nf_stopAll
  | |- NoFlight (setState _ _) => apply nf_setState
  | |- NoFlight (drop_vad _) => apply nf_drop_vad
  | |- NoFlight (drop_recorder _) => apply nf_drop_recorder
  | |- NoFlight (stopVoicePipeline _ _ _ _) => apply nf_stopVoicePipeline
  | |- NoFlight (listen_start _) => apply nf_listen_start
  | |- NoFlight (ensureVoiceListening _) => apply nf_ensureVoiceListening
  | |- NoFlight (spawn _ _) => apply nf_spawn
  | |- NoFlight (stopBargeInMonitor _) => apply nf_stopBargeInMonitor
  | |- NoFlight (startBargeInMonitor _ _) => apply nf_startBargeInMonitor
  | |- NoFlight (playback_finally _) => apply nf_playback_finally
  | |- NoFlight (voice_after_speak _) => apply nf_voice_after_speak
  | |- NoFlight (text_finally _) => apply nf_text_finally
  | |- NoFlight (greet_after_speak _ _) => apply nf_greet_after_speak
  | |- NoFlight (after_speak _ _) => apply nf_after_speak
  | |- NoFlight (after_speak _ _ _) => apply nf_after_speak_any
  | |- NoFlight (speak_begin _ _) => apply nf_speak_begin
  end.

Lemma nf_greet_body (s : O) : NoFlight s -> NoFlight (greet_body s).
Proof. intros H; unfold greet_body; nf_tac. Qed.

Ltac nf_lemmas ::=
  lazymatch goal with
  | |- NoFlight (setInFlight false _) => apply nf_setInFlight_false
  | |- NoFlight (stopAll _ _) => apply nf_stopAll
  | |- NoFlight (setState _ _) => apply nf_setState
  | |- NoFlight (drop_vad _) => apply nf_drop_vad
  | |- NoFlight (drop_recorder _) => apply nf_drop_recorder
  | |- NoFlight (stopVoicePipeline _ _ _ _) => apply nf_stopVoicePipeline
  | |- NoFlight (listen_start _) => apply nf_listen_start
  | |- NoFlight (ensureVoiceListening _) => apply nf_ensureVoiceListening
  | |- NoFlight (spawn _ _) => apply nf_spawn
  | |- NoFlight (stopBargeInMonitor _) => apply nf_stopBargeInMonitor
  | |- NoFlight (startBargeInMonitor _ _) => apply nf_startBargeInMonitor
  | |- NoFlight (playback_finally _) => apply nf_playback_finally
  | |- NoFlight (voice_after_speak _) => apply nf_voice_after_speak
  | |- NoFlight (text_finally _) => apply nf_text_finally
  | |- NoFlight (greet_after_speak _ _) => apply nf_greet_after_speak
  | |- NoFlight (after_speak _ _) => apply nf_after_speak
  | |- NoFlight (after_speak _ _ _) => apply nf_after_speak_any
  | |- NoFlight (speak_begin _ _) => apply nf_speak_begin
  | |- NoFlight (greet_body _) => apply nf_greet_body
  end.

Lemma nf_maybeBootGreet (s : O) : NoFlight s -> NoFlight (maybeBootGreet s).
Proof. intros H; unfold maybeBootGreet; nf_tac. Qed.

Ltac nf_lemmas ::=
  lazymatch goal with
  | |- NoFlight (setInFlight false _) => apply nf_setInFlight_false
  | |- NoFlight (stopAll _ _) => apply nf_stopAll
  | |- NoFlight (setState _ _) => apply nf_setState
  | |- NoFlight (drop_vad _) => apply nf_drop_vad
  | |- NoFlight (drop_recorder _) => apply nf_drop_recorder
  | |- NoFlight (stopVoicePipeline _ _ _ _) => apply nf_stopVoicePipeline
  | |- NoFlight (listen_start _) => apply nf_listen_start
  | |- NoFlight (ensureVoiceListening _) => apply nf_ensureVoiceListening
  | |- NoFlight (spawn _ _) => apply nf_spawn
  | |- NoFlight (stopBargeInMonitor _) => apply nf_stopBargeInMonitor
  | |- NoFlight (startBargeInMonitor _ _) => apply nf_startBargeInMonitor
  | |- NoFlight (playback_finally _) => apply nf_playback_finally
  | |- NoFlight (voice_after_speak _) => apply nf_voice_after_speak
  | |- NoFlight (text_finally _) => apply nf_text_finally
  | |- NoFlight (greet_after_speak _ _) => apply nf_greet_after_speak
  | |- NoFlight (after_speak _ _) => apply nf_after_speak
  | |- NoFlight (after_speak _ _ _) => apply nf_after_speak_any
  | |- NoFlight (speak_begin _ _) => apply nf_speak_begin
  | |- NoFlight (greet_body _) => apply nf_greet_body
  | |- NoFlight (maybeBootGreet _) => apply nf_maybeBootGreet
  end.

Ltac tr_lemmas :=
  lazymatch goal with
  | |- TRis ?L (spawn PMic _) => apply tr_spawn_mic
  | |- TRis ?L (spawn PGreet _) => apply tr_spawn_greet
  | |- TRis ?L (spawn (PSpeak KGreet _) _) => apply tr_spawn_kgreet
  end.

Ltac tr_tac :=
  cbv beta zeta;
  repeat match goal with
  | H : TRis ?L ?s |- TRis ?L ?s => exact H
  | |- TRis ?L (if ?b then _ else _) => destruct b
  | |- TRis ?L (match ?x with _ => _ end) => destruct x
  | |- TRis ?L _ => tr_lemmas
  | |- TRis ?L (?f ?s) => apply ((tr_ext _) s); [proj_simpl; reflexivity | ]
  | |- TRis ?L (?f ?v ?s) => apply ((tr_ext _) s); [proj_simpl; reflexivity | ]
  end.

Lemma tr_setState (L : list Proc) (v : WidgetState) (s : O) : TRis L s -> TRis L (setState v s).
Proof. intros H; unfold setState; tr_tac. Qed.

Ltac tr_lemmas ::=
  lazymatch goal with
  | |- TRis ?L (spawn PMic _) => apply tr_spawn_mic
  | |- TRis ?L (spawn PGreet _) => apply tr_spawn_greet
  | |- TRis ?L (spawn (PSpeak KGreet _) _) => apply tr_spawn_kgreet
  | |- TRis ?L (setState _ _) => apply tr_setState
  end.

Lemma tr_setInFlight (L : list Proc) (v : bool) (s : O) : TRis L s -> TRis L (setInFlight v s).
Proof. intros H; unfold setInFlight; tr_tac. Qed.

Ltac tr_lemmas ::=
  lazymatch goal with
  | |- TRis ?L (spawn PMic _) => apply tr_spawn_mic
  | |- TRis ?L (spawn PGreet _) => apply tr_spawn_greet
  | |- TRis ?L (spawn (PSpeak KGreet _) _) => apply tr_spawn_kgreet
  | |- TRis ?L (setState _ _) => apply tr_setState
  | |- TRis ?L (setInFlight _ _) => apply tr_setInFlight
  end.

Lemma tr_drop_vad (L : list Proc) (s : O) : TRis L s -> TRis L (drop_vad s).
Proof. intros H; unfold drop_vad; tr_tac. Qed.

Ltac tr_lemmas ::=
  lazymatch goal with
  | |- TRis ?L (spawn PMic _) => apply tr_spawn_mic
  | |- TRis ?L (spawn PGreet _) => apply tr_spawn_greet
  | |- TRis ?L (spawn (PSpeak KGreet _) _) => apply tr_spawn_kgreet
  | |- TRis ?L (setState _ _) => apply tr_setState
  | |- TRis ?L (setInFlight _ _) => apply tr_setInFlight
  | |- TRis ?L (drop_vad _) => apply tr_drop_vad
  end.

Lemma tr_drop_recorder (L : list Proc) (s : O) : TRis L s -> TRis L (drop_recorder s).
Proof. intros H; unfold drop_recorder; tr_tac. Qed.

Ltac tr_lemmas ::=
  lazymatch goal with
  | |- TRis ?L (spawn PMic _) => apply tr_spawn_mic
  | |- TRis ?L (spawn PGreet _) => apply tr_spawn_greet
  | |- TRis ?L (spawn (PSpeak KGreet _) _) => apply tr_spawn_kgreet
  | |- TRis ?L (setState _ _) => apply tr_setState
  | |- TRis ?L (setInFlight _ _) => apply tr_setInFlight
  | |- TRis ?L (drop_vad _) => apply tr_drop_vad
  | |- TRis ?L (drop_recorder _) => apply tr_drop_recorder
  end.

Lemma tr_stopVoicePipeline (L : list Proc) (a b c : bool) (s : O) : TRis L s -> TRis L (stopVoicePipeline a b c s).
Proof. intros H; unfold stopVoicePipeline; tr_tac. Qed.

Ltac tr_lemmas ::=
  lazymatch goal with
  | |- TRis ?L (spawn PMic _) => apply tr_spawn_mic
  | |- TRis ?L (spawn PGreet _) => apply tr_spawn_greet
  | |- TRis ?L (spawn (PSpeak KGreet _) _) => apply tr_spawn_kgreet
  | |- TRis ?L (setState _ _) => apply tr_setState
  | |- TRis ?L (setInFlight _ _) => apply tr_setInFlight
  | |- TRis ?L (drop_vad _) => apply tr_drop_vad
  | |- TRis ?L (drop_recorder _) => apply tr_drop_recorder
  | |- TRis ?L (stopVoicePipeline _ _ _ _) => apply tr_stopVoicePipeline
  end.

Lemma tr_stopAll (L : list Proc) (m' : option string) (s : O) : TRis L s -> TRis L (stopAll m' s).
Proof. intros H; unfold stopAll; tr_tac. Qed.

Ltac tr_lemmas ::=
  lazymatch goal with
  | |- TRis ?L (spawn PMic _) => apply tr_spawn_mic
  | |- TRis ?L (spawn PGreet _) => apply tr_spawn_greet
  | |- TRis ?L (spawn (PSpeak KGreet _) _) => apply tr_spawn_kgreet
  | |- TRis ?L (setState _ _) => apply tr_setState
  | |- TRis ?L (setInFlight _ _) => apply tr_setInFlight
  | |- TRis ?L (drop_vad _) => apply tr_drop_vad
  | |- TRis ?L (drop_recorder _) => apply tr_drop_recorder
  | |- TRis ?L (stopVoicePipeline _ _ _ _) => apply tr_stopVoicePipeline
  | |- TRis ?L (stopAll _ _) => apply tr_stopAll
  end.

Lemma tr_listen_start (L : list Proc) (s : O) : TRis L s -> TRis L (listen_start s).
Proof. intros H; unfold listen_start; tr_tac. Qed.

Ltac tr_lemmas ::=
  lazymatch goal with
  | |- TRis ?L (spawn PMic _) => apply tr_spawn_mic
  | |- TRis ?L (spawn PGreet _) => apply tr_spawn_greet
  | |- TRis ?L (spawn (PSpeak KGreet _) _) => apply tr_spawn_kgreet
  | |- TRis ?L (setState _ _) => apply tr_setState
  | |- TRis ?L (setInFlight _ _) => apply tr_setInFlight
  | |- TRis ?L (drop_vad _) => apply tr_drop_vad
  | |- TRis ?L (drop_recorder _) => apply tr_drop_recorder
  | |- TRis ?L (stopVoicePipeline _ _ _ _) => apply tr_stopVoicePipeline
  | |- TRis ?L (stopAll _ _) => apply tr_stopAll
  | |- TRis ?L (listen_start _) => apply tr_listen_start
  end.

Lemma tr_ensureVoiceListening (L : list Proc) (s : O) : TRis L s -> TRis L (ensureVoiceListening s).
Proof. intros H; unfold ensureVoiceListening; tr_tac. Qed.

Ltac tr_lemmas ::=
  lazymatch goal with
  | |- TRis ?L (spawn PMic _) => apply tr_spawn_mic
  | |- TRis ?L (spawn PGreet _) => apply tr_spawn_greet
  | |- TRis ?L (spawn (PSpeak KGreet _) _) => apply tr_spawn_kgreet
  | |- TRis ?L (setState _ _) => apply tr_setState
  | |- TRis ?L (setInFlight _ _) => apply tr_setInFlight
  | |- TRis ?L (drop_vad _) => apply tr_drop_vad
  | |- TRis ?L (drop_recorder _) => apply tr_drop_recorder
  | |- TRis ?L (stopVoicePipeline _ _ _ _) => apply tr_stopVoicePipeline
  | |- TRis ?L (stopAll _ _) => apply tr_stopAll
  | |- TRis ?L (listen_start _) => apply tr_listen_start
  | |- TRis ?L (ensureVoiceListening _) => apply tr_ensureVoiceListening
  end.

Lemma tr_stopBargeInMonitor (L : list Proc) (s : O) : TRis L s -> TRis L (stopBargeInMonitor s).
Proof. intros H; unfold stopBargeInMonitor; tr_tac. Qed.

Ltac tr_lemmas ::=
  lazymatch goal with
  | |- TRis ?L (spawn PMic _) => apply tr_spawn_mic
  | |- TRis ?L (spawn PGreet _) => apply tr_spawn_greet
  | |- TRis ?L (spawn (PSpeak KGreet _) _) => apply tr_spawn_kgreet
  | |- TRis ?L (setState _ _) => apply tr_setState
  | |- TRis ?L (setInFlight _ _) => apply tr_setInFlight
  | |- TRis ?L (drop_vad _) => apply tr_drop_vad
  | |- TRis ?L (drop_recorder _) => apply tr_drop_recorder
  | |- TRis ?L (stopVoicePipeline _ _ _ _) => apply tr_stopVoicePipeline
  | |- TRis ?L (stopAll _ _) => apply tr_stopAll
  | |- TRis ?L (listen_start _) => apply tr_listen_start
  | |- TRis ?L (ensureVoiceListening _) => apply tr_ensureVoiceListening
  | |- TRis ?L (stopBargeInMonitor _) => apply tr_stopBargeInMonitor
  end.

Lemma tr_startBargeInMonitor (L : list Proc) (g : bool) (s : O) : TRis L s -> TRis L (startBargeInMonitor g s).
Proof. intros H; unfold startBargeInMonitor; tr_tac. Qed.

Ltac tr_lemmas ::=
  lazymatch goal with
  | |- TRis ?L (spawn PMic _) => apply tr_spawn_mic
  | |- TRis ?L (spawn PGreet _) => apply tr_spawn_greet
  | |- TRis ?L (spawn (PSpeak KGreet _) _) => apply tr_spawn_kgreet
  | |- TRis ?L (setState _ _) => apply tr_setState
  | |- TRis ?L (setInFlight _ _) => apply tr_setInFlight
  | |- TRis ?L (drop_vad _) => apply tr_drop_vad
  | |- TRis ?L (drop_recorder _) => apply tr_drop_recorder
  | |- TRis ?L (stopVoicePipeline _ _ _ _) => apply tr_stopVoicePipeline
  | |- TRis ?L (stopAll _ _) => apply tr_stopAll
  | |- TRis ?L (listen_start _) => apply tr_listen_start
  | |- TRis ?L (ensureVoiceListening _) => apply tr_ensureVoiceListening
  | |- TRis ?L (stopBargeInMonitor _) => apply tr_stopBargeInMonitor
  | |- TRis ?L (startBargeInMonitor _ _) => apply tr_startBargeInMonitor
  end.

Lemma tr_playback_finally (L : list Proc) (s : O) : TRis L s -> TRis L (playback_finally s).
Proof. intros H; unfold playback_finally; tr_tac. Qed.

Ltac tr_lemmas ::=
  lazymatch goal with
  | |- TRis ?L (spawn PMic _) => apply tr_spawn_mic
  | |- TRis ?L (spawn PGreet _) => apply tr_spawn_greet
  | |- TRis ?L (spawn (PSpeak KGreet _) _) => apply tr_spawn_kgreet
  | |- TRis ?L (setState _ _) => apply tr_setState
  | |- TRis ?L (setInFlight _ _) => apply tr_setInFlight
  | |- TRis ?L (drop_vad _) => apply tr_drop_vad
  | |- TRis ?L (drop_recorder _) => apply tr_drop_recorder
  | |- TRis ?L (stopVoicePipeline _ _ _ _) => apply tr_stopVoicePipeline
  | |- TRis ?L (stopAll _ _) => apply tr_stopAll
  | |- TRis ?L (listen_start _) => apply tr_listen_start
  | |- TRis ?L (ensureVoiceListening _) => apply tr_ensureVoiceListening
  | |- TRis ?L (stopBargeInMonitor _) => apply tr_stopBargeInMonitor
  | |- TRis ?L (startBargeInMonitor _ _) => apply tr_startBargeInMonitor
  | |- TRis ?L (playback_finally _) => apply tr_playback_finally
  end.

Lemma tr_voice_after_speak (L : list Proc) (s : O) : TRis L s -> TRis L (voice_after_speak s).
Proof. intros H; unfold voice_after_speak; tr_tac. Qed.

Ltac tr_lemmas ::=
  lazymatch goal with
  | |- TRis ?L (spawn PMic _) => apply tr_spawn_mic
  | |- TRis ?L (spawn PGreet _) => apply tr_spawn_greet
  | |- TRis ?L (spawn (PSpeak KGreet _) _) => apply tr_spawn_kgreet
  | |- TRis ?L (setState _ _) => apply tr_setState
  | |- TRis ?L (setInFlight _ _) => apply tr_setInFlight
  | |- TRis ?L (drop_vad _) => apply tr_drop_vad
  | |- TRis ?L (drop_recorder _) => apply tr_drop_recorder
  | |- TRis ?L (stopVoicePipeline _ _ _ _) => apply tr_stopVoicePipeline
  | |- TRis ?L (stopAll _ _) => apply tr_stopAll
  | |- TRis ?L (listen_start _) => apply tr_listen_start
  | |- TRis ?L (ensureVoiceListening _) => apply tr_ensureVoiceListening
  | |- TRis ?L (stopBargeInMonitor _) => apply tr_stopBargeInMonitor
  | |- TRis ?L (startBargeInMonitor _ _) => apply tr_startBargeInMonitor
  | |- TRis ?L (playback_finally _) => apply tr_playback_finally
  | |- TRis ?L (voice_after_speak _) => apply tr_voice_after_speak
  end.

Lemma tr_text_finally (L : list Proc) (s : O) : TRis L s -> TRis L (text_finally s).
Proof. intros H; unfold text_finally; tr_tac. Qed.

Ltac tr_lemmas ::=
  lazymatch goal with
  | |- TRis ?L (spawn PMic _) => apply tr_spawn_mic
  | |- TRis ?L (spawn PGreet _) => apply tr_spawn_greet
  | |- TRis ?L (spawn (PSpeak KGreet _) _) => apply tr_spawn_kgreet
  | |- TRis ?L (setState _ _) => apply tr_setState
  | |- TRis ?L (setInFlight _ _) => apply tr_setInFlight
  | |- TRis ?L (drop_vad _) => apply tr_drop_vad
  | |- TRis ?L (drop_recorder _) => apply tr_drop_recorder
  | |- TRis ?L (stopVoicePipeline _ _ _ _) => apply tr_stopVoicePipeline
  | |- TRis ?L (stopAll _ _) => apply tr_stopAll
  | |- TRis ?L (listen_start _) => apply tr_listen_start
  | |- TRis ?L (ensureVoiceListening _) => apply tr_ensureVoiceListening
  | |- TRis ?L (stopBargeInMonitor _) => apply tr_stopBargeInMonitor
  | |- TRis ?L (startBargeInMonitor _ _) => apply tr_startBargeInMonitor
  | |- TRis ?L (playback_finally _) => apply tr_playback_finally
  | |- TRis ?L (voice_after_speak _) => apply tr_voice_after_speak
  | |- TRis ?L (text_finally _) => apply tr_text_finally
  end.

Lemma tr_greet_after_speak (L : list Proc) (r : bool) (s : O) : TRis L s -> TRis L (greet_after_speak r s).
Proof. intros H; unfold greet_after_speak; tr_tac. Qed.

Ltac tr_lemmas ::=
  lazymatch goal with
  | |- TRis ?L (spawn PMic _) => apply tr_spawn_mic
  | |- TRis ?L (spawn PGreet _) => apply tr_spawn_greet
  | |- TRis ?L (spawn (PSpeak KGreet _) _) => apply tr_spawn_kgreet
  | |- TRis ?L (setState _ _) => apply tr_setState
  | |- TRis ?L (setInFlight _ _) => apply tr_setInFlight
  | |- TRis ?L (drop_vad _) => apply tr_drop_vad
  | |- TRis ?L (drop_recorder _) => apply tr_drop_recorder
  | |- TRis ?L (stopVoicePipeline _ _ _ _) => apply tr_stopVoicePipeline
  | |- TRis ?L (stopAll _ _) => apply tr_stopAll
  | |- TRis ?L (listen_start _) => apply tr_listen_start
  | |- TRis ?L (ensureVoiceListening _) => apply tr_ensureVoiceListening
  | |- TRis ?L (stopBargeInMonitor _) => apply tr_stopBargeInMonitor
  | |- TRis ?L (startBargeInMonitor _ _) => apply tr_startBargeInMonitor
  | |- TRis ?L (playback_finally _) => apply tr_playback_finally
  | |- TRis ?L (voice_after_speak _) => apply tr_voice_after_speak
  | |- TRis ?L (text_finally _) => apply tr_text_finally
  | |- TRis ?L (greet_after_speak _ _) => apply tr_greet_after_speak
  end.

Lemma tr_after_speak (L : list Proc) (k : Kind) (r : bool) (s : O) : TRis L s -> TRis L (after_speak k r s).
Proof. intros H; unfold after_speak; tr_tac. Qed.

Ltac tr_lemmas ::=
  lazymatch goal with
  | |- TRis ?L (spawn PMic _) => apply tr_spawn_mic
  | |- TRis ?L (spawn PGreet _) => apply tr_spawn_greet
  | |- TRis ?L (spawn (PSpeak KGreet _) _) => apply tr_spawn_kgreet
  | |- TRis ?L (setState _ _) => apply tr_setState
  | |- TRis ?L (setInFlight _ _) => apply tr_setInFlight
  | |- TRis ?L (drop_vad _) => apply tr_drop_vad
  | |- TRis ?L (drop_recorder _) => apply tr_drop_recorder
  | |- TRis ?L (stopVoicePipeline _ _ _ _) => apply tr_stopVoicePipeline
  | |- TRis ?L (stopAll _ _) => apply tr_stopAll
  | |- TRis ?L (listen_start _) => apply tr_listen_start
  | |- TRis ?L (ensureVoiceListening _) => apply tr_ensureVoiceListening
  | |- TRis ?L (stopBargeInMonitor _) => apply tr_stopBargeInMonitor
  | |- TRis ?L (startBargeInMonitor _ _) => apply tr_startBargeInMonitor
  | |- TRis ?L (playback_finally _) => apply tr_playback_finally
  | |- TRis ?L (voice_after_speak _) => apply tr_voice_after_speak
  | |- TRis ?L (text_finally _) => apply tr_text_finally
  | |- TRis ?L (greet_after_speak _ _) => apply tr_greet_after_speak
  | |- TRis ?L (after_speak _ _ _) => apply tr_after_speak
  end.

Lemma tr_greet_body (L : list Proc) (s : O) : TRis L s -> TRis L (greet_body s).
Proof. intros H; unfold greet_body, speak_begin; tr_tac. Qed.

Ltac tr_lemmas ::=
  lazymatch goal with
  | |- TRis ?L (spawn PMic _) => apply tr_spawn_mic
  | |- TRis ?L (spawn PGreet _) => apply tr_spawn_greet
  | |- TRis ?L (spawn (PSpeak KGreet _) _) => apply tr_spawn_kgreet
  | |- TRis ?L (setState _ _) => apply tr_setState
  | |- TRis ?L (setInFlight _ _) => apply tr_setInFlight
  | |- TRis ?L (drop_vad _) => apply tr_drop_vad
  | |- TRis ?L (drop_recorder _) => apply tr_drop_recorder
  | |- TRis ?L (stopVoicePipeline _ _ _ _) => apply tr_stopVoicePipeline
  | |- TRis ?L (stopAll _ _) => apply tr_stopAll
  | |- TRis ?L (listen_start _) => apply tr_listen_start
  | |- TRis ?L (ensureVoiceListening _) => apply tr_ensureVoiceListening
  | |- TRis ?L (stopBargeInMonitor _) => apply tr_stopBargeInMonitor
  | |- TRis ?L (startBargeInMonitor _ _) => apply tr_startBargeInMonitor
  | |- TRis ?L (playback_finally _) => apply tr_playback_finally
  | |- TRis ?L (voice_after_speak _) => apply tr_voice_after_speak
  | |- TRis ?L (text_finally _) => apply tr_text_finally
  | |- TRis ?L (greet_after_speak _ _) => apply tr_greet_after_speak
  | |- TRis ?L (after_speak _ _ _) => apply tr_after_speak
  | |- TRis ?L (greet_body _) => apply tr_greet_body
  end.

Lemma tr_maybeBootGreet (L : list Proc) (s : O) : TRis L s -> TRis L (maybeBootGreet s).
Proof. intros H; unfold maybeBootGreet; tr_tac. Qed.

Ltac tr_lemmas ::=
  lazymatch goal with
  | |- TRis ?L (spawn PMic _) => apply tr_spawn_mic
  | |- TRis ?L (spawn PGreet _) => apply tr_spawn_greet
  | |- TRis ?L (spawn (PSpeak KGreet _) _) => apply tr_spawn_kgreet
  | |- TRis ?L (setState _ _) => apply tr_setState
  | |- TRis ?L (setInFlight _ _) => apply tr_setInFlight
  | |- TRis ?L (drop_vad _) => apply tr_drop_vad
  | |- TRis ?L (drop_recorder _) => apply tr_drop_recorder
  | |- TRis ?L (stopVoicePipeline _ _ _ _) => apply tr_stopVoicePipeline
  | |- TRis ?L (stopAll _ _) => apply tr_stopAll
  | |- TRis ?L (listen_start _) => apply tr_listen_start
  | |- TRis ?L (ensureVoiceListening _) => apply tr_ensureVoiceListening
  | |- TRis ?L (stopBargeInMonitor _) => apply tr_stopBargeInMonitor
  | |- TRis ?L (startBargeInMonitor _ _) => apply tr_startBargeInMonitor
  | |- TRis ?L (playback_finally _) => apply tr_playback_finally
  | |- TRis ?L (voice_after_speak _) => apply tr_voice_after_speak
  | |- TRis ?L (text_finally _) => apply tr_text_finally
  | |- TRis ?L (greet_after_speak _ _) => apply tr_greet_after_speak
  | |- TRis ?L (after_speak _ _ _) => apply tr_after_speak
  | |- TRis ?L (greet_body _) => apply tr_greet_body
  | |- TRis ?L (maybeBootGreet _) => apply tr_maybeBootGreet
  end.

Lemma tr_onSelectMode (L : list Proc) (md : Mode) (s : O) : TRis L s -> TRis L (onSelectMode md s).
Proof. intros H; unfold onSelectMode; tr_tac. Qed.

Ltac tr_lemmas ::=
  lazymatch goal with
  | |- TRis ?L (spawn PMic _) => apply tr_spawn_mic
  | |- TRis ?L (spawn PGreet _) => apply tr_spawn_greet
  | |- TRis ?L (spawn (PSpeak KGreet _) _) => apply tr_spawn_kgreet
  | |- TRis ?L (setState _ _) => apply tr_setState
  | |- TRis ?L (setInFlight _ _) => apply tr_setInFlight
  | |- TRis ?L (drop_vad _) => apply tr_drop_vad
  | |- TRis ?L (drop_recorder _) => apply tr_drop_recorder
  | |- TRis ?L (stopVoicePipeline _ _ _ _) => apply tr_stopVoicePipeline
  | |- TRis ?L (stopAll _ _) => apply tr_stopAll
  | |- TRis ?L (listen_start _) => apply tr_listen_start
  | |- TRis ?L (ensureVoiceListening _) => apply tr_ensureVoiceListening
  | |- TRis ?L (stopBargeInMonitor _) => apply tr_stopBargeInMonitor
  | |- TRis ?L (startBargeInMonitor _ _) => apply tr_startBargeInMonitor
  | |- TRis ?L (playback_finally _) => apply tr_playback_finally
  | |- TRis ?L (voice_after_speak _) => apply tr_voice_after_speak
  | |- TRis ?L (text_finally _) => apply tr_text_finally
  | |- TRis ?L (greet_after_speak _ _) => apply tr_greet_after_speak
  | |- TRis ?L (after_speak _ _ _) => apply tr_after_speak
  | |- TRis ?L (greet_body _) => apply tr_greet_body
  | |- TRis ?L (maybeBootGreet _) => apply tr_maybeBootGreet
  | |- TRis ?L (onSelectMode _ _) => apply tr_onSelectMode
  end.

Lemma tr_onToggleMicMuted (L : list Proc) (b : bool) (s : O) : TRis L s -> TRis L (onToggleMicMuted b s).
Proof. intros H; unfold onToggleMicMuted; tr_tac. Qed.

Ltac tr_lemmas ::=
  lazymatch goal with
  | |- TRis ?L (spawn PMic _) => apply tr_spawn_mic
  | |- TRis ?L (spawn PGreet _) => apply tr_spawn_greet
  | |- TRis ?L (spawn (PSpeak KGreet _) _) => apply tr_spawn_kgreet
  | |- TRis ?L (setState _ _) => apply tr_setState
  | |- TRis ?L (setInFlight _ _) => apply tr_setInFlight
  | |- TRis ?L (drop_vad _) => apply tr_drop_vad
  | |- TRis ?L (drop_recorder _) => apply tr_drop_recorder
  | |- TRis ?L (stopVoicePipeline _ _ _ _) => apply tr_stopVoicePipeline
  | |- TRis ?L (stopAll _ _) => apply tr_stopAll
  | |- TRis ?L (listen_start _) => apply tr_listen_start
  | |- TRis ?L (ensureVoiceListening _) => apply tr_ensureVoiceListening
  | |- TRis ?L (stopBargeInMonitor _) => apply tr_stopBargeInMonitor
  | |- TRis ?L (startBargeInMonitor _ _) => apply tr_startBargeInMonitor
  | |- TRis ?L (playback_finally _) => apply tr_playback_finally
  | |- TRis ?L (voice_after_speak _) => apply tr_voice_after_speak
  | |- TRis ?L (text_finally _) => apply tr_text_finally
  | |- TRis ?L (greet_after_speak _ _) => apply tr_greet_after_speak
  | |- TRis ?L (after_speak _ _ _) => apply tr_after_speak
  | |- TRis ?L (greet_body _) => apply tr_greet_body
  | |- TRis ?L (maybeBootGreet _) => apply tr_maybeBootGreet
  | |- TRis ?L (onSelectMode _ _) => apply tr_onSelectMode
  | |- TRis ?L (onToggleMicMuted _ _) => apply tr_onToggleMicMuted
  end.

Lemma tr_onToggleSpeakerMuted (L : list Proc) (b : bool) (s : O) : TRis L s -> TRis L (onToggleSpeakerMuted b s).
Proof. intros H; unfold onToggleSpeakerMuted; tr_tac. Qed.

Ltac tr_lemmas ::=
  lazymatch goal with
  | |- TRis ?L (spawn PMic _) => apply tr_spawn_mic
  | |- TRis ?L (spawn PGreet _) => apply tr_spawn_greet
  | |- TRis ?L (spawn (PSpeak KGreet _) _) => apply tr_spawn_kgreet
  | |- TRis ?L (setState _ _) => apply tr_setState
  | |- TRis ?L (setInFlight _ _) => apply tr_setInFlight
  | |- TRis ?L (drop_vad _) => apply tr_drop_vad
  | |- TRis ?L (drop_recorder _) => apply tr_drop_recorder
  | |- TRis ?L (stopVoicePipeline _ _ _ _) => apply tr_stopVoicePipeline
  | |- TRis ?L (stopAll _ _) => apply tr_stopAll
  | |- TRis ?L (listen_start _) => apply tr_listen_start
  | |- TRis ?L (ensureVoiceListening _) => apply tr_ensureVoiceListening
  | |- TRis ?L (stopBargeInMonitor _) => apply tr_stopBargeInMonitor
  | |- TRis ?L (startBargeInMonitor _ _) => apply tr_startBargeInMonitor
  | |- TRis ?L (playback_finally _) => apply tr_playback_finally
  | |- TRis ?L (voice_after_speak _) => apply tr_voice_after_speak
  | |- TRis ?L (text_finally _) => apply tr_text_finally
  | |- TRis ?L (greet_after_speak _ _) => apply tr_greet_after_speak
  | |- TRis ?L (after_speak _ _ _) => apply tr_after_speak
  | |- TRis ?L (greet_body _) => apply tr_greet_body
  | |- TRis ?L (maybeBootGreet _) => apply tr_maybeBootGreet
  | |- TRis ?L (onSelectMode _ _) => apply tr_onSelectMode
  | |- TRis ?L (onToggleMicMuted _ _) => apply tr_onToggleMicMuted
  | |- TRis ?L (onToggleSpeakerMuted _ _) => apply tr_onToggleSpeakerMuted
  end.


Lemma tr_self (s : O) : TRis (filter isTurn (procs s)) s.
Proof. reflexivity. Qed.

Lemma turns_filter (l : list Proc) : turns (filter isTurn l) = turns l.
Proof.
  induction l as [|p l IH]; cbn; [reflexivity|].
  destruct (isTurn p) eqn:E; cbn; rewrite ?E, IH; reflexivity.
Qed.

Lemma turnw_non (p : Proc) : isTurn p = false -> turnw p = 0%nat.
Proof. destruct p as [| | k | k sp |]; cbn; try discriminate; try reflexivity; destruct k; first [discriminate | reflexivity]. Qed.

Lemma rank_filter (l : list Proc) : rank (filter isTurn l) = rank l.
Proof.
  induction l as [|p l IH]; cbn; [reflexivity|].
  destruct (isTurn p) eqn:E; cbn; rewrite IH; [reflexivity | rewrite (turnw_non p E); reflexivity].
Qed.

(** The number and the rank of the suspended turns of [t]. *)
Lemma tr_counts (l : list Proc) (t : O) :
  TRis (filter isTurn l) t -> turns (procs t) = turns l /\ rank (procs t) = rank l.
Proof.
  unfold TRis; intros H.
  rewrite <- (turns_filter (procs t)), <- (rank_filter (procs t)), H, turns_filter, rank_filter.
  split; reflexivity.
Qed.

Lemma take_filter (f : Proc -> bool) (l : list Proc) (p : Proc) (r : list Proc) :
  take f l = Some (p, r) -> isTurn p = false -> filter isTurn l = filter isTurn r.
Proof.
  revert r; induction l as [|q l IH]; cbn; intros r H N; [discriminate|].
  destruct (f q).
  - injection H as <- <-; cbn; rewrite N; reflexivity.
  - destruct (take f l) as [[q' r']|] eqn:T; [|discriminate].
    injection H as <- <-; cbn; rewrite (IH r' eq_refl N); reflexivity.
Qed.

Lemma take_mic (l : list Proc) (p : Proc) (r : list Proc) :
  take isPMic l = Some (p, r) -> p = PMic.
Proof. intros H; apply take_sound in H; destruct p; try discriminate; reflexivity. Qed.

Lemma take_greet (l : list Proc) (p : Proc) (r : list Proc) :
  take isPGreet l = Some (p, r) -> p = PGreet.
Proof. intros H; apply take_sound in H; destruct p; try discriminate; reflexivity. Qed.

(** [getBootGreeting] settling resumes no turn. *)
Lemma tr_onGreet (s : O) : TRis (filter isTurn (procs s)) (onGreet s).
Proof.
  unfold onGreet.
  destruct (take isPGreet (procs s)) as [[p rest]|] eqn:T; [|apply tr_self].
  apply tr_greet_body; unfold TRis; proj_simpl.
  rewrite (take_greet _ _ _ T) in T; symmetry; exact (take_filter _ _ _ _ T eq_refl).
Qed.

Lemma take_asr (l : list Proc) (p : Proc) (r : list Proc) :
  take isPAsr l = Some (p, r) -> p = PAsr.
Proof. intros H; apply take_sound in H; destruct p; try discriminate; reflexivity. Qed.

Lemma take_chat (l : list Proc) (p : Proc) (r : list Proc) :
  take isPChat l = Some (p, r) -> exists k, p = PChat k.
Proof. intros H; apply take_sound in H; destruct p; try discriminate; eexists; reflexivity. Qed.

Lemma take_stage (sp : SpeakStage) (l : list Proc) (p : Proc) (r : list Proc) :
  take (atStage sp) l = Some (p, r) -> exists k, p = PSpeak k sp.
Proof.
  intros H; apply take_sound in H.
  destruct p as [| | k | k sp' |]; try discriminate; exists k.
  destruct sp, sp'; try discriminate; reflexivity.
Qed.

(** A step either keeps the number of suspended turns, or ends one and
    leaves [inFlight] cleared; while a turn is in flight it never adds one. *)
Definition TurnOK (s t : O) : Prop :=
  ((turns (procs t) < turns (procs s))%nat -> inFlight t = false) /\
  (inFlight s = true -> (turns (procs t) <= turns (procs s))%nat).

(** A settlement moves a suspended turn strictly forward. *)
Definition Progress (s t : O) : Prop :=
  filter isTurn (procs t) <> filter isTurn (procs s) -> (rank (procs t) < rank (procs s))%nat.

Lemma turnok_same (s t : O) : turns (procs t) = turns (procs s) -> TurnOK s t.
Proof. intros E; split; intros; lia. Qed.

Lemma turnok_drop (s t : O) :
  inFlight t = false -> (turns (procs t) <= turns (procs s))%nat -> TurnOK s t.
Proof. intros E L; split; intros; [exact E | exact L]. Qed.

Lemma turnok_grow (s t : O) :
  inFlight s = false -> (turns (procs s) <= turns (procs t))%nat -> TurnOK s t.
Proof. intros E L; split; intros H; [lia | congruence]. Qed.

Lemma turnok_congr (s s1 t : O) :
  procs s1 = procs s -> inFlight s1 = inFlight s -> TurnOK s1 t -> TurnOK s t.
Proof. unfold TurnOK; intros -> ->; exact (fun H => H). Qed.

(** [TRis] of a continuation applied to [X], as equations. *)
Ltac tr_eqs X C :=
  let H := fresh "TR" in
  assert (H : TRis (filter isTurn (procs X)) C) by (tr_tac; apply tr_self);
  destruct (tr_counts _ _ H) as [? ?]; unfold TRis in H.

Lemma procs_stop (s : O) : procs (stopBargeInMonitor s) = procs s.
Proof. unfold stopBargeInMonitor; destruct (barge s); reflexivity. Qed.

Lemma inFlight_stop (s : O) : inFlight (stopBargeInMonitor s) = inFlight s.
Proof. unfold stopBargeInMonitor; destruct (barge s); reflexivity. Qed.

Lemma turnok_bargeIn (s : O) : TurnOK s (bargeIn s).
Proof.
  unfold bargeIn; cbv beta zeta.
  set (Y := ensureVoiceListening (setState Idle (stopBargeInMonitor (set_pendingListenAfterSpeak false s)))).
  assert (TY : TRis (filter isTurn (procs s)) Y).
  { subst Y; tr_tac; apply (tr_ext _ s); [proj_simpl; reflexivity | apply tr_self]. }
  destruct (tr_counts _ _ TY) as [TY1 _].
  destruct (currentAudioStop (set_pendingListenAfterSpeak false s)); [|apply turnok_same; exact TY1].
  destruct (take (atStage SPlaying) (procs Y)) as [[p rest]|] eqn:T; [|apply turnok_same; exact TY1].
  destruct (take_stage _ _ _ _ T) as [k ->].
  destruct (take_turns _ _ _ _ T) as [E1 _].
  tr_eqs (set_procs rest Y) (after_speak k true (playback_finally (set_procs rest Y))).
  destruct k; cbn in E1;
    [apply turnok_drop; [apply nf_after_speak; discriminate|] ..
    | apply turnok_same];
    match goal with H : turns (procs (after_speak _ _ _)) = _ |- _ => rewrite H end;
    proj_simpl; lia.
Qed.

Lemma turnok_bargeTick (t : Z) (q : Q) (s : O) : TurnOK s (bargeTick t q s).
Proof.
  unfold bargeTick; cbv beta zeta.
  destruct (bargeRaf s); cbn [negb]; [|apply turnok_same; reflexivity].
  apply (turnok_congr s (set_bargeRaf false s)); [reflexivity | reflexivity |].
  generalize (set_bargeRaf false s) as s0; intros s0.
  destruct (barge s0) as [b|]; [|apply turnok_same; reflexivity].
  destruct (currentAudio s0); [|apply turnok_same; rewrite procs_stop; reflexivity].
  repeat match goal with
  | |- TurnOK _ (if ?c then _ else _) => destruct c
  end;
  first [ apply turnok_bargeIn | apply turnok_same; reflexivity
        | apply turnok_same; rewrite procs_stop; reflexivity ].
Qed.

Lemma procs_spawn (p : Proc) (s : O) : procs (spawn p s) = procs s ++ [p].
Proof. reflexivity. Qed.

Lemma inFlight_spawn (p : Proc) (s : O) : inFlight (spawn p s) = inFlight s.
Proof. reflexivity. Qed.

(** Turns and rank of a continuation [C] run on [set_procs rest s]. *)
Ltac cont_eqs rest s C :=
  let H := fresh "TR" in
  assert (H : TRis (filter isTurn rest) C)
    by (tr_tac; apply (tr_ext _ (set_procs rest s)); [reflexivity | apply tr_self]);
  destruct (tr_counts _ _ H) as [? ?]; unfold TRis in H.

Ltac spawn_eqs P X :=
  let H1 := fresh "SP" in
  let H2 := fresh "SP" in
  assert (H1 : turns (procs (spawn P X)) = (turns (procs X) + turns [P])%nat)
    by (rewrite procs_spawn; apply turns_app);
  let H3 := fresh "SP" in
  assert (H2 : rank (procs (spawn P X)) = (rank (procs X) + rank [P])%nat)
    by (rewrite procs_spawn; apply rank_app);
  assert (H3 : filter isTurn (procs (spawn P X)) = filter isTurn (procs X) ++ filter isTurn [P])
    by (rewrite procs_spawn; apply filter_app);
  proj_simpl; cbn [turns rank isTurn turnw filter] in H1, H2, H3.

Ltac turn_close :=
  match goal with
  | |- TurnOK _ _ /\ Progress _ _ => split
  | |- TurnOK _ _ => first [ apply turnok_same; lia
                           | apply turnok_drop; [first [apply nf_after_speak; discriminate | apply nf_stopAll
                                                       | apply nf_text_finally
                                                       | apply (nf_ext (stopAll _ _)); [reflexivity | apply nf_stopAll]] | lia] ]
  | |- Progress _ _ =>
      first [ intros _; lia
            | intros N; exfalso; apply N;
              match goal with T : take _ _ = Some (_, _) |- _ => rewrite (take_filter _ _ _ _ T eq_refl) end;
              rewrite ?app_nil_r in *; congruence ]
  end.

(** A continuation that spawns the next stage of a turn or the greeting. *)
Ltac spawn_close rest s :=
  match goal with
  | |- TurnOK _ (spawn ?P ?X) /\ _ => cont_eqs rest s X; spawn_eqs P X
  end; repeat turn_close.

Lemma turn_onAsr (r : option string) (s : O) : TurnOK s (onAsr r s) /\ Progress s (onAsr r s).
Proof.
  unfold onAsr.
  destruct (take isPAsr (procs s)) as [[p rest]|] eqn:T;
    [|split; [apply turnok_same; reflexivity | intros H; congruence]].
  rewrite (take_asr _ _ _ T) in T; destruct (take_turns _ _ _ _ T) as [E1 E2]; cbn in E1, E2.
  cbv beta zeta.
  destruct r as [text|]; [destruct (String.eqb (TtsCache.trim text) "")|].
  - cont_eqs rest s (set_mode Text (stopAll (Some asr_empty_msg) (set_procs rest s))).
    repeat turn_close.
  - spawn_eqs (PChat KVoice) (set_procs rest s).
    repeat turn_close.
  - cont_eqs rest s (stopAll (Some pipeline_msg) (set_procs rest s)).
    repeat turn_close.
Qed.

Lemma turn_onChat (b : bool) (s : O) : TurnOK s (onChat b s) /\ Progress s (onChat b s).
Proof.
  unfold onChat.
  destruct (take isPChat (procs s)) as [[p rest]|] eqn:T;
    [|split; [apply turnok_same; reflexivity | intros H; congruence]].
  destruct (take_chat _ _ _ T) as [k ->]; destruct (take_turns _ _ _ _ T) as [E1 E2]; cbn in E1, E2.
  cbv beta zeta; unfold speak_begin.
  destruct k, b.
  - destruct (speakerMuted (setState (reduceState (state (set_procs rest s)) LLM_DONE) (set_procs rest s))).
    + cont_eqs rest s (after_speak KVoice true (setState (reduceState (state (set_procs rest s)) LLM_DONE) (set_procs rest s))).
      repeat turn_close.
    + cont_eqs rest s (setState (reduceState (state (set_procs rest s)) LLM_DONE) (set_procs rest s)).
      spawn_eqs (PSpeak KVoice SFetch) (setState (reduceState (state (set_procs rest s)) LLM_DONE) (set_procs rest s)).
      repeat turn_close.
  - cont_eqs rest s (stopAll (Some pipeline_msg) (set_procs rest s)).
    repeat turn_close.
  - destruct (speakerMuted (setState Speaking (set_procs rest s))).
    + cont_eqs rest s (after_speak KText true (setState Speaking (set_procs rest s))).
      repeat turn_close.
    + cont_eqs rest s (setState Speaking (set_procs rest s)).
      spawn_eqs (PSpeak KText SFetch) (setState Speaking (set_procs rest s)).
      repeat turn_close.
  - cont_eqs rest s (text_finally (stopAll (Some chat_text_msg) (set_procs rest s))).
    repeat turn_close.
  - split; [apply turnok_same; reflexivity | intros N; exfalso; apply N; reflexivity].
  - split; [apply turnok_same; reflexivity | intros N; exfalso; apply N; reflexivity].
Qed.

Lemma turn_onTts (b : bool) (s : O) : TurnOK s (onTts b s) /\ Progress s (onTts b s).
Proof.
  unfold onTts.
  destruct (take (atStage SFetch) (procs s)) as [[p rest]|] eqn:T;
    [|split; [apply turnok_same; reflexivity | intros H; congruence]].
  destruct (take_stage _ _ _ _ T) as [k ->]; destruct (take_turns _ _ _ _ T) as [E1 E2].
  cbv beta zeta; destruct k, b; cbn in E1, E2; spawn_close rest s.
Qed.

Lemma turn_onPlay (b g : bool) (s : O) : TurnOK s (onPlay b g s) /\ Progress s (onPlay b g s).
Proof.
  unfold onPlay.
  destruct (take (atStage SPlay) (procs s)) as [[p rest]|] eqn:T;
    [|split; [apply turnok_same; reflexivity | intros H; congruence]].
  destruct (take_stage _ _ _ _ T) as [k ->]; destruct (take_turns _ _ _ _ T) as [E1 E2].
  cbv beta zeta; destruct k, b; cbn in E1, E2; spawn_close rest s.
Qed.

Lemma turn_onEnded (s : O) : TurnOK s (onEnded s) /\ Progress s (onEnded s).
Proof.
  unfold onEnded.
  destruct (currentAudio s); [|split; [apply turnok_same; reflexivity | intros H; congruence]].
  destruct (take (atStage SPlaying) (procs s)) as [[p rest]|] eqn:T;
    [|split; [apply turnok_same; reflexivity | intros H; congruence]].
  destruct (take_stage _ _ _ _ T) as [k ->]; destruct (take_turns _ _ _ _ T) as [E1 E2].
  cont_eqs rest s (after_speak k true (playback_finally (set_procs rest s))).
  destruct k; cbn in E1, E2; repeat turn_close.
Qed.

Lemma turn_onWebSpeech (b : bool) (s : O) : TurnOK s (onWebSpeech b s) /\ Progress s (onWebSpeech b s).
Proof.
  unfold onWebSpeech.
  destruct (take (atStage SWebSpeech) (procs s)) as [[p rest]|] eqn:T;
    [|split; [apply turnok_same; reflexivity | intros H; congruence]].
  destruct (take_stage _ _ _ _ T) as [k ->]; destruct (take_turns _ _ _ _ T) as [E1 E2].
  cont_eqs rest s (after_speak k b (set_procs rest s)).
  destruct k; cbn in E1, E2; repeat turn_close.
Qed.

Lemma turn_onMic (b : bool) (s : O) : TurnOK s (onMic b s).
Proof.
  unfold onMic.
  destruct (take isPMic (procs s)) as [[p rest]|] eqn:T; [|apply turnok_same; reflexivity].
  rewrite (take_mic _ _ _ T) in T; destruct (take_turns _ _ _ _ T) as [E1 E2]; cbn in E1, E2.
  cbv beta zeta; destruct b.
  - cont_eqs rest s (listen_start (set_stream true (set_procs rest s))).
    repeat turn_close.
  - cont_eqs rest s (set_uiError (Some mic_msg) (setState Idle (set_procs rest s))).
    repeat turn_close.
Qed.

Lemma turn_onSpeechEnd (z : Z) (s : O) : TurnOK s (onSpeechEnd z s).
Proof.
  unfold onSpeechEnd.
  destruct (negb (ws_eqb (state s) Listening) || inFlight s) eqn:G; [apply turnok_same; reflexivity|].
  apply Bool.orb_false_iff in G; destruct G as [_ G].
  cbv beta zeta.
  set (X := drop_vad (setState (reduceState (state (setInFlight true s)) VAD_DONE) (setInFlight true s))).
  assert (TX : TRis (filter isTurn (procs s)) X)
    by (subst X; tr_tac; apply tr_self).
  destruct (tr_counts _ _ TX) as [TX1 _].
  apply turnok_grow; [exact G|].
  destruct (z <? 1200).
  - assert (TY : TRis (filter isTurn (procs X))
                   (ensureVoiceListening (setState Idle (setInFlight false X))))
      by (tr_tac; apply tr_self).
    destruct (tr_counts _ _ TY) as [TY1 _]; lia.
  - spawn_eqs PAsr X; lia.
Qed.

Lemma turnok_onSendText (s : O) : TurnOK s (onSendText s).
Proof.
  unfold onSendText; cbv beta zeta.
  destruct (negb (isText (mode (set_uiError None s)))); [apply turnok_same; reflexivity|].
  destruct (inFlight (set_uiError None s)) eqn:F; [apply turnok_same; reflexivity|].
  destruct (negb (session (set_uiError None s))); [apply turnok_same; reflexivity|].
  apply turnok_grow; [exact F|].
  tr_eqs s (setState Thinking (setInFlight true (drop_vad (set_uiError None s)))).
  spawn_eqs (PChat KText) (setState Thinking (setInFlight true (drop_vad (set_uiError None s)))).
  lia.
Qed.

Lemma turnok_step (s : O) (e : Ev) : TurnOK s (step s e).
Proof.
  destruct e; cbn [step].
  - apply turn_onSpeechEnd.
  - destruct (vad s); apply turnok_same; reflexivity.
  - destruct (vad s); [|apply turnok_same; reflexivity].
    destruct (tr_counts _ _ (tr_stopAll _ (Some vad_msg) s (tr_self s))) as [E _]; apply turnok_same; exact E.
  - apply turn_onMic.
  - apply turn_onAsr.
  - apply turn_onChat.
  - apply turn_onTts.
  - apply turn_onPlay.
  - apply turn_onEnded.
  - apply turn_onWebSpeech.
  - destruct (tr_counts _ _ (tr_onGreet s)) as [E _]; apply turnok_same; exact E.
  - apply turnok_bargeTick.
  - destruct (tr_counts _ _ (tr_onSelectMode _ m s (tr_self s))) as [E _]; apply turnok_same; exact E.
  - destruct (tr_counts _ _ (tr_onToggleMicMuted _ muted s (tr_self s))) as [E _]; apply turnok_same; exact E.
  - destruct (tr_counts _ _ (tr_onToggleSpeakerMuted _ muted s (tr_self s))) as [E _]; apply turnok_same; exact E.
  - destruct (textFallbackEnabled s); [apply turnok_onSendText | apply turnok_same; reflexivity].
Qed.

Lemma progress_step (s : O) (e : Ev) : settles e = true -> Progress s (step s e).
Proof.
  destruct e; cbn [settles step]; intros H; try discriminate.
  - apply turn_onAsr.
  - apply turn_onChat.
  - apply turn_onTts.
  - apply turn_onPlay.
  - apply turn_onEnded.
  - apply turn_onWebSpeech.
Qed.

Lemma speechEnd_drop (z : Z) (s : O) : inFlight s = true -> onSpeechEnd z s = s.
Proof. intros H; unfold onSpeechEnd; rewrite H, Bool.orb_true_r; reflexivity. Qed.

Lemma sendText_drop (s : O) :
  inFlight s = true ->
  onSendText s = set_uiError (Some (if isText (mode s) then wait_msg else switch_msg)) s.
Proof.
  intros H; unfold onSendText; cbv beta zeta; proj_simpl; rewrite H.
  destruct (mode s); reflexivity.
Qed.

Lemma rank_onMic (b : bool) (s : O) : (rank (procs (onMic b s)) <= rank (procs s))%nat.
Proof.
  unfold onMic.
  destruct (take isPMic (procs s)) as [[p rest]|] eqn:T; [|lia].
  rewrite (take_mic _ _ _ T) in T; destruct (take_turns _ _ _ _ T) as [E1 E2]; cbn in E1, E2.
  cbv beta zeta; destruct b.
  - cont_eqs rest s (listen_start (set_stream true (set_procs rest s))); lia.
  - cont_eqs rest s (set_uiError (Some mic_msg) (setState Idle (set_procs rest s))); lia.
Qed.

Lemma rank_bargeIn (s : O) : (rank (procs (bargeIn s)) <= rank (procs s))%nat.
Proof.
  unfold bargeIn; cbv beta zeta.
  set (Y := ensureVoiceListening (setState Idle (stopBargeInMonitor (set_pendingListenAfterSpeak false s)))).
  assert (TY : TRis (filter isTurn (procs s)) Y).
  { subst Y; tr_tac; apply (tr_ext _ s); [proj_simpl; reflexivity | apply tr_self]. }
  destruct (tr_counts _ _ TY) as [_ TY2].
  destruct (currentAudioStop (set_pendingListenAfterSpeak false s)); [|lia].
  destruct (take (atStage SPlaying) (procs Y)) as [[p rest]|] eqn:T; [|lia].
  destruct (take_stage _ _ _ _ T) as [k ->].
  destruct (take_turns _ _ _ _ T) as [_ E2].
  tr_eqs (set_procs rest Y) (after_speak k true (playback_finally (set_procs rest Y))).
  proj_simpl; cbn in E2; lia.
Qed.

Lemma rank_bargeTick (t : Z) (q : Q) (s : O) : (rank (procs (bargeTick t q s)) <= rank (procs s))%nat.
Proof.
  unfold bargeTick; cbv beta zeta.
  destruct (bargeRaf s); cbn [negb]; [|lia].
  assert (E : rank (procs s) = rank (procs (set_bargeRaf false s))) by reflexivity.
  rewrite E; generalize (set_bargeRaf false s) as s0; intros s0.
  destruct (barge s0) as [b|]; [|lia].
  destruct (currentAudio s0); [|rewrite procs_stop; lia].
  repeat match goal with
  | |- context [if ?c then _ else _] => destruct c
  end;
  first [ apply rank_bargeIn | rewrite procs_stop; lia | proj_simpl; lia ].
Qed.

Lemma proc_eq_dec (p q : Proc) : {p = q} + {p <> q}.
Proof. decide equality; decide equality. Qed.

(** While a turn is in flight no event adds work: the rank never grows. *)
Lemma rank_step (s : O) (e : Ev) :
  inFlight s = true -> (rank (procs (step s e)) <= rank (procs s))%nat.
Proof.
  intros H.
  destruct (settles e) eqn:Se.
  { destruct (list_eq_dec proc_eq_dec (filter isTurn (procs (step s e))) (filter isTurn (procs s))) as [E|N];
      [rewrite <- (rank_filter (procs (step s e))), <- (rank_filter (procs s)), E; lia
      | apply Nat.lt_le_incl, (progress_step s e Se), N]. }
  destruct e; cbn [settles] in Se; try discriminate; cbn [step].
  - rewrite speechEnd_drop by exact H; lia.
  - destruct (vad s); proj_simpl; lia.
  - destruct (vad s); [|lia].
    destruct (tr_counts _ _ (tr_stopAll _ (Some vad_msg) s (tr_self s))) as [_ E]; lia.
  - apply rank_onMic.
  - destruct (tr_counts _ _ (tr_onGreet s)) as [_ E]; lia.
  - apply rank_bargeTick.
  - destruct (tr_counts _ _ (tr_onSelectMode _ m s (tr_self s))) as [_ E]; lia.
  - destruct (tr_counts _ _ (tr_onToggleMicMuted _ muted s (tr_self s))) as [_ E]; lia.
  - destruct (tr_counts _ _ (tr_onToggleSpeakerMuted _ muted s (tr_self s))) as [_ E]; lia.
  - destruct (textFallbackEnabled s); [|lia].
    rewrite sendText_drop by exact H; proj_simpl; lia.
Qed.

Lemma procs_eqb_refl (l : list Proc) : procs_eqb l l = true.
Proof.
  induction l as [|p l IH]; [reflexivity|]; cbn; rewrite IH, Bool.andb_true_r.
  destruct p as [| |k|k sp|]; try reflexivity; destruct k; try reflexivity; destruct sp; reflexivity.
Qed.

Lemma resolutions_bound (es : list Ev) (s : O) :
  flying s es = true -> (resolutions s es + rank (procs (run s es)) <= rank (procs s))%nat.
Proof.
  revert s; induction es as [|e es IH]; intros s H; [cbn; lia|].
  cbn [flying] in H; apply Bool.andb_true_iff in H; destruct H as [H1 H2].
  specialize (IH (step s e) H2).
  change (run s (e :: es)) with (run (step s e) es); cbn [resolutions].
  destruct (settles e) eqn:Se; cbn [andb];
    [destruct (procs_eqb (filter isTurn (procs (step s e))) (filter isTurn (procs s))) eqn:Q|].
  - pose proof (rank_step s e H1); cbn [negb]; lia.
  - assert (N : filter isTurn (procs (step s e)) <> filter isTurn (procs s))
      by (intros E; rewrite E, procs_eqb_refl in Q; discriminate).
    pose proof (progress_step s e Se N); cbn [negb]; lia.
  - pose proof (rank_step s e H1); lia.
Qed.

(** [inFlight] is only raised by starting a turn: one new suspended turn. *)
Lemma newturn_step (s : O) (e : Ev) :
  inFlight s = false -> inFlight (step s e) = true ->
  turns (procs (step s e)) = S (turns (procs s)).
Proof.
  intros F; assert (F' : NoFlight s) by exact F.
  destruct e; cbn [step]; intros H.
  - unfold onSpeechEnd in *.
    destruct (negb (ws_eqb (state s) Listening) || inFlight s); [congruence|].
    cbv beta zeta in *.
    set (X := drop_vad (setState (reduceState (state (setInFlight true s)) VAD_DONE) (setInFlight true s))) in *.
    assert (TX : TRis (filter isTurn (procs s)) X)
      by (subst X; tr_tac; apply tr_self).
    destruct (tr_counts _ _ TX) as [TX1 _].
    destruct (sizeBytes <? 1200).
    + exfalso.
      assert (N : NoFlight (ensureVoiceListening (setState Idle (setInFlight false X))))
        by (apply nf_ensureVoiceListening, nf_setState, nf_setInFlight_false).
      unfold NoFlight in N; congruence.
    + spawn_eqs PAsr X; lia.
  - exfalso; destruct (vad s); proj_simpl; congruence.
  - exfalso; destruct (vad s); [pose proof (nf_stopAll (Some vad_msg) s) as N | ];
      unfold NoFlight in *; congruence.
  - exfalso; match goal with H : inFlight ?t = true |- _ =>
      assert (N : NoFlight t) by (unfold onMic; nf_tac) end; unfold NoFlight in N; congruence.
  - exfalso; match goal with H : inFlight ?t = true |- _ =>
      assert (N : NoFlight t) by (unfold onAsr; nf_tac) end; unfold NoFlight in N; congruence.
  - exfalso; match goal with H : inFlight ?t = true |- _ =>
      assert (N : NoFlight t) by (unfold onChat, speak_begin; nf_tac) end; unfold NoFlight in N; congruence.
  - exfalso; match goal with H : inFlight ?t = true |- _ =>
      assert (N : NoFlight t) by (unfold onTts; nf_tac) end; unfold NoFlight in N; congruence.
  - exfalso; match goal with H : inFlight ?t = true |- _ =>
      assert (N : NoFlight t) by (unfold onPlay; nf_tac) end; unfold NoFlight in N; congruence.
  - exfalso; match goal with H : inFlight ?t = true |- _ =>
      assert (N : NoFlight t) by (unfold onEnded; nf_tac) end; unfold NoFlight in N; congruence.
  - exfalso; match goal with H : inFlight ?t = true |- _ =>
      assert (N : NoFlight t) by (unfold onWebSpeech; nf_tac) end; unfold NoFlight in N; congruence.
  - exfalso; match goal with H : inFlight ?t = true |- _ =>
      assert (N : NoFlight t) by (unfold onGreet; nf_tac) end; unfold NoFlight in N; congruence.
  - exfalso; match goal with H : inFlight ?t = true |- _ =>
      assert (N : NoFlight t) by (unfold bargeTick, bargeIn; nf_tac) end; unfold NoFlight in N; congruence.
  - exfalso; match goal with H : inFlight ?t = true |- _ =>
      assert (N : NoFlight t) by (unfold onSelectMode; nf_tac) end; unfold NoFlight in N; congruence.
  - exfalso; match goal with H : inFlight ?t = true |- _ =>
      assert (N : NoFlight t) by (unfold onToggleMicMuted; nf_tac) end; unfold NoFlight in N; congruence.
  - exfalso; match goal with H : inFlight ?t = true |- _ =>
      assert (N : NoFlight t) by (unfold onToggleSpeakerMuted; nf_tac) end; unfold NoFlight in N; congruence.
  - destruct (textFallbackEnabled s); [|congruence].
    unfold onSendText in *; cbv beta zeta in *.
    destruct (negb (isText (mode (set_uiError None s)))); [proj_simpl; congruence|].
    destruct (inFlight (set_uiError None s)); [proj_simpl; congruence|].
    destruct (negb (session (set_uiError None s))); [proj_simpl; congruence|].
    tr_eqs s (setState Thinking (setInFlight true (drop_vad (set_uiError None s)))).
    spawn_eqs (PChat KText) (setState Thinking (setInFlight true (drop_vad (set_uiError None s)))).
    lia.
Qed.

Ltac off_lemmas ::=
  lazymatch goal with
  | |- MonitorOff (stopBargeInMonitor _) => apply off_stop
  | |- MonitorOff (setState _ _) => apply off_setState
  | |- MonitorOff (setInFlight _ _) => apply off_setInFlight
  | |- MonitorOff (drop_vad _) => apply off_drop_vad
  | |- MonitorOff (drop_recorder _) => apply off_drop_recorder
  | |- MonitorOff (stopVoicePipeline _ _ _ _) => apply off_stopVoicePipeline
  | |- MonitorOff (stopAll _ _) => apply off_stopAll
  | |- MonitorOff (listen_start _) => apply off_listen_start
  | |- MonitorOff (ensureVoiceListening _) => apply off_ensureVoiceListening
  | |- MonitorOff (spawn _ _) => apply off_spawn
  | |- MonitorOff (voice_after_speak _) => apply off_voice_after_speak
  | |- MonitorOff (text_finally _) => apply off_text_finally
  | |- MonitorOff (startBargeInMonitor false _) => apply off_start_failed
  | |- MonitorOff (greet_after_speak _ _) => apply off_greet_after_speak
  | |- MonitorOff (after_speak _ _ _) => apply off_after_speak
  | |- MonitorOff (speak_begin _ _) => apply off_speak_begin
  | |- MonitorOff (greet_body _) => apply off_greet_body
  | |- MonitorOff (maybeBootGreet _) => apply off_maybeBootGreet
  | |- MonitorOff (playback_finally _) => apply off_playback_finally
  | |- MonitorOff (bargeIn _) => apply off_bargeIn
  end.

(** Once no monitor is armed, only the start of a playback arms one. *)
Lemma off_step (s : O) (e : Ev) : MonitorOff s -> e <> EPlay true true -> MonitorOff (step s e).
Proof.
  intros H N; destruct e; cbn [step].
  - unfold onSpeechEnd; off_tac.
  - off_tac.
  - off_tac.
  - unfold onMic; off_tac.
  - unfold onAsr; off_tac.
  - unfold onChat, speak_begin; off_tac.
  - unfold onTts; off_tac.
  - destruct ok; [destruct graph; [congruence|]|]; unfold onPlay; off_tac.
  - unfold onEnded; off_tac.
  - unfold onWebSpeech; off_tac.
  - unfold onGreet; off_tac.
  - pose proof H as [Hb Hr]; unfold bargeTick; rewrite Hr; exact H.
  - unfold onSelectMode; off_tac.
  - unfold onToggleMicMuted; off_tac.
  - unfold onToggleSpeakerMuted; off_tac.
  - unfold onSendText; off_tac.
Qed.

End OrchFacts.

Module OrchClaims.
Import Orch OrchFacts.
Local Open Scope string_scope.

(** ** Concrete states and event sequences *)

(** Voice mode, listening, with a mic stream, recorder and VAD. *)
Definition listening0 : O :=
  mkO Listening false Voice false false true true true true true false None false false false
      true true true false None false false None [] 0%nat 0%nat.

(** Voice mode, idle, speaker muted, no mic stream yet. *)
Definition idle_race0 : O :=
  mkO Idle false Voice false true true true false false false false None false false false
      true true true false None false false None [] 0%nat 0%nat.

(** The mic is unmuted ([getUserMedia] is awaited), the user switches to
    Text and sends a message; the mic arrives and starts a VAD during the
    text turn; that VAD reports an error; the user sends again. *)
Definition race_events : list Ev :=
  [EToggleMic false; ESelectMode Text; ESendText; EMic true; EVadError; ESendText].

(** A voice turn up to the start of its playback. *)
Definition to_playing : list Ev :=
  [ESpeechEnd 2000 5000; EAsr (Some "hi"); EChat true; ETts true; EPlay true true].

Definition playing0 : O := run listening0 to_playing.

(** Loud frames 300 ms apart after the speaker is muted and unmuted. *)
Definition toggle_events : list Ev :=
  [EToggleSpeaker true; EBargeTick 0 (1 # 2); EToggleSpeaker false;
   EBargeTick 100 (1 # 2); EBargeTick 400 (1 # 2)].

(** The same loud frames without the toggle. *)
Definition loud_events : list Ev := [EBargeTick 100 (1 # 2); EBargeTick 400 (1 # 2)].

(** Voice mode, idle, mic muted, no mic stream; the greeting is done. *)
Definition voice_muted0 : O :=
  mkO Idle false Voice true false true true false false false false None false false false
      true true true false None false false None [] 0%nat 0%nat.

(** The mic is unmuted and, while [getUserMedia] is awaited, the user
    switches to Text and sends a message; the mic arrives (and starts a
    VAD, see C1), the reply is spoken, the user switches back to Voice
    while it is being fetched, and its playback starts with the barge-in
    monitor armed. *)
Definition text_play_events : list Ev :=
  [EToggleMic false; ESelectMode Text; ESendText; EMic true; EChat true; ETts true;
   ESelectMode Voice; EPlay true true].

Definition text_playing0 : O := run voice_muted0 text_play_events.

(** The checks of a barge-in frame besides the analyser being present. *)
Definition frame_gates (s : O) (a : Audio) : bool :=
  isVoice (mode s) && negb (micMuted s) && negb (speakerMuted s)
  && negb (a_muted a) && negb (a_volume0 a).

(** The start of the current hold: [if (aboveSince == null) aboveSince = now]. *)
Definition hold_start (b : Barge) (now : Z) : Z :=
  match aboveSince b with Some x => x | None => now end.

(** A transcript of white space only: a space, U+00A0 (C2 A0) and U+3000
    (E3 80 80). *)
Definition blank_transcript : string :=
  String (Ascii.ascii_of_nat 32) (String (Ascii.ascii_of_nat 194) (String (Ascii.ascii_of_nat 160)
    (String (Ascii.ascii_of_nat 227) (String (Ascii.ascii_of_nat 128)
      (String (Ascii.ascii_of_nat 128) EmptyString))))).

(** A voice turn in which the user switches to Text while listening, and
    the VAD then finalizes a segment below 1200 bytes. *)
Definition small_blob_events : list Ev := [ESelectMode Text; ESpeechEnd 500 800].

(** The same switch followed by a full voice turn. *)
Definition full_turn_events : list Ev :=
  [ESelectMode Text; ESpeechEnd 2000 5000; EAsr (Some "hi"); EChat true; ETts true;
   EPlay true true; EEnded].

(** ** Helper lemmas *)

Lemma barge_gates_stop (s : O) : barge_gates (stopBargeInMonitor s) = barge_gates s.
Proof. unfold stopBargeInMonitor; destruct (barge s); reflexivity. Qed.

Lemma bargeIn_voice (s : O) (rest : list Proc) :
  isSome (currentAudio s) = true -> currentAudioStop s = true ->
  take (atStage SPlaying) (procs s) = Some (PSpeak KVoice SPlaying, rest) ->
  mode s = Voice -> micMuted s = false -> consent s = true -> stream s = true ->
  pendingStopVoiceAfterTurn s = false -> bootGreetingDisplayed s || bootGreetingSpoken s = true ->
  state (bargeIn s) = Listening /\ vad (bargeIn s) = true /\ currentAudio (bargeIn s) = None /\
  inFlight (bargeIn s) = false /\ barge (bargeIn s) = None /\ bargeRaf (bargeIn s) = false /\
  procs (bargeIn s) = rest.
Proof.
  destruct s as [st fl md mm sm cs se vd str rc rcg ca cas pl ps bd bs bt bif bg br tfe ue pr td og].
  cbn; intros Ha Hc T Hm Hmm Hcs Hst Hps Hg; subst.
  destruct ca as [a|]; [|discriminate].
  destruct fl, bd, bs, rc, bg; try discriminate Hg;
    unfold bargeIn; cbn; rewrite T; cbn; repeat split; reflexivity.
Qed.

Lemma bargeIn_text (s : O) (rest : list Proc) :
  isSome (currentAudio s) = true -> currentAudioStop s = true ->
  take (atStage SPlaying) (procs s) = Some (PSpeak KText SPlaying, rest) ->
  state (bargeIn s) = Idle /\ currentAudio (bargeIn s) = None /\
  inFlight (bargeIn s) = false /\ barge (bargeIn s) = None /\ bargeRaf (bargeIn s) = false /\
  procs (bargeIn s) = rest.
Proof.
  destruct s as [st fl md mm sm cs se vd str rc rcg ca cas pl ps bd bs bt bif bg br tfe ue pr td og].
  cbn; intros Ha Hc T; subst.
  destruct ca as [a|]; [|discriminate].
  destruct md, mm, cs, fl, bd, bs, ps, bg; unfold bargeIn; cbn; rewrite T; cbn; repeat split; reflexivity.
Qed.

(** ** C10 *)

(** C10: at most one barge-in analysis graph exists at any time. From a
    state with no monitor and no graph, every run of events keeps at most
    one graph, and exactly one while a monitor is armed; building a monitor
    starts from the same state whether or not [stopBargeInMonitor] has just
    run, since it begins by tearing any monitor down; [stopBargeInMonitor]
    is idempotent and, with no monitor, only clears the frame handle; and
    playback that ends ([onended] or [onerror]), fails to start, or is
    interrupted by barge-in leaves no monitor behind, as does a monitor
    whose analysis graph fails to build (the [catch] of
    [startBargeInMonitor]). *)
Theorem single_barge_graph :
  (forall (s : O) (es : list Ev), barge s = None -> openGraphs s = 0%nat ->
     (openGraphs (run s es) <= 1)%nat /\
     openGraphs (run s es) = (if isSome (barge (run s es)) then 1 else 0)%nat) /\
  (forall (g : bool) (s : O), startBargeInMonitor g (stopBargeInMonitor s) = startBargeInMonitor g s) /\
  (forall s : O, stopBargeInMonitor (stopBargeInMonitor s) = stopBargeInMonitor s) /\
  (forall s : O, barge s = None -> stopBargeInMonitor s = set_bargeRaf false s) /\
  (forall s : O, isSome (currentAudio s) = true -> take (atStage SPlaying) (procs s) <> None ->
     barge (onEnded s) = None /\ bargeRaf (onEnded s) = false) /\
  (forall (g : bool) (s : O), take (atStage SPlay) (procs s) <> None ->
     barge (onPlay false g s) = None /\ bargeRaf (onPlay false g s) = false) /\
  (forall s : O, barge (bargeIn s) = None /\ bargeRaf (bargeIn s) = false) /\
  (forall s : O, barge (startBargeInMonitor false s) = None /\
     bargeRaf (startBargeInMonitor false s) = false).
Proof.
  split; [|split; [|split; [|split; [|split; [|split; [|split]]]]]].
  - intros s es Hb Hg.
    assert (G : GraphInv (run s es)) by (apply graph_run; unfold GraphInv; rewrite Hb, Hg; reflexivity).
    unfold GraphInv in G; split; [rewrite G; destruct (isSome _); lia | exact G].
  - intros g s; unfold startBargeInMonitor at 1; rewrite stop_idem; reflexivity.
  - exact stop_idem.
  - exact stop_none.
  - exact off_onEnded.
  - exact off_onPlay_failed.
  - exact off_bargeIn.
  - exact off_start_failed.
Qed.

Lemma single_barge_graph_witness :
  (openGraphs (run listening0 (to_playing ++ toggle_events)%list) <= 1)%nat /\
  barge (onEnded playing0) = None.
Proof.
  split.
  - apply (proj1 (proj1 single_barge_graph listening0 (to_playing ++ toggle_events)%list
                    ltac:(reflexivity) ltac:(reflexivity))).
  - apply (proj1 (proj1 (proj2 (proj2 (proj2 (proj2 single_barge_graph)))) playing0
                    ltac:(vm_compute; reflexivity) ltac:(vm_compute; intros H; discriminate H))).
Defined.

(** ** C6 *)

(** C6: when transcription of a voice segment settles with a text that
    trims to the empty string, the orchestrator stops everything: VAD,
    recorder, mic stream and playback are gone, [inFlight]
    is cleared, the state is [Idle], the recoverable error message is shown
    and the mode is forced to Text. *)
Theorem empty_transcript_fallback (text : string) (s : O) :
  take isPAsr (procs s) <> None -> TtsCache.trim text = "" ->
  mode (step s (EAsr (Some text))) = Text /\
  uiError (step s (EAsr (Some text))) = Some asr_empty_msg /\
  vad (step s (EAsr (Some text))) = false /\
  recorder (step s (EAsr (Some text))) = false /\
  stream (step s (EAsr (Some text))) = false /\
  currentAudio (step s (EAsr (Some text))) = None /\
  inFlight (step s (EAsr (Some text))) = false /\
  state (step s (EAsr (Some text))) = Idle.
Proof.
  intros Ht He; cbn [step]; unfold onAsr.
  destruct (take isPAsr (procs s)) as [[p rest]|]; [|congruence].
  rewrite He; cbn [String.eqb].
  unfold stopAll, setState, setInFlight, drop_recorder, drop_vad; cbv beta zeta; proj_simpl.
  cbn; repeat match goal with |- context [if ?b then _ else _] => destruct b end; cbn; repeat split.
Qed.

Lemma empty_transcript_fallback_witness :
  mode (step (run listening0 [ESpeechEnd 2000 5000]) (EAsr (Some blank_transcript))) = Text /\
  state (step (run listening0 [ESpeechEnd 2000 5000]) (EAsr (Some blank_transcript))) = Idle.
Proof.
  destruct (empty_transcript_fallback blank_transcript (run listening0 [ESpeechEnd 2000 5000])
              ltac:(vm_compute; intros H; discriminate H) ltac:(vm_compute; reflexivity))
    as [Hm [_ [_ [_ [_ [_ [_ Hs]]]]]]].
  split; [exact Hm | exact Hs].
Defined.

(** ** C1 *)

(** C1: the [inFlight] guard. While a turn is in flight a finalized speech
    segment changes nothing and a text submission only shows a message, so
    neither is queued; [inFlight] is only raised together with exactly one
    new suspended turn; a step that ends a suspended turn leaves [inFlight]
    cleared; and as long as [inFlight] stays set, the settlements that
    resume a suspended process are bounded by the rank of the pending work,
    so the flag is cleared within that many of them. Yet two turns can be in
    flight at once: a [getUserMedia] that resolves during a text turn starts
    a VAD without rechecking its gates, a VAD error then runs [stopAll],
    which clears [inFlight] while the text turn is still awaiting its
    reply, and a second submission starts a second turn; the first one's
    completion then clears [inFlight] under the second. *)
Theorem inflight_guard_and_overlapping_turns :
  (forall (s : O) (d z : Z), inFlight s = true -> step s (ESpeechEnd d z) = s) /\
  (forall s : O, inFlight s = true ->
     step s ESendText = s \/
     step s ESendText = set_uiError (Some (if isText (mode s) then wait_msg else switch_msg)) s) /\
  (forall (s : O) (e : Ev), inFlight s = false -> inFlight (step s e) = true ->
     turns (procs (step s e)) = S (turns (procs s))) /\
  (forall (s : O) (e : Ev), (turns (procs (step s e)) < turns (procs s))%nat ->
     inFlight (step s e) = false) /\
  (forall (s : O) (es : list Ev), flying s es = true ->
     (resolutions s es + rank (procs (run s es)) <= rank (procs s))%nat) /\
  (inFlight (run idle_race0 race_events) = true /\
   procs (run idle_race0 race_events) = [PChat KText; PChat KText] /\
   inFlight (step (run idle_race0 race_events) (EChat true)) = false /\
   procs (step (run idle_race0 race_events) (EChat true)) = [PChat KText] /\
   textFallbackEnabled (step (run idle_race0 race_events) (EChat true)) = true).
Proof.
  split; [|split; [|split; [|split; [|split]]]].
  - intros s d z H; cbn [step]; apply speechEnd_drop, H.
  - intros s H; cbn [step]; destruct (textFallbackEnabled s); [right; apply sendText_drop, H | left; reflexivity].
  - exact newturn_step.
  - intros s e; exact (proj1 (turnok_step s e)).
  - intros s es; exact (resolutions_bound es s).
  - vm_compute; repeat split.
Qed.

Lemma inflight_guard_and_overlapping_turns_witness :
  (resolutions (run listening0 [ESpeechEnd 2000 5000]) [EAsr (Some "hi"); EChat true; ETts true]
   + rank (procs (run (run listening0 [ESpeechEnd 2000 5000]) [EAsr (Some "hi"); EChat true; ETts true]))
   <= rank (procs (run listening0 [ESpeechEnd 2000 5000])))%nat.
Proof.
  apply (proj1 (proj2 (proj2 (proj2 (proj2 inflight_guard_and_overlapping_turns))))).
  vm_compute; reflexivity.
Defined.

(** ** C2 *)

Lemma bargeTick_cases (now : Z) (rms : Q) (s : O) (b : Barge) (a : Audio) :
  bargeRaf s = true -> barge s = Some b -> currentAudio s = Some a ->
  bargeTick now rms s =
    if frame_gates s a then
      if Qle_bool bargeThreshold rms then
        if (minHoldMs <=? now - hold_start b now)%Z then bargeIn (set_bargeRaf false s)
        else set_bargeRaf true (set_barge (Some (mkBarge (Some (hold_start b now)))) s)
      else set_bargeRaf true (set_barge (Some (mkBarge None)) s)
    else stopBargeInMonitor (set_bargeRaf false s).
Proof.
  intros Hr Hb Ha.
  destruct s as [st fl md mm sm cs se vd str rc rcg ca cas pl ps bd bs bt bif bg br tfe ue pr td og].
  cbn in Hr, Hb, Ha; subst; reflexivity.
Qed.

Lemma bargeIn_text_idle (s : O) (a : Audio) (rest : list Proc) :
  currentAudio s = Some a -> currentAudioStop s = true ->
  take (atStage SPlaying) (procs s) = Some (PSpeak KText SPlaying, rest) ->
  state (bargeIn s) = Idle /\ pendingListenAfterSpeak (bargeIn s) = false /\
  vad (bargeIn s) = vad s /\ currentAudio (bargeIn s) = None /\ procs (bargeIn s) = rest.
Proof.
  destruct s as [st fl md mm sm cs se vd str rc rcg ca cas pl ps bd bs bt bif bg br tfe ue pr td og].
  cbn; intros Ha Hc T; subst.
  destruct md, mm, cs, fl, bd, bs, ps, bg; unfold bargeIn; cbn; rewrite T; cbn; repeat split; reflexivity.
Qed.

Lemma onEnded_text_listens (s : O) (a : Audio) (rest : list Proc) :
  currentAudio s = Some a ->
  take (atStage SPlaying) (procs s) = Some (PSpeak KText SPlaying, rest) ->
  pendingListenAfterSpeak s = true -> mode s = Voice -> micMuted s = false -> consent s = true ->
  stream s = true -> pendingStopVoiceAfterTurn s = false ->
  bootGreetingDisplayed s || bootGreetingSpoken s = true ->
  state (onEnded s) = Listening /\ vad (onEnded s) = true /\ procs (onEnded s) = rest.
Proof.
  destruct s as [st fl md mm sm cs se vd str rc rcg ca cas pl ps bd bs bt bif bg br tfe ue pr td og].
  cbn; intros Ha T Hp Hm Hmm Hcs Hst Hps Hg; subst.
  destruct bd, bs, rc, bg; try discriminate Hg;
    unfold onEnded; cbn; rewrite T; cbn; repeat split; reflexivity.
Qed.

(** C2 (code bug): the barge-in monitor. An armed monitor's frame below
    the 0.09 threshold resets the hold, and the first loud frame whose hold
    reaches 260 ms interrupts. For a voice turn the interruption ends in
    [Listening] with a fresh VAD (given consent, a mic stream, a shown
    greeting and no deferred stop). The handler is commented "Interrupt TTS
    and start listening immediately", yet it clears
    [pendingListenAfterSpeak] first, and its own [ensureVoiceListening]
    returns early because [currentAudio] is still set when it runs. So when
    the reply of a text turn is playing after the user switched to Voice,
    the interruption ends the turn in [Idle] and nothing starts listening;
    the natural end of the same playback ([onended], whose [finally] reads
    [pendingListenAfterSpeak]) does listen. A concrete run reaches such a
    playback with the monitor armed, voice mode, mic and speaker unmuted:
    after 300 ms of loud frames the state is [Idle] and a finalized speech
    segment is then dropped, while [onended] instead gives [Listening] and
    the segment starts a voice turn. Also, once a frame tears the monitor
    down (the speaker is muted for a moment), loud speech no longer
    interrupts the playback after the speaker is unmuted. *)
Theorem barge_in_text_turn_idle :
  (forall (now : Z) (rms : Q) (s : O) (b : Barge) (a : Audio),
     bargeRaf s = true -> barge s = Some b -> currentAudio s = Some a ->
     frame_gates s a = true -> (rms < bargeThreshold)%Q ->
     bargeTick now rms s = set_bargeRaf true (set_barge (Some (mkBarge None)) s)) /\
  (forall (now : Z) (rms : Q) (s : O) (b : Barge) (a : Audio),
     bargeRaf s = true -> barge s = Some b -> currentAudio s = Some a ->
     frame_gates s a = true -> (bargeThreshold <= rms)%Q -> minHoldMs <= now - hold_start b now ->
     bargeTick now rms s = bargeIn (set_bargeRaf false s)) /\
  (forall (s : O) (rest : list Proc),
     isSome (currentAudio s) = true -> currentAudioStop s = true ->
     take (atStage SPlaying) (procs s) = Some (PSpeak KVoice SPlaying, rest) ->
     mode s = Voice -> micMuted s = false -> consent s = true -> stream s = true ->
     pendingStopVoiceAfterTurn s = false -> bootGreetingDisplayed s || bootGreetingSpoken s = true ->
     state (bargeIn s) = Listening /\ vad (bargeIn s) = true) /\
  (forall (s : O) (a : Audio) (rest : list Proc),
     currentAudio s = Some a -> currentAudioStop s = true ->
     take (atStage SPlaying) (procs s) = Some (PSpeak KText SPlaying, rest) ->
     state (bargeIn s) = Idle /\ pendingListenAfterSpeak (bargeIn s) = false /\
     vad (bargeIn s) = vad s /\ procs (bargeIn s) = rest) /\
  (forall (s : O) (a : Audio) (rest : list Proc),
     currentAudio s = Some a ->
     take (atStage SPlaying) (procs s) = Some (PSpeak KText SPlaying, rest) ->
     pendingListenAfterSpeak s = true -> mode s = Voice -> micMuted s = false -> consent s = true ->
     stream s = true -> pendingStopVoiceAfterTurn s = false ->
     bootGreetingDisplayed s || bootGreetingSpoken s = true ->
     state (onEnded s) = Listening /\ vad (onEnded s) = true /\ procs (onEnded s) = rest) /\
  (state text_playing0 = Speaking /\ mode text_playing0 = Voice /\
   micMuted text_playing0 = false /\ speakerMuted text_playing0 = false /\
   currentAudio text_playing0 = Some (mkAudio false false) /\
   barge text_playing0 = Some (mkBarge None) /\ bargeRaf text_playing0 = true /\
   pendingListenAfterSpeak text_playing0 = true /\
   procs text_playing0 = [PSpeak KText SPlaying] /\
   state (run text_playing0 loud_events) = Idle /\
   currentAudio (run text_playing0 loud_events) = None /\
   procs (run text_playing0 loud_events) = [] /\
   step (run text_playing0 loud_events) (ESpeechEnd 2000 5000) = run text_playing0 loud_events /\
   state (run text_playing0 [EEnded]) = Listening /\
   procs (step (run text_playing0 [EEnded]) (ESpeechEnd 2000 5000)) = [PAsr]) /\
  (state (run listening0 (to_playing ++ toggle_events)%list) = Speaking /\
   mode (run listening0 (to_playing ++ toggle_events)%list) = Voice /\
   micMuted (run listening0 (to_playing ++ toggle_events)%list) = false /\
   speakerMuted (run listening0 (to_playing ++ toggle_events)%list) = false /\
   currentAudio (run listening0 (to_playing ++ toggle_events)%list) = Some (mkAudio false false) /\
   procs (run listening0 (to_playing ++ toggle_events)%list) = [PSpeak KVoice SPlaying] /\
   barge (run listening0 (to_playing ++ toggle_events)%list) = None /\
   state (run listening0 (to_playing ++ loud_events)%list) = Listening).
Proof.
  split; [|split; [|split; [|split; [|split; [|split]]]]].
  - intros now rms s b a Hr Hb Ha G Q.
    rewrite (bargeTick_cases now rms s b a Hr Hb Ha), G.
    destruct (Qle_bool bargeThreshold rms) eqn:L; [|reflexivity].
    apply Qle_bool_iff in L; exfalso; apply (Qlt_not_le _ _ Q L).
  - intros now rms s b a Hr Hb Ha G Q Z.
    rewrite (bargeTick_cases now rms s b a Hr Hb Ha), G.
    apply Qle_bool_iff in Q; rewrite Q.
    apply Z.leb_le in Z; rewrite Z; reflexivity.
  - intros s rest Ha Hc T Hm Hmm Hcs Hst Hps Hg.
    destruct (bargeIn_voice s rest Ha Hc T Hm Hmm Hcs Hst Hps Hg) as [H1 [H2 _]].
    split; assumption.
  - intros s a rest Ha Hc T.
    destruct (bargeIn_text_idle s a rest Ha Hc T) as [H1 [H2 [H3 [_ H5]]]].
    repeat split; assumption.
  - exact onEnded_text_listens.
  - vm_compute; repeat split.
  - vm_compute; repeat split.
Qed.

Lemma barge_in_text_turn_idle_witness :
  state (bargeIn text_playing0) = Idle /\
  state (onEnded text_playing0) = Listening.
Proof.
  split.
  - apply (proj1 (proj1 (proj2 (proj2 (proj2 barge_in_text_turn_idle)))
             text_playing0 (mkAudio false false) []
             ltac:(vm_compute; reflexivity) ltac:(vm_compute; reflexivity)
             ltac:(vm_compute; reflexivity))).
  - apply (proj1 (proj1 (proj2 (proj2 (proj2 (proj2 barge_in_text_turn_idle))))
             text_playing0 (mkAudio false false) []
             ltac:(vm_compute; reflexivity) ltac:(vm_compute; reflexivity)
             ltac:(vm_compute; reflexivity) ltac:(vm_compute; reflexivity)
             ltac:(vm_compute; reflexivity) ltac:(vm_compute; reflexivity)
             ltac:(vm_compute; reflexivity) ltac:(vm_compute; reflexivity)
             ltac:(vm_compute; reflexivity))).
Defined.

(** ** C7 *)

(** C7 (the small-blob path skips the deferred stop): the user switches to
    Text while listening, which only sets [pendingStopVoiceAfterTurn]; the
    VAD then finalizes a segment under 1200 bytes. That turn ends (not in
    flight, [Idle]) without the teardown: the mic stream and the recorder
    stay open and the flag stays set. Switching back to Voice then never
    listens, since [ensureVoiceListening] returns early on the flag. The
    same switch followed by a full voice turn does tear the pipeline down
    once and clears the flag. *)
Theorem deferred_stop_lost_on_small_blob :
  (forall s : O, pendingStopVoiceAfterTurn s = true -> ensureVoiceListening s = s) /\
  pendingStopVoiceAfterTurn (run listening0 [ESelectMode Text]) = true /\
  teardowns (run listening0 [ESelectMode Text]) = 0%nat /\
  inFlight (run listening0 small_blob_events) = false /\
  state (run listening0 small_blob_events) = Idle /\
  teardowns (run listening0 small_blob_events) = 0%nat /\
  stream (run listening0 small_blob_events) = true /\
  recorder (run listening0 small_blob_events) = true /\
  pendingStopVoiceAfterTurn (run listening0 small_blob_events) = true /\
  state (run listening0 (small_blob_events ++ [ESelectMode Voice])%list) = Idle /\
  vad (run listening0 (small_blob_events ++ [ESelectMode Voice])%list) = false /\
  procs (run listening0 (small_blob_events ++ [ESelectMode Voice])%list) = [] /\
  teardowns (run listening0 full_turn_events) = 1%nat /\
  stream (run listening0 full_turn_events) = false /\
  pendingStopVoiceAfterTurn (run listening0 full_turn_events) = false.
Proof.
  split.
  - intros s H; unfold ensureVoiceListening, listen_gates; rewrite H, Bool.andb_false_r; reflexivity.
  - vm_compute; repeat split.
Qed.

End OrchClaims.


Module OrchMore.
Import Orch OrchFacts.

Definition voiceProc (p : Proc) : bool :=
  match p with
  | PMic | PAsr | PChat KVoice | PSpeak KVoice _ => true
  | _ => false
  end.

Definition VoiceDead (s : O) : Prop :=
  pendingStopVoiceAfterTurn s = true /\ ws_eqb (state s) Listening = false /\
  forallb (fun p => negb (voiceProc p)) (procs s) = true.

Lemma take_in (f : Proc -> bool) (l : list Proc) (p : Proc) (r : list Proc) :
  take f l = Some (p, r) -> In p l /\ (forall q, In q r -> In q l).
Proof.
  revert r; induction l as [|q l IH]; cbn; intros r H; [discriminate|].
  destruct (f q).
  - injection H as <- <-; split; [left; reflexivity | intros x Hx; right; exact Hx].
  - destruct (take f l) as [[q' r']|] eqn:T; [|discriminate].
    injection H as <- <-. destruct (IH r' eq_refl) as [A B].
    split; [right; exact A|]. intros x [<-|Hx]; [left; reflexivity | right; exact (B x Hx)].
Qed.

Lemma dead_ext (s t : O) :
  pendingStopVoiceAfterTurn t = pendingStopVoiceAfterTurn s -> state t = state s ->
  procs t = procs s -> VoiceDead s -> VoiceDead t.
Proof. unfold VoiceDead; intros -> -> ->; exact (fun H => H). Qed.

Lemma dead_take (f : Proc -> bool) (s : O) (p : Proc) (r : list Proc) :
  VoiceDead s -> take f (procs s) = Some (p, r) -> voiceProc p = false /\ VoiceDead (set_procs r s).
Proof.
  intros (A & B & C) T. destruct (take_in _ _ _ _ T) as [I J].
  rewrite forallb_forall in C. split.
  - apply negb_true_iff, C, I.
  - unfold VoiceDead; proj_simpl. split; [exact A|]. split; [exact B|].
    apply forallb_forall. intros x Hx; apply C, J, Hx.
Qed.

Lemma dead_setState (v : WidgetState) (s : O) :
  ws_eqb v Listening = false -> VoiceDead s -> VoiceDead (setState v s).
Proof. unfold VoiceDead, setState; intros Hv (A & B & C); proj_simpl; auto. Qed.

Lemma dead_spawn (p : Proc) (s : O) :
  voiceProc p = false -> VoiceDead s -> VoiceDead (spawn p s).
Proof.
  unfold VoiceDead, spawn; intros Hp (A & B & C); proj_simpl.
  rewrite forallb_app, C; cbn; rewrite Hp; auto.
Qed.

Lemma dead_set_pst (s : O) : VoiceDead s -> VoiceDead (set_pendingStopVoiceAfterTurn true s).
Proof. unfold VoiceDead; proj_simpl; intros (_ & B & C); auto. Qed.

Lemma dead_evl (s : O) : VoiceDead s -> ensureVoiceListening s = s.
Proof.
  unfold ensureVoiceListening, listen_gates; intros (A & _ & _).
  rewrite A, andb_false_r; reflexivity.
Qed.

Lemma dead_ensureVoiceListening (s : O) : VoiceDead s -> VoiceDead (ensureVoiceListening s).
Proof. intros H; rewrite (dead_evl s H); exact H. Qed.

Ltac dead_lemmas := fail.

Ltac dead_tac :=
  cbv beta zeta;
  repeat match goal with
  | H : VoiceDead ?s |- VoiceDead ?s => exact H
  | V : voiceProc (PChat ?k) = false |- _ => destruct k; [discriminate V | clear V | clear V]
  | V : voiceProc (PSpeak ?k _) = false |- _ => destruct k; [discriminate V | clear V | clear V]
  | V : voiceProc ?p = false |- _ => (cbn in V; discriminate V)
  | H : VoiceDead ?s, T : take _ (procs ?s) = Some (_, _) |- _ =>
      let V := fresh "V" in let D := fresh "D" in
      destruct (dead_take _ _ _ _ H T) as [V D]; clear T
  | |- VoiceDead (if ?b then _ else _) => destruct b eqn:?
  | |- VoiceDead (match ?x with _ => _ end) => destruct x eqn:?
  | |- VoiceDead (setState _ _) => apply dead_setState; [reflexivity|]
  | |- VoiceDead (spawn _ _) => apply dead_spawn; [reflexivity|]
  | |- VoiceDead (set_pendingStopVoiceAfterTurn true _) => apply dead_set_pst
  | |- VoiceDead (ensureVoiceListening _) => apply dead_ensureVoiceListening
  | |- VoiceDead _ => dead_lemmas
  | |- VoiceDead (?f ?s) => apply (dead_ext s); [proj_simpl; reflexivity | proj_simpl; reflexivity | proj_simpl; reflexivity | ]
  | |- VoiceDead (?f ?v ?s) => apply (dead_ext s); [proj_simpl; reflexivity | proj_simpl; reflexivity | proj_simpl; reflexivity | ]
  end.

Lemma dead_setInFlight (v : bool) (s : O) : VoiceDead s -> VoiceDead (setInFlight v s).
Proof. intros H; unfold setInFlight; dead_tac. Qed.

Lemma dead_drop_vad (s : O) : VoiceDead s -> VoiceDead (drop_vad s).
Proof. intros H; unfold drop_vad; dead_tac. Qed.

Lemma dead_drop_recorder (s : O) : VoiceDead s -> VoiceDead (drop_recorder s).
Proof. intros H; unfold drop_recorder; dead_tac. Qed.

Ltac dead_lemmas ::=
  first [ apply dead_setInFlight | apply dead_drop_vad | apply dead_drop_recorder ].

Lemma dead_stopVoicePipeline (a b c : bool) (s : O) : VoiceDead s -> VoiceDead (stopVoicePipeline a b c s).
Proof. intros H; unfold stopVoicePipeline; dead_tac. Qed.

Lemma dead_stopAll (m : option string) (s : O) : VoiceDead s -> VoiceDead (stopAll m s).
Proof. intros H; unfold stopAll; dead_tac. Qed.

Lemma dead_stopBargeInMonitor (s : O) : VoiceDead s -> VoiceDead (stopBargeInMonitor s).
Proof. intros H; unfold stopBargeInMonitor; dead_tac. Qed.

Ltac dead_lemmas ::=
  first [ apply dead_setInFlight | apply dead_drop_vad | apply dead_drop_recorder
        | apply dead_stopVoicePipeline | apply dead_stopAll | apply dead_stopBargeInMonitor ].

Lemma dead_startBargeInMonitor (g : bool) (s : O) : VoiceDead s -> VoiceDead (startBargeInMonitor g s).
Proof. intros H; unfold startBargeInMonitor; dead_tac. Qed.

Lemma dead_playback_finally (s : O) : VoiceDead s -> VoiceDead (playback_finally s).
Proof. intros H; unfold playback_finally; dead_tac. Qed.

Lemma dead_text_finally (s : O) : VoiceDead s -> VoiceDead (text_finally s).
Proof.
  intros H; unfold text_finally; cbv zeta.
  assert (H1 : VoiceDead (setState Idle (setInFlight false s))) by dead_tac.
  destruct (_ && _); [|exact H1].
  assert (H2 : VoiceDead (set_pendingListenAfterSpeak false (setState Idle (setInFlight false s)))) by dead_tac.
  rewrite (dead_evl _ H2); exact H2.
Qed.

Ltac dead_lemmas ::=
  first [ apply dead_setInFlight | apply dead_drop_vad | apply dead_drop_recorder
        | apply dead_stopVoicePipeline | apply dead_stopAll | apply dead_stopBargeInMonitor
        | apply dead_startBargeInMonitor | apply dead_playback_finally
        | apply dead_text_finally ].

Lemma dead_greet_after_speak (r : bool) (s : O) : VoiceDead s -> VoiceDead (greet_after_speak r s).
Proof. intros H; unfold greet_after_speak; dead_tac. Qed.

Lemma dead_speak_begin (k : Kind) (s : O) : k <> KVoice -> VoiceDead s -> VoiceDead (speak_begin k s).
Proof.
  intros Hk H; unfold speak_begin, after_speak.
  destruct (speakerMuted s); [|apply dead_spawn; [destruct k; [congruence | reflexivity | reflexivity] | exact H]].
  destruct k; [congruence | apply dead_text_finally, H | apply dead_greet_after_speak, H].
Qed.

Lemma dead_greet_body (s : O) : VoiceDead s -> VoiceDead (greet_body s).
Proof.
  intros H; unfold greet_body; cbv zeta.
  destruct (speakerMuted _); [dead_tac|].
  apply dead_speak_begin; [discriminate|]. dead_tac.
Qed.

Lemma dead_maybeBootGreet (s : O) : VoiceDead s -> VoiceDead (maybeBootGreet s).
Proof. intros H; unfold maybeBootGreet; cbv zeta; dead_tac; apply dead_greet_body; dead_tac. Qed.

Ltac dead_lemmas ::=
  first [ apply dead_setInFlight | apply dead_drop_vad | apply dead_drop_recorder
        | apply dead_stopVoicePipeline | apply dead_stopAll | apply dead_stopBargeInMonitor
        | apply dead_startBargeInMonitor | apply dead_playback_finally
        | apply dead_text_finally | apply dead_greet_after_speak | apply dead_greet_body
        | apply dead_maybeBootGreet ].

Lemma dead_onSpeechEnd (z : Z) (s : O) : VoiceDead s -> onSpeechEnd z s = s.
Proof. intros H; unfold onSpeechEnd; destruct H as (_ & B & _); rewrite B; reflexivity. Qed.

Lemma dead_onMic (b : bool) (s : O) : VoiceDead s -> onMic b s = s.
Proof.
  intros H; unfold onMic.
  destruct (take isPMic (procs s)) as [[p r]|] eqn:T; [|reflexivity].
  destruct (dead_take _ _ _ _ H T) as [V _]; rewrite (take_mic _ _ _ T) in V; discriminate V.
Qed.

Lemma dead_onAsr (r : option string) (s : O) : VoiceDead s -> onAsr r s = s.
Proof.
  intros H; unfold onAsr.
  destruct (take isPAsr (procs s)) as [[p l]|] eqn:T; [|reflexivity].
  destruct (dead_take _ _ _ _ H T) as [V _]; rewrite (take_asr _ _ _ T) in V; discriminate V.
Qed.

Lemma dead_onChat (b : bool) (s : O) : VoiceDead s -> VoiceDead (onChat b s).
Proof. intros H; unfold onChat; dead_tac. all: unfold speak_begin, after_speak; dead_tac. Qed.

Lemma dead_onTts (b : bool) (s : O) : VoiceDead s -> VoiceDead (onTts b s).
Proof. intros H; unfold onTts; dead_tac. Qed.

Lemma dead_onPlay (b g : bool) (s : O) : VoiceDead s -> VoiceDead (onPlay b g s).
Proof. intros H; unfold onPlay; dead_tac. Qed.

Lemma dead_onEnded (s : O) : VoiceDead s -> VoiceDead (onEnded s).
Proof. intros H; unfold onEnded, after_speak; dead_tac. Qed.

Lemma dead_onWebSpeech (b : bool) (s : O) : VoiceDead s -> VoiceDead (onWebSpeech b s).
Proof. intros H; unfold onWebSpeech, after_speak; dead_tac. Qed.

Lemma dead_bargeIn (s : O) : VoiceDead s -> VoiceDead (bargeIn s).
Proof.
  intros H; unfold bargeIn; cbv zeta.
  assert (H1 : VoiceDead (setState Idle (stopBargeInMonitor (set_pendingListenAfterSpeak false s)))) by dead_tac.
  rewrite (dead_evl _ H1). unfold after_speak. dead_tac.
Qed.

Lemma dead_bargeTick (t : Z) (q : Q) (s : O) : VoiceDead s -> VoiceDead (bargeTick t q s).
Proof. intros H; unfold bargeTick; dead_tac; apply dead_bargeIn; dead_tac. Qed.

Lemma dead_onSelectMode (m : Mode) (s : O) : VoiceDead s -> VoiceDead (onSelectMode m s).
Proof. intros H; unfold onSelectMode; dead_tac. Qed.

Lemma dead_onToggleMicMuted (b : bool) (s : O) : VoiceDead s -> VoiceDead (onToggleMicMuted b s).
Proof. intros H; unfold onToggleMicMuted; dead_tac. Qed.

Lemma dead_onToggleSpeakerMuted (b : bool) (s : O) : VoiceDead s -> VoiceDead (onToggleSpeakerMuted b s).
Proof. intros H; unfold onToggleSpeakerMuted; dead_tac. Qed.

Lemma dead_onGreet (s : O) : VoiceDead s -> VoiceDead (onGreet s).
Proof. intros H; unfold onGreet; dead_tac. Qed.

Lemma dead_onSendText (s : O) : VoiceDead s -> VoiceDead (onSendText s).
Proof. intros H; unfold onSendText; dead_tac. Qed.

Lemma dead_step (s : O) (e : Ev) : VoiceDead s -> VoiceDead (step s e).
Proof.
  intros H; destruct e; cbn [step].
  - rewrite dead_onSpeechEnd; exact H.
  - dead_tac.
  - dead_tac.
  - rewrite dead_onMic; exact H.
  - rewrite dead_onAsr; exact H.
  - apply dead_onChat, H.
  - apply dead_onTts, H.
  - apply dead_onPlay, H.
  - apply dead_onEnded, H.
  - apply dead_onWebSpeech, H.
  - apply dead_onGreet, H.
  - apply dead_bargeTick, H.
  - apply dead_onSelectMode, H.
  - apply dead_onToggleMicMuted, H.
  - apply dead_onToggleSpeakerMuted, H.
  - destruct (textFallbackEnabled s); [apply dead_onSendText|]; exact H.
Qed.

Lemma dead_run (s : O) (es : list Ev) : VoiceDead s -> VoiceDead (run s es).
Proof.
  unfold run; revert s; induction es as [|e es IH]; intros s H; [exact H|].
  cbn; apply IH, dead_step, H.
Qed.


(** X1. Switching to Text while listening and straight back to Voice leaves
    [pendingStopVoiceAfterTurn] set with no voice turn left to clear it:
    the mode is Voice, the VAD and its mic stream stay as they were, and
    from then on, whatever happens, the widget never listens again, never
    awaits the mic, a transcription or a voice reply. (The boot greeting
    has been spoken, so the switch back to Voice does not start it.) *)
Theorem voice_lockout (s : O) (es : list Ev) :
  state s = Listening -> bootGreetingSpoken s = true ->
  forallb (fun p => negb (voiceProc p)) (procs s) = true ->
  mode (run s [ESelectMode Text; ESelectMode Voice]) = Voice /\
  vad (run s [ESelectMode Text; ESelectMode Voice]) = vad s /\
  stream (run s [ESelectMode Text; ESelectMode Voice]) = stream s /\
  VoiceDead (run s ([ESelectMode Text; ESelectMode Voice] ++ es)).
Proof.
  intros Hst Hsp Hp.
  assert (H1 : VoiceDead (run s [ESelectMode Text; ESelectMode Voice])
    /\ mode (run s [ESelectMode Text; ESelectMode Voice]) = Voice
    /\ vad (run s [ESelectMode Text; ESelectMode Voice]) = vad s
    /\ stream (run s [ESelectMode Text; ESelectMode Voice]) = stream s).
  { unfold run; cbn [fold_left step]. unfold onSelectMode, maybeBootGreet; cbv zeta.
    proj_simpl. rewrite !Hst, ?Hsp; cbn [ws_eqb orb].
    proj_simpl. rewrite !Hst, ?Hsp; cbn [ws_eqb orb].
    assert (SS : forall v t, bootGreetingSpoken (setState v t) = bootGreetingSpoken t) by reflexivity.
    rewrite !SS; proj_simpl; rewrite !Hsp.
    destruct (isSome (currentAudio s)).
    - unfold VoiceDead, setState; proj_simpl; auto.
    - assert (D : VoiceDead (setState Idle (set_uiError None (set_mode Voice
        (set_pendingStopVoiceAfterTurn true (set_uiError None (set_mode Text s))))))).
      { unfold VoiceDead, setState; proj_simpl; auto. }
      rewrite (dead_evl _ D). split; [exact D|].
      unfold setState; proj_simpl; auto. }
  destruct H1 as (D & M & V & S).
  split; [exact M|]. split; [exact V|]. split; [exact S|].
  unfold run at 1; rewrite fold_left_app. apply dead_run, D.
Qed.
Lemma voice_lockout_witness :
  state OrchClaims.listening0 = Listening /\ bootGreetingSpoken OrchClaims.listening0 = true /\
  forallb (fun p => negb (voiceProc p)) (procs OrchClaims.listening0) = true /\
  VoiceDead (run OrchClaims.listening0 ([ESelectMode Text; ESelectMode Voice] ++ [ESpeechEnd 2000 5000])).
Proof.
  split; [reflexivity|]. split; [reflexivity|]. split; [reflexivity|].
  apply (voice_lockout OrchClaims.listening0 [ESpeechEnd 2000 5000]); reflexivity.
Defined.

End OrchMore.


Module OrchSendBox.
Import Orch OrchFacts.

(** The send box is enabled only in Text mode, idle, with no turn in flight. *)
Definition SendBoxOK (s : O) : Prop :=
  textFallbackEnabled s = true ->
  isText (mode s) && ws_eqb (state s) Idle && negb (inFlight s) = true.

Lemma sb_ext (s t : O) :
  textFallbackEnabled t = textFallbackEnabled s -> mode t = mode s ->
  state t = state s -> inFlight t = inFlight s -> SendBoxOK s -> SendBoxOK t.
Proof. unfold SendBoxOK; intros -> -> -> ->; exact (fun H => H). Qed.

Lemma sb_setState (v : WidgetState) (s : O) : SendBoxOK (setState v s).
Proof.
  unfold SendBoxOK, setState; proj_simpl; intros H.
  destruct v; cbn in *; try discriminate; rewrite andb_true_r in *; exact H.
Qed.

Lemma sb_setInFlight (v : bool) (s : O) : SendBoxOK (setInFlight v s).
Proof.
  unfold SendBoxOK, setInFlight; proj_simpl; intros H.
  apply andb_true_iff in H as [H1 H2]; apply andb_true_iff in H1 as [H3 H4].
  rewrite H2, H3, H4; reflexivity.
Qed.

Lemma sb_set_mode_text (s : O) : SendBoxOK s -> SendBoxOK (set_mode Text s).
Proof.
  unfold SendBoxOK; proj_simpl; intros H E. specialize (H E).
  apply andb_true_iff in H as [H1 H2]; apply andb_true_iff in H1 as [H3 H4].
  rewrite H2, H4; reflexivity.
Qed.

Ltac sb_lemmas := fail.

Ltac sb_tac :=
  cbv beta zeta;
  repeat match goal with
  | H : SendBoxOK ?s |- SendBoxOK ?s => exact H
  | |- SendBoxOK (setState _ _) => apply sb_setState
  | |- SendBoxOK (setInFlight _ _) => apply sb_setInFlight
  | |- SendBoxOK (set_mode Text _) => apply sb_set_mode_text
  | |- SendBoxOK (if ?b then _ else _) => destruct b eqn:?
  | |- SendBoxOK (match ?x with _ => _ end) => destruct x eqn:?
  | |- SendBoxOK _ => sb_lemmas
  | |- SendBoxOK (?f ?s) => apply (sb_ext s); [proj_simpl; reflexivity .. | ]
  | |- SendBoxOK (?f ?v ?s) => apply (sb_ext s); [proj_simpl; reflexivity .. | ]
  end.

Lemma sb_drop_vad (s : O) : SendBoxOK s -> SendBoxOK (drop_vad s).
Proof. intros H; unfold drop_vad; sb_tac. Qed.

Lemma sb_drop_recorder (s : O) : SendBoxOK s -> SendBoxOK (drop_recorder s).
Proof. intros H; unfold drop_recorder; sb_tac. Qed.

Lemma sb_stopBargeInMonitor (s : O) : SendBoxOK s -> SendBoxOK (stopBargeInMonitor s).
Proof. intros H; unfold stopBargeInMonitor; sb_tac. Qed.

Ltac sb_lemmas ::=
  first [ apply sb_drop_vad | apply sb_drop_recorder | apply sb_stopBargeInMonitor ].

Lemma sb_stopVoicePipeline (a b c : bool) (s : O) : SendBoxOK s -> SendBoxOK (stopVoicePipeline a b c s).
Proof. intros H; unfold stopVoicePipeline; sb_tac. Qed.

Lemma sb_stopAll (m : option string) (s : O) : SendBoxOK (stopAll m s).
Proof.
  unfold stopAll; cbv zeta.
  assert (H : SendBoxOK (setState Idle (setInFlight false (set_currentAudio None
    (set_stream false (drop_recorder (drop_vad s))))))) by apply sb_setState.
  sb_tac.
Qed.

Lemma sb_listen_start (s : O) : SendBoxOK (listen_start s).
Proof. unfold listen_start; sb_tac. Qed.

Lemma sb_spawn (p : Proc) (s : O) : SendBoxOK s -> SendBoxOK (spawn p s).
Proof. intros H; unfold spawn; sb_tac. Qed.

Ltac sb_lemmas ::=
  first [ apply sb_drop_vad | apply sb_drop_recorder | apply sb_stopBargeInMonitor
        | apply sb_stopVoicePipeline | apply sb_stopAll | apply sb_listen_start
        | apply sb_spawn ].

Lemma sb_ensureVoiceListening (s : O) : SendBoxOK s -> SendBoxOK (ensureVoiceListening s).
Proof. intros H; unfold ensureVoiceListening; sb_tac. Qed.

Lemma sb_startBargeInMonitor (g : bool) (s : O) : SendBoxOK s -> SendBoxOK (startBargeInMonitor g s).
Proof. intros H; unfold startBargeInMonitor; sb_tac. Qed.

Lemma sb_playback_finally (s : O) : SendBoxOK s -> SendBoxOK (playback_finally s).
Proof. intros H; unfold playback_finally; sb_tac. Qed.

Ltac sb_lemmas ::=
  first [ apply sb_drop_vad | apply sb_drop_recorder | apply sb_stopBargeInMonitor
        | apply sb_stopVoicePipeline | apply sb_stopAll | apply sb_listen_start
        | apply sb_spawn | apply sb_ensureVoiceListening | apply sb_startBargeInMonitor
        | apply sb_playback_finally ].

Lemma sb_text_finally (s : O) : SendBoxOK (text_finally s).
Proof.
  unfold text_finally; cbv zeta.
  assert (H : SendBoxOK (setState Idle (setInFlight false s))) by apply sb_setState.
  sb_tac.
Qed.

Lemma sb_after_speak (k : Kind) (r : bool) (s : O) : SendBoxOK (after_speak k r s).
Proof.
  destruct k; cbn [after_speak].
  - unfold voice_after_speak; cbv zeta.
    assert (H : SendBoxOK (setState Idle (setInFlight false
      (setState (reduceState (state s) TTS_END) s)))) by apply sb_setState.
    sb_tac.
  - apply sb_text_finally.
  - unfold greet_after_speak.
    apply (sb_ext (if r then ensureVoiceListening (setState Idle (set_bootGreetingSpoken true s))
                   else setState Idle s)); [proj_simpl; reflexivity .. |].
    destruct r; [apply sb_ensureVoiceListening|]; apply sb_setState.
Qed.

Lemma sb_speak_begin (k : Kind) (s : O) : SendBoxOK s -> SendBoxOK (speak_begin k s).
Proof. intros H; unfold speak_begin; destruct (speakerMuted s); [apply sb_after_speak | sb_tac]. Qed.

Ltac sb_lemmas ::=
  first [ apply sb_drop_vad | apply sb_drop_recorder | apply sb_stopBargeInMonitor
        | apply sb_stopVoicePipeline | apply sb_stopAll | apply sb_listen_start
        | apply sb_spawn | apply sb_ensureVoiceListening | apply sb_startBargeInMonitor
        | apply sb_playback_finally | apply sb_after_speak | apply sb_speak_begin ].

Lemma sb_bargeIn (s : O) : SendBoxOK s -> SendBoxOK (bargeIn s).
Proof. intros H; unfold bargeIn; sb_tac. Qed.

Ltac sb_lemmas ::=
  first [ apply sb_drop_vad | apply sb_drop_recorder | apply sb_stopBargeInMonitor
        | apply sb_stopVoicePipeline | apply sb_stopAll | apply sb_listen_start
        | apply sb_spawn | apply sb_ensureVoiceListening | apply sb_startBargeInMonitor
        | apply sb_playback_finally | apply sb_after_speak | apply sb_speak_begin
        | apply sb_bargeIn | apply sb_text_finally ].

Lemma sb_greet_body (s : O) : SendBoxOK s -> SendBoxOK (greet_body s).
Proof.
  intros H; unfold greet_body; cbv zeta.
  destruct (speakerMuted _); [|sb_tac].
  apply (sb_ext (ensureVoiceListening (setState Idle (set_bootGreetingSpoken true
           (set_bootGreetingDisplayed true s))))); [proj_simpl; reflexivity .. |].
  apply sb_ensureVoiceListening, sb_setState.
Qed.

Lemma sb_maybeBootGreet (s : O) : SendBoxOK s -> SendBoxOK (maybeBootGreet s).
Proof. intros H; unfold maybeBootGreet; cbv zeta; sb_tac; apply sb_greet_body; sb_tac. Qed.

Ltac sb_lemmas ::=
  first [ apply sb_drop_vad | apply sb_drop_recorder | apply sb_stopBargeInMonitor
        | apply sb_stopVoicePipeline | apply sb_stopAll | apply sb_listen_start
        | apply sb_spawn | apply sb_ensureVoiceListening | apply sb_startBargeInMonitor
        | apply sb_playback_finally | apply sb_after_speak | apply sb_speak_begin
        | apply sb_bargeIn | apply sb_text_finally | apply sb_greet_body
        | apply sb_maybeBootGreet ].

Lemma sb_onSelectMode (m : Mode) (s : O) : SendBoxOK s -> SendBoxOK (onSelectMode m s).
Proof.
  intros H; destruct m; unfold onSelectMode; cbv zeta.
  - destruct (textFallbackEnabled s) eqn:T.
    + pose proof (H T) as E.
      apply andb_true_iff in E as [E1 _]; apply andb_true_iff in E1 as [_ E2].
      destruct (state s) eqn:St; try discriminate E2. proj_simpl; rewrite St; cbn [ws_eqb orb].
      destruct (isSome (currentAudio s)); sb_tac.
    + assert (H1 : SendBoxOK (set_uiError None (set_mode Voice s))).
      { unfold SendBoxOK; proj_simpl; rewrite T; discriminate. }
      sb_tac.
  - assert (H1 : SendBoxOK (set_uiError None (set_mode Text s))) by sb_tac.
    sb_tac.
Qed.

Lemma sb_step (s : O) (e : Ev) : SendBoxOK s -> SendBoxOK (step s e).
Proof.
  intros H; destruct e; cbn [step];
    [ unfold onSpeechEnd | | | unfold onMic | unfold onAsr | unfold onChat | unfold onTts
    | unfold onPlay | unfold onEnded | unfold onWebSpeech | unfold onGreet | unfold bargeTick
    | apply sb_onSelectMode, H | unfold onToggleMicMuted
    | unfold onToggleSpeakerMuted | unfold onSendText ]; sb_tac.
Qed.

Lemma sb_run (s : O) (es : list Ev) : SendBoxOK s -> SendBoxOK (run s es).
Proof.
  unfold run; revert s; induction es as [|e es IH]; intros s H; [exact H|].
  cbn; apply IH, sb_step, H.
Qed.


(** X2. The send box is only ever enabled in Text mode, idle, with no turn in
    flight, whatever events occur; so whenever it is enabled and a session
    exists, pressing send starts a text turn: the error line is cleared,
    [inFlight] is raised, the state is [Thinking] and one text chat request
    is awaited, never the "wait" or "switch to Text" refusals. *)
Theorem send_box_enabled_only_when_ready (s : O) (es : list Ev) :
  SendBoxOK s ->
  SendBoxOK (run s es) /\
  (textFallbackEnabled (run s es) = true -> session (run s es) = true ->
   uiError (step (run s es) ESendText) = None /\
   inFlight (step (run s es) ESendText) = true /\
   state (step (run s es) ESendText) = Thinking /\
   procs (step (run s es) ESendText) = procs (run s es) ++ [PChat KText]).
Proof.
  intros H. pose proof (sb_run s es H) as R. split; [exact R|].
  intros T Ss. specialize (R T).
  apply andb_true_iff in R as [R1 R2]; apply andb_true_iff in R1 as [R3 _].
  apply negb_true_iff in R2.
  cbn [step]; rewrite T. unfold onSendText, setState, setInFlight, spawn, drop_vad.
  cbv zeta; proj_simpl. rewrite R3, R2, Ss; cbn.
  destruct (vad (run s es)); proj_simpl; auto.
Qed.

(** X3. After the empty-transcript fallback of a voice turn the mode is Text
    but the send box stays disabled: [stopAll] refreshed the enabled flag
    while the mode was still Voice, and switching the mode does not
    refresh it.  Pressing send then does nothing. *)
Theorem empty_transcript_send_disabled (text : string) (s : O) :
  mode s = Voice -> take isPAsr (procs s) <> None -> TtsCache.trim text = ""%string ->
  mode (step s (EAsr (Some text))) = Text /\
  textFallbackEnabled (step s (EAsr (Some text))) = false /\
  step (step s (EAsr (Some text))) ESendText = step s (EAsr (Some text)).
Proof.
  intros M Ht He; cbn [step]; unfold onAsr.
  destruct (take isPAsr (procs s)) as [[p rest]|]; [|congruence].
  rewrite He; cbn [String.eqb].
  assert (T : textFallbackEnabled (set_mode Text (stopAll (Some asr_empty_msg) (set_procs rest s))) = false).
  { unfold stopAll, setState, setInFlight, drop_recorder, drop_vad; cbv zeta; proj_simpl.
    repeat match goal with |- context [if ?b then _ else _] => destruct b end; proj_simpl; rewrite M; reflexivity. }
  rewrite T; split; [reflexivity|]; split; reflexivity.
Qed.

Lemma send_box_enabled_only_when_ready_witness :
  SendBoxOK OrchClaims.idle_race0 /\
  SendBoxOK (run OrchClaims.idle_race0 [ESelectMode Text]) /\
  textFallbackEnabled (run OrchClaims.idle_race0 [ESelectMode Text]) = true.
Proof.
  assert (H0 : SendBoxOK OrchClaims.idle_race0)
    by (unfold SendBoxOK; vm_compute; intros; first [reflexivity | discriminate]).
  split; [exact H0|]. split; [|vm_compute; reflexivity].
  apply (send_box_enabled_only_when_ready OrchClaims.idle_race0 [ESelectMode Text] H0).
Defined.

Lemma empty_transcript_send_disabled_witness :
  mode (run OrchClaims.listening0 [ESpeechEnd 2000 5000]) = Voice /\
  take isPAsr (procs (run OrchClaims.listening0 [ESpeechEnd 2000 5000])) <> None /\
  TtsCache.trim OrchClaims.blank_transcript = ""%string /\
  textFallbackEnabled (step (run OrchClaims.listening0 [ESpeechEnd 2000 5000])
                            (EAsr (Some OrchClaims.blank_transcript))) = false.
Proof.
  split; [vm_compute; reflexivity|]. split; [vm_compute; discriminate|].
  split; [vm_compute; reflexivity|].
  apply (empty_transcript_send_disabled OrchClaims.blank_transcript
           (run OrchClaims.listening0 [ESpeechEnd 2000 5000]));
    [vm_compute; reflexivity | vm_compute; discriminate | vm_compute; reflexivity].
Defined.

End OrchSendBox.


Module OrchMic.
Import Orch OrchFacts.

(** While the mic is muted no VAD exists. *)
Definition MicOff (s : O) : Prop := micMuted s = true -> vad s = false.

Lemma mic_ext (s t : O) :
  micMuted t = micMuted s -> vad t = vad s -> MicOff s -> MicOff t.
Proof. unfold MicOff; intros -> ->; exact (fun H => H). Qed.

Lemma mic_drop_vad (s : O) : MicOff (drop_vad s).
Proof. unfold MicOff, drop_vad; proj_simpl; reflexivity. Qed.

Lemma mic_set_unmuted (s : O) : MicOff (set_micMuted false s).
Proof. unfold MicOff; proj_simpl; discriminate. Qed.

Lemma mic_listen_start (s : O) : micMuted s = false -> MicOff (listen_start s).
Proof.
  unfold MicOff, listen_start, setState; intros H; destruct (recorder s); proj_simpl;
    rewrite H; discriminate.
Qed.

Ltac mic_lemmas := fail.

Ltac mic_tac :=
  cbv beta zeta;
  repeat match goal with
  | H : MicOff ?s |- MicOff ?s => exact H
  | |- MicOff (drop_vad _) => apply mic_drop_vad
  | |- MicOff (set_micMuted false _) => apply mic_set_unmuted
  | |- MicOff (spawn _ _) => unfold spawn
  | |- MicOff (if ?b then _ else _) => destruct b eqn:?
  | |- MicOff (match ?x with _ => _ end) => destruct x eqn:?
  | |- MicOff _ => mic_lemmas
  | |- MicOff (?f ?s) => apply (mic_ext s); [proj_simpl; reflexivity .. | ]
  | |- MicOff (?f ?v ?s) => apply (mic_ext s); [proj_simpl; reflexivity .. | ]
  end.

Lemma mic_setState (v : WidgetState) (s : O) : MicOff s -> MicOff (setState v s).
Proof. intros H; unfold setState; mic_tac. Qed.

Lemma mic_setInFlight (v : bool) (s : O) : MicOff s -> MicOff (setInFlight v s).
Proof. intros H; unfold setInFlight; mic_tac. Qed.

Lemma mic_drop_recorder (s : O) : MicOff s -> MicOff (drop_recorder s).
Proof. intros H; unfold drop_recorder; mic_tac. Qed.

Ltac mic_lemmas ::= first [ apply mic_setState | apply mic_setInFlight | apply mic_drop_recorder ].

Lemma mic_stopVoicePipeline (a b c : bool) (s : O) : MicOff (stopVoicePipeline a b c s).
Proof. unfold stopVoicePipeline; mic_tac. Qed.

Lemma mic_stopAll (m : option string) (s : O) : MicOff (stopAll m s).
Proof. unfold stopAll; mic_tac. Qed.

Lemma mic_ensureVoiceListening (s : O) : MicOff s -> MicOff (ensureVoiceListening s).
Proof.
  intros H; unfold ensureVoiceListening.
  destruct (listen_gates s) eqn:G; [|exact H].
  assert (M : micMuted s = false).
  { unfold listen_gates in G. destruct (micMuted s); [|reflexivity].
    rewrite andb_false_r in G; cbn in G; discriminate G. }
  destruct (stream s); [apply mic_listen_start, M|]. mic_tac.
Qed.

Lemma mic_stopBargeInMonitor (s : O) : MicOff s -> MicOff (stopBargeInMonitor s).
Proof. intros H; unfold stopBargeInMonitor; mic_tac. Qed.

Ltac mic_lemmas ::=
  first [ apply mic_setState | apply mic_setInFlight | apply mic_drop_recorder | apply mic_stopVoicePipeline
        | apply mic_stopAll | apply mic_ensureVoiceListening | apply mic_stopBargeInMonitor ].

Lemma mic_startBargeInMonitor (g : bool) (s : O) : MicOff s -> MicOff (startBargeInMonitor g s).
Proof. intros H; unfold startBargeInMonitor; mic_tac. Qed.

Lemma mic_playback_finally (s : O) : MicOff s -> MicOff (playback_finally s).
Proof. intros H; unfold playback_finally; mic_tac. Qed.

Lemma mic_voice_after_speak (s : O) : MicOff s -> MicOff (voice_after_speak s).
Proof. intros H; unfold voice_after_speak; mic_tac. Qed.

Lemma mic_text_finally (s : O) : MicOff s -> MicOff (text_finally s).
Proof. intros H; unfold text_finally; mic_tac. Qed.

Lemma mic_greet_after_speak (r : bool) (s : O) : MicOff s -> MicOff (greet_after_speak r s).
Proof. intros H; unfold greet_after_speak; mic_tac. Qed.

Lemma mic_after_speak (k : Kind) (r : bool) (s : O) : MicOff s -> MicOff (after_speak k r s).
Proof.
  intros H; destruct k;
    [apply mic_voice_after_speak | apply mic_text_finally | apply mic_greet_after_speak]; exact H.
Qed.

Ltac mic_lemmas ::=
  first [ apply mic_setState | apply mic_setInFlight | apply mic_drop_recorder | apply mic_stopVoicePipeline
        | apply mic_stopAll | apply mic_ensureVoiceListening | apply mic_stopBargeInMonitor
        | apply mic_startBargeInMonitor | apply mic_playback_finally | apply mic_after_speak
        | apply mic_voice_after_speak | apply mic_text_finally ].

Lemma mic_speak_begin (k : Kind) (s : O) : MicOff s -> MicOff (speak_begin k s).
Proof. intros H; unfold speak_begin; mic_tac. Qed.

Lemma mic_bargeIn (s : O) : MicOff s -> MicOff (bargeIn s).
Proof.
  intros H; unfold bargeIn; cbv zeta.
  set (s1 := ensureVoiceListening (setState Idle (stopBargeInMonitor
               (set_pendingListenAfterSpeak false s)))).
  assert (H1 : MicOff s1).
  { apply mic_ensureVoiceListening, mic_setState, mic_stopBargeInMonitor.
    apply (mic_ext s); [proj_simpl; reflexivity .. | exact H]. }
  clearbody s1.
  destruct (currentAudioStop _); [|exact H1].
  destruct (take _ (procs s1)) as [[p rest]|]; [|exact H1].
  destruct p; try exact H1.
  apply mic_after_speak, mic_playback_finally.
  apply (mic_ext s1); [proj_simpl; reflexivity .. | exact H1].
Qed.

Ltac mic_lemmas ::=
  first [ apply mic_setState | apply mic_setInFlight | apply mic_drop_recorder | apply mic_stopVoicePipeline
        | apply mic_stopAll | apply mic_ensureVoiceListening | apply mic_stopBargeInMonitor
        | apply mic_startBargeInMonitor | apply mic_playback_finally | apply mic_after_speak
        | apply mic_voice_after_speak | apply mic_text_finally | apply mic_speak_begin | apply mic_bargeIn ].

Lemma mic_greet_body (s : O) : MicOff s -> MicOff (greet_body s).
Proof. intros H; unfold greet_body; mic_tac. Qed.

Lemma mic_maybeBootGreet (s : O) : MicOff s -> MicOff (maybeBootGreet s).
Proof. intros H; unfold maybeBootGreet; mic_tac; apply mic_greet_body; mic_tac. Qed.

Ltac mic_lemmas ::=
  first [ apply mic_setState | apply mic_setInFlight | apply mic_drop_recorder | apply mic_stopVoicePipeline
        | apply mic_stopAll | apply mic_ensureVoiceListening | apply mic_stopBargeInMonitor
        | apply mic_startBargeInMonitor | apply mic_playback_finally | apply mic_after_speak
        | apply mic_voice_after_speak | apply mic_text_finally | apply mic_speak_begin | apply mic_bargeIn
        | apply mic_greet_body | apply mic_maybeBootGreet ].



Lemma take_some (f : Proc -> bool) (l : list Proc) (p : Proc) :
  In p l -> f p = true -> exists q r, take f l = Some (q, r).
Proof.
  induction l as [|x l IH]; cbn; intros I F; [destruct I|].
  destruct (f x) eqn:E; [eexists _, _; reflexivity|].
  destruct I as [<-|I]; [congruence|].
  destruct (IH I F) as (q & r & ->). eexists _, _; reflexivity.
Qed.


(** X5. A [getUserMedia] request still pending when the mic is muted starts
    listening when it resolves: [ensureVoiceListening] does not recheck
    [micMuted] after the await, so a VAD runs on the mic stream while the
    mic shows as muted. *)
Theorem late_mic_listens_while_muted (s : O) :
  micMuted s = true -> In PMic (procs s) ->
  micMuted (step s (EMic true)) = true /\ vad (step s (EMic true)) = true /\
  stream (step s (EMic true)) = true /\ state (step s (EMic true)) = Listening.
Proof.
  intros M I; cbn [step]; unfold onMic.
  destruct (take_some isPMic (procs s) PMic I eq_refl) as (q & r & ->).
  unfold listen_start, setState; cbv zeta.
  destruct (recorder _); proj_simpl; auto.
Qed.

(** X6. Calling [ensureVoiceListening] twice when its gates pass: with a mic
    stream the second call does nothing (the first one is listening);
    without one, both calls await their own [getUserMedia]. *)
Theorem ensureVoiceListening_twice (s : O) :
  listen_gates s = true ->
  ensureVoiceListening (ensureVoiceListening s) =
  if stream s then ensureVoiceListening s else spawn PMic (spawn PMic s).
Proof.
  intros G.
  assert (E1 : ensureVoiceListening s = if stream s then listen_start s else spawn PMic s)
    by (unfold ensureVoiceListening; rewrite G; reflexivity).
  rewrite E1. destruct (stream s) eqn:S.
  - assert (L : listen_gates (listen_start s) = false).
    { unfold listen_gates, listen_start, setState; destruct (recorder s); proj_simpl;
        rewrite !andb_false_r; reflexivity. }
    unfold ensureVoiceListening; rewrite L; reflexivity.
  - assert (E : listen_gates (spawn PMic s) = listen_gates s) by reflexivity.
    unfold ensureVoiceListening at 1; rewrite E, G; unfold spawn at 1; proj_simpl; rewrite S; reflexivity.
Qed.


Lemma late_mic_listens_while_muted_witness :
  micMuted (run OrchClaims.idle_race0 [EToggleMic false; EToggleMic true]) = true /\
  In PMic (procs (run OrchClaims.idle_race0 [EToggleMic false; EToggleMic true])) /\
  vad (step (run OrchClaims.idle_race0 [EToggleMic false; EToggleMic true]) (EMic true)) = true.
Proof.
  split; [vm_compute; reflexivity|]. split; [vm_compute; left; reflexivity|].
  apply (late_mic_listens_while_muted (run OrchClaims.idle_race0 [EToggleMic false; EToggleMic true]));
    [vm_compute; reflexivity | vm_compute; left; reflexivity].
Defined.

Lemma ensureVoiceListening_twice_witness :
  listen_gates OrchClaims.idle_race0 = true /\
  ensureVoiceListening (ensureVoiceListening OrchClaims.idle_race0) =
  spawn PMic (spawn PMic OrchClaims.idle_race0).
Proof.
  split; [vm_compute; reflexivity|].
  rewrite (ensureVoiceListening_twice OrchClaims.idle_race0) by (vm_compute; reflexivity).
  reflexivity.
Defined.

End OrchMic.


Module VadMore.
Import Vad VadFacts.

(** [controller.stop()] (part_002, lines 166-179, with [cleanupGraph],
    lines 76-96): [running := false], the scheduled frame is cancelled, a
    recording in progress gets [void recorder.stop()] (its result is
    awaited by nobody, so no [endSpeech] continuation is added), and the
    graph is torn down with [inSpeech := false].  Stopping the stream's
    tracks is outside the VAD's state.  The [endSpeech] calls already
    suspended at [await recorder.stop()] stay pending. *)
Definition vad_stop (c : Cfg) : Cfg :=
  mkCfg {| running := false; analyser := false; rafPending := false; inSpeech := false;
           speechStartAt := speechStartAt (st c); lastVoiceAt := lastVoiceAt (st c) |}
        (fst (recorder_stop_sync (rec c))) (pending c).

(** X7. One silence-ended segment is reported twice when a second frame
    arrives before the recorder's stop resolves: [inSpeech] stays set
    until then, so the next quiet frame calls [endSpeech] again; its
    [recorder.stop()] returns the empty payload at once, and [onSpeechEnd]
    fires with [sizeBytes] 0 before the real blob's [onSpeechEnd]. *)
Theorem vad_double_speech_end (c : Cfg) (t t' : Z) (rms rms' : Q) (ok ok' : bool) (size : Z) :
  running (st c) = true -> analyser (st c) = true -> rafPending (st c) = true ->
  inSpeech (st c) = true -> recording (rec c) = true ->
  lastVoiceAt (st c) >= speechStartAt (st c) ->
  isVoiceQ rms = false -> isVoiceQ rms' = false ->
  t - lastVoiceAt (st c) >= silenceMs VAD_CONFIG -> t <= t' ->
  t' - speechStartAt (st c) < maxSpeechMs VAD_CONFIG ->
  snd (run c [ITick t rms ok; ITick t' rms' ok';
              IStopDone (S (List.length (pending c))) 0; IStopDone (List.length (pending c)) size]) =
  [EvDebug rms; EvDebug rms'; EvSpeechEnd (t' - speechStartAt (st c)) 0;
   EvSpeechEnd (t - speechStartAt (st c)) size].
Proof.
  intros Hru Han Hraf Hin Hrc Hord Hq Hq' Hs Htt Hm.
  set (ssa := speechStartAt (st c)) in *. set (lva := lastVoiceAt (st c)) in *.
  set (len := List.length (pending c)).
  assert (E1 : (t - ssa >=? maxSpeechMs VAD_CONFIG) = false)
    by (cbn in *; rewrite Z.geb_leb; apply Z.leb_gt; lia).
  assert (E2 : (t' - ssa >=? maxSpeechMs VAD_CONFIG) = false)
    by (cbn in *; rewrite Z.geb_leb; apply Z.leb_gt; lia).
  assert (E3 : (t - lva >=? silenceMs VAD_CONFIG) = true)
    by (cbn in *; rewrite Z.geb_leb; apply Z.leb_le; lia).
  assert (E4 : (t' - lva >=? silenceMs VAD_CONFIG) = true)
    by (cbn in *; rewrite Z.geb_leb; apply Z.leb_le; lia).
  cbn [run].
  destruct (step c (ITick t rms ok)) as [c1 ev1] eqn:S1.
  destruct (tick_inSpeech_shape _ _ _ _ _ _ Hru Han Hraf Hin S1)
    as (V1 & Ru1 & An1 & Ra1 & In1 & Ss1 & Lv1 & P1).
  cbv zeta in Lv1, P1. rewrite Hq in Lv1, P1. fold ssa lva in Lv1, P1.
  rewrite E1, E3 in P1. destruct P1 as [P1 Rc1]. rewrite Hrc in P1.
  destruct (step c1 (ITick t' rms' ok')) as [c2 ev2] eqn:S2.
  destruct (tick_inSpeech_shape _ _ _ _ _ _ Ru1 An1 Ra1 In1 S2)
    as (V2 & _ & _ & _ & _ & Ss2 & _ & P2).
  cbv zeta in P2. rewrite Hq', Ss1, Lv1 in P2. fold ssa in P2.
  rewrite E2, E4 in P2. destruct P2 as [P2 _]. rewrite Rc1, P1, <- app_assoc in P2.
  cbn [app] in P2.
  assert (R1 : remove_nth (S len) (pending c2) =
     Some (mkEnd RSilence (Z.max 0 (t' - ssa)) false,
           pending c ++ [mkEnd RSilence (Z.max 0 (t - ssa)) true])).
  { rewrite P2.
    replace (S len) with (List.length (pending c ++ [mkEnd RSilence (Z.max 0 (t - ssa)) true]))
      by (rewrite length_app; cbn; unfold len; lia).
    rewrite <- remove_nth_app_last, <- app_assoc; reflexivity. }
  destruct (step c2 (IStopDone (S len) 0)) as [c3 ev3] eqn:S3.
  destruct (stopdone_shape _ _ _ _ _ _ _ R1 S3) as (_ & _ & _ & _ & _ & _ & P3 & _ & D3).
  cbn [e_durationMs e_real] in D3.
  rewrite D3 by (cbn in *; lia).
  assert (R2 : remove_nth len (pending c3) =
     Some (mkEnd RSilence (Z.max 0 (t - ssa)) true, pending c))
    by (rewrite P3; apply remove_nth_app_last).
  destruct (step c3 (IStopDone len size)) as [c4 ev4] eqn:S4.
  destruct (stopdone_shape _ _ _ _ _ _ _ R2 S4) as (_ & _ & _ & _ & _ & _ & _ & _ & D4).
  cbn [e_durationMs e_real] in D4.
  rewrite D4 by (cbn in *; lia). rewrite V1, V2. cbn [snd app].
  cbn [silenceMs maxSpeechMs VAD_CONFIG] in Hs, Hm.
  replace (Z.max 0 (t' - ssa)) with (t' - ssa) by lia.
  replace (Z.max 0 (t - ssa)) with (t - ssa) by lia.
  reflexivity.
Qed.


Lemma remove_nth_length {A} (n : nat) (l : list A) (x : A) (r : list A) :
  remove_nth n l = Some (x, r) -> List.length l = S (List.length r).
Proof.
  revert n r; induction l as [|y l IH]; intros n r; destruct n as [|n]; cbn; try discriminate.
  - intros H; injection H as <- <-; reflexivity.
  - destruct (remove_nth n l) as [[y' r']|] eqn:E; [|discriminate].
    intros H; injection H as <- <-; cbn; rewrite (IH n r' E); reflexivity.
Qed.

Definition isSpeechEnd (e : VadEvent) : bool :=
  match e with EvSpeechEnd _ _ => true | _ => false end.

Lemma stopped_run (c : Cfg) (is : list Input) :
  running (st c) = false -> rafPending (st c) = false ->
  running (st (fst (run c is))) = false /\ rafPending (st (fst (run c is))) = false /\
  forallb isSpeechEnd (snd (run c is)) = true /\
  (List.length (snd (run c is)) + List.length (pending (fst (run c is))) <= List.length (pending c))%nat.
Proof.
  revert c; induction is as [|i is IH]; intros c Hr Hf; cbn [run].
  - cbn; repeat split; auto.
  - destruct (step c i) as [c1 ev1] eqn:S1.
    assert (K : running (st c1) = false /\ rafPending (st c1) = false /\
                forallb isSpeechEnd ev1 = true /\
                (List.length ev1 + List.length (pending c1) <= List.length (pending c))%nat).
    { destruct i as [t rms ok | n size]; cbn in S1.
      - rewrite Hf in S1; injection S1 as <- <-; cbn; repeat split; auto.
      - destruct (remove_nth n (pending c)) as [[e rest]|] eqn:R.
        + pose proof (remove_nth_length _ _ _ _ R) as L.
          unfold endSpeech_resume in S1.
          destruct (e_durationMs e <? minSpeechMs VAD_CONFIG);
            injection S1 as <- <-; cbn; rewrite Hr, Hf; repeat split; lia.
        + injection S1 as <- <-; cbn; repeat split; auto. }
    destruct K as (K1 & K2 & K3 & K4).
    destruct (run c1 is) as [c2 ev2] eqn:S2.
    destruct (IH c1 K1 K2) as (A & B & C & D). rewrite S2 in A, B, C, D; cbn in *.
    repeat split; auto.
    + rewrite forallb_app, K3, C; reflexivity.
    + rewrite length_app; lia.
Qed.

(** X8. After [controller.stop()] the VAD never samples again and never
    reports a speech start, a level or an error; the only callbacks left
    are the [onSpeechEnd] of [endSpeech] calls that were already awaiting
    the recorder, at most one per such call. *)
Theorem vad_stop_quiesces (c : Cfg) (is : list Input) :
  running (st (fst (run (vad_stop c) is))) = false /\
  rafPending (st (fst (run (vad_stop c) is))) = false /\
  forallb isSpeechEnd (snd (run (vad_stop c) is)) = true /\
  (List.length (snd (run (vad_stop c) is)) <= List.length (pending c))%nat.
Proof.
  destruct (stopped_run (vad_stop c) is eq_refl eq_refl) as (A & B & C & D).
  repeat split; auto. cbn [vad_stop pending] in D. lia.
Qed.

Lemma vad_double_speech_end_witness :
  recording (rec VadClaims.c9_before) = true /\
  lastVoiceAt (st VadClaims.c9_before) >= speechStartAt (st VadClaims.c9_before) /\
  snd (run VadClaims.c9_before
         [ITick 1100 0 true; ITick 1116 0 true;
          IStopDone (S (List.length (pending VadClaims.c9_before))) 0;
          IStopDone (List.length (pending VadClaims.c9_before)) 4000]) =
  [EvDebug 0; EvDebug 0;
   EvSpeechEnd (1116 - speechStartAt (st VadClaims.c9_before)) 0;
   EvSpeechEnd (1100 - speechStartAt (st VadClaims.c9_before)) 4000].
Proof.
  split; [vm_compute; reflexivity|]. split; [vm_compute; discriminate|].
  apply (vad_double_speech_end VadClaims.c9_before 1100 1116 0 0 true true 4000);
    vm_compute; first [reflexivity | discriminate].
Defined.

End VadMore.


Module TtsCacheBound.
Import TtsCache TtsCacheFacts.
Local Open Scope string_scope.
Local Open Scope nat_scope.

Definition keys (m : list (string * Blob)) : list string := map fst m.

(** The cache holds each key once, every non-empty cached key is queued in
    [ttsCacheOrder], and the queue holds at most 20 keys. *)
Definition CacheInv (s : St) : Prop :=
  NoDup (keys (ttsCache s)) /\
  (forall k, In k (keys (ttsCache s)) -> k <> "" -> In k (ttsCacheOrder s)) /\
  List.length (ttsCacheOrder s) <= 20.

Lemma keys_set_in k j v m : In k (keys (map_set j v m)) -> k = j \/ In k (keys m).
Proof.
  induction m as [|[k' v'] r IH]; cbn; [intros [<-|[]]; left; reflexivity|].
  destruct (String.eqb j k') eqn:E; cbn.
  - apply String.eqb_eq in E; subst; intros [<-|H]; auto.
  - intros [<-|H]; auto. destruct (IH H); auto.
Qed.

Lemma keys_set_nodup j v m : NoDup (keys m) -> NoDup (keys (map_set j v m)).
Proof.
  induction m as [|[k' v'] r IH]; cbn; intros H; [constructor; [intros []|constructor]|].
  inversion H as [|x l Hn Hd]; subst.
  destruct (String.eqb j k') eqn:E; cbn.
  - apply String.eqb_eq in E; subst; constructor; assumption.
  - constructor; [|apply IH; assumption].
    intros Hin; destruct (keys_set_in _ _ _ _ Hin) as [->|Hin']; [|contradiction].
    rewrite String.eqb_refl in E; discriminate.
Qed.

Lemma keys_delete_in k j m : NoDup (keys m) -> In k (keys (map_delete j m)) -> In k (keys m) /\ k <> j.
Proof.
  induction m as [|[k' v'] r IH]; cbn; [intros _ []|].
  intros H; inversion H as [|x l Hn Hd]; subst.
  destruct (String.eqb j k') eqn:E; cbn.
  - apply String.eqb_eq in E; subst. intros Hin; split; [right; exact Hin|].
    intros ->; contradiction.
  - intros [<-|Hin].
    + split; [left; reflexivity|]. intros ->; rewrite String.eqb_refl in E; discriminate.
    + destruct (IH Hd Hin); auto.
Qed.

Lemma keys_delete_nodup j m : NoDup (keys m) -> NoDup (keys (map_delete j m)).
Proof.
  induction m as [|[k' v'] r IH]; cbn; intros H; [constructor|].
  inversion H as [|x l Hn Hd]; subst.
  destruct (String.eqb j k'); cbn; [exact Hd|].
  constructor; [|apply IH, Hd].
  intros Hin; apply Hn, (keys_delete_in _ _ _ Hd Hin).
Qed.

Lemma cap_inv f cache order :
  NoDup (keys cache) -> (forall k, In k (keys cache) -> k <> "" -> In k order) ->
  NoDup (keys (fst (cap f cache order))) /\
  (forall k, In k (keys (fst (cap f cache order))) -> k <> "" -> In k (snd (cap f cache order))) /\
  (List.length order <= f -> List.length (snd (cap f cache order)) <= 20).
Proof.
  revert cache order; induction f as [|f IH]; intros cache order Hn Hk; cbn [cap fst snd].
  - split; [exact Hn|]. split; [exact Hk|]. lia.
  - destruct (Nat.ltb 20 (List.length order)) eqn:L.
    + apply Nat.ltb_lt in L. destruct order as [|k rest]; [cbn in L; lia|]. cbv iota.
      assert (Hn1 : NoDup (keys (if String.eqb k "" then cache else map_delete k cache))).
      { destruct (String.eqb k ""); [exact Hn | apply keys_delete_nodup, Hn]. }
      assert (Hk1 : forall k', In k' (keys (if String.eqb k "" then cache else map_delete k cache)) ->
                               k' <> "" -> In k' rest).
      { intros k' Hin Hne. destruct (String.eqb k "") eqn:E.
        - apply String.eqb_eq in E; subst k.
          destruct (Hk k' Hin Hne) as [<-|H]; [contradiction | exact H].
        - destruct (keys_delete_in _ _ _ Hn Hin) as [Hin' Hne'].
          destruct (Hk k' Hin' Hne) as [<-|H]; [contradiction | exact H]. }
      destruct (IH _ _ Hn1 Hk1) as (A & B & C).
      split; [exact A|]. split; [exact B|]. intros Hl; apply C; cbn in Hl; lia.
    + apply Nat.ltb_ge in L. cbn. split; [exact Hn|]. split; [exact Hk|]. intros _; exact L.
Qed.

Lemma store_inv s c key b : CacheInv s -> CacheInv (store s c key b).
Proof.
  intros (Hn & Hk & Hl). unfold store.
  destruct (cap_inv (List.length (ttsCacheOrder s ++ [key])) (map_set key b (ttsCache s))
              (ttsCacheOrder s ++ [key])) as (A & B & C).
  - apply keys_set_nodup, Hn.
  - intros k Hin Hne. apply in_or_app. destruct (keys_set_in _ _ _ _ Hin) as [->|H].
    + right; left; reflexivity.
    + left; apply Hk; assumption.
  - destruct (cap _ _ _) as [cache' order']; cbn in *.
    split; [exact A|]. split; [exact B|]. apply C; lia.
Qed.

Lemma fold_store_inv ws s key b :
  CacheInv s -> CacheInv (fold_left (fun acc c => store acc c key b) ws s).
Proof.
  revert s; induction ws as [|w ws IH]; intros s H; cbn; [exact H|].
  apply IH, store_inv, H.
Qed.

Lemma step_cache_inv s e : CacheInv s -> CacheInv (step s e).
Proof.
  intros H. destruct e as [c text | key o]; cbn.
  - unfold request. destruct (map_get _ _); [exact H|].
    destruct (inflight_get _ _); exact H.
  - unfold settle. destruct (inflight_get key (ttsInflight s)) as [p|]; [|exact H].
    destruct o as [b | r].
    + apply fold_store_inv. exact H.
    + destruct (r && negb (p_retried p)); exact H.
Qed.

Lemma run_cache_inv evs s : CacheInv s -> CacheInv (run s evs).
Proof.
  unfold run; revert s; induction evs as [|e evs IH]; intros s H; cbn; [exact H|].
  apply IH, step_cache_inv, H.
Qed.

Lemma filter_empty_nil (l : list string) :
  ~ In "" l -> filter (fun k => String.eqb k "") l = [].
Proof.
  induction l as [|x l IH]; cbn; intros H; [reflexivity|].
  destruct (String.eqb x "") eqn:E.
  - apply String.eqb_eq in E; subst x; exfalso; apply H; left; reflexivity.
  - apply IH; intros Hin; apply H; right; exact Hin.
Qed.

Lemma nodup_filter_empty (l : list string) :
  NoDup l -> List.length (filter (fun k => String.eqb k "") l) <= 1.
Proof.
  induction l as [|k l IH]; cbn; intros H; [lia|].
  inversion H as [|x r Hn Hd]; subst.
  destruct (String.eqb k "") eqn:E; cbn; [|apply IH, Hd].
  apply String.eqb_eq in E; subst k.
  rewrite (filter_empty_nil l Hn); cbn; lia.
Qed.

(** X9. From the empty cache, whatever the requests and settlements:
    [ttsCacheOrder] holds at most 20 keys, at most 20 non-empty keys are
    cached, and the cache never holds more than 21 entries (the 21st being
    the key "" that the eviction loop never deletes). *)
Theorem tts_cache_size_bound (evs : list Event) :
  List.length (ttsCacheOrder (run init evs)) <= 20 /\
  List.length (filter (fun k => negb (String.eqb k "")) (keys (ttsCache (run init evs)))) <= 20 /\
  List.length (ttsCache (run init evs)) <= 21.
Proof.
  destruct (run_cache_inv evs init) as (Hn & Hk & Hl).
  { split; [constructor|]. split; [intros _ []|]. cbn; lia. }
  set (ks := keys (ttsCache (run init evs))) in *.
  assert (Hne : List.length (filter (fun k => negb (String.eqb k "")) ks) <= 20).
  { transitivity (List.length (ttsCacheOrder (run init evs))); [|exact Hl].
    apply NoDup_incl_length.
    - apply NoDup_filter, Hn.
    - intros k Hin; apply filter_In in Hin as [Hin E].
      apply Hk; [exact Hin|]. intros ->; discriminate E. }
  split; [exact Hl|]. split; [exact Hne|].
  assert (Hlen : List.length (ttsCache (run init evs)) = List.length ks)
    by (unfold ks, keys; rewrite length_map; reflexivity).
  rewrite Hlen.
  assert (Hsplit : forall l : list string, List.length l =
            List.length (filter (fun k => negb (String.eqb k "")) l) +
            List.length (filter (fun k => String.eqb k "") l)).
  { induction l as [|x l IH]; cbn; [reflexivity|].
    destruct (String.eqb x ""); cbn; lia. }
  rewrite Hsplit. pose proof (nodup_filter_empty ks Hn). lia.
Qed.

End TtsCacheBound.


(** * Retry decision for server TTS errors

    [shouldRetryTts] (src/widget-src/index.ts, lines 183-186):
<<
  function shouldRetryTts(err: unknown): boolean {
    const m = safeErr(err);
    return /HTTP\s+(429|500|502|503)\b/.test(m) || /rate_limited|timeout/i.test(m);
  }
>>
    and the error [api.ttsAudio] throws on a non-ok response
    (src/unnamed/part_001, line 119):
    [throw new Error(`HTTP ${res.status} /api/tts ${t}`)], whose [safeErr]
    is its message. Strings are ASCII byte strings; [\s] is the ASCII
    whitespace [TtsCache.is_ws], [\b] after a digit holds when the next
    character is not a word character [A-Za-z0-9_] or the string ends. *)
Module RetryTts.
Import TtsCache.
Local Open Scope string_scope.
Local Open Scope nat_scope.

(** [s] starts with [p]: the rest of [s]. *)
Fixpoint strip_prefix (p s : string) : option string :=
  match p, s with
  | EmptyString, _ => Some s
  | String a p', String b s' => if Ascii.eqb a b then strip_prefix p' s' else None
  | String _ _, EmptyString => None
  end.

Definition is_digit (c : Ascii.ascii) : bool :=
  (48 <=? Ascii.nat_of_ascii c) && (Ascii.nat_of_ascii c <=? 57).

Definition is_word (c : Ascii.ascii) : bool :=
  let n := Ascii.nat_of_ascii c in
  is_digit c || ((65 <=? n) && (n <=? 90)) || ((97 <=? n) && (n <=? 122))
  || (n =? 95).

(** [\b] right after a word character. *)
Definition boundary_after_word (s : string) : bool :=
  match s with
  | EmptyString => true
  | String c _ => negb (is_word c)
  end.

(** [(429|500|502|503)\b] at the start of [s]. *)
Definition code_b (s : string) : bool :=
  existsb (fun alt => match strip_prefix alt s with
                      | Some r => boundary_after_word r
                      | None => false
                      end) ["429"; "500"; "502"; "503"].

(** [\s+] followed by [k], with every split of the whitespace run tried, as
    the backtracking matcher does. *)
Fixpoint ws_plus_then (k : string -> bool) (s : string) : bool :=
  match s with
  | EmptyString => false
  | String c r => is_ws c && (k r || ws_plus_then k r)
  end.

(** [/HTTP\s+(429|500|502|503)\b/] anchored at the start of [s]. *)
Definition re_http_at (s : string) : bool :=
  match strip_prefix "HTTP" s with
  | Some r => ws_plus_then code_b r
  | None => false
  end.

(** Canonical case of the [i] flag (non-unicode): ASCII letters upper-cased. *)
Definition canon (c : Ascii.ascii) : Ascii.ascii :=
  let n := Ascii.nat_of_ascii c in
  if (97 <=? n) && (n <=? 122) then Ascii.ascii_of_nat (n - 32) else c.

Fixpoint istrip_prefix (p s : string) : bool :=
  match p, s with
  | EmptyString, _ => true
  | String a p', String b s' =>
      Ascii.eqb (canon a) (canon b) && istrip_prefix p' s'
  | String _ _, EmptyString => false
  end.

(** [/rate_limited|timeout/i] anchored at the start of [s]. *)
Definition re_rate_at (s : string) : bool :=
  istrip_prefix "rate_limited" s || istrip_prefix "timeout" s.

(** [RegExp.prototype.test] without the [g] flag: a match at some start
    position [0 .. length s]. *)
Fixpoint re_test (at_ : string -> bool) (s : string) : bool :=
  at_ s || match s with
           | EmptyString => false
           | String _ r => re_test at_ r
           end.

Definition shouldRetryTts (m : string) : bool :=
  re_test re_http_at m || re_test re_rate_at m.

(** [`${n}`] for a natural number: its decimal digits. *)
Definition digit (d : nat) : Ascii.ascii := Ascii.ascii_of_nat (48 + d).

Fixpoint dec_aux (fuel n : nat) (acc : string) : string :=
  match fuel with
  | O => acc
  | S f =>
      let acc' := String (digit (n mod 10)) acc in
      if n <? 10 then acc' else dec_aux f (n / 10) acc'
  end.

Definition dec (n : nat) : string := dec_aux (S n) n "".

(** The message of the error [api.ttsAudio] throws on HTTP status
    [status] with response body [t]. *)
Definition tts_error (status : nat) (t : string) : string :=
  "HTTP " ++ dec status ++ " /api/tts " ++ t.

Definition retry_status (status : nat) : bool :=
  (status =? 429) || (status =? 500) || (status =? 502) || (status =? 503).

(** Shape of a three-digit decimal. *)
Definition digits3 (s : string) : bool :=
  match s with
  | String a (String b (String c EmptyString)) =>
      is_digit a && is_digit b && is_digit c
  | _ => false
  end.

Lemma dec_range_ok :
  forallb (fun n => digits3 (dec n)
                    && Bool.eqb (code_b (dec n ++ " /api/tts ")) (retry_status n))
          (seq 100 900) = true.
Proof. vm_compute. reflexivity. Qed.

Lemma strip_prefix_app (p s t r : string) :
  strip_prefix p s = Some r -> strip_prefix p (s ++ t) = Some (r ++ t).
Proof.
  revert s; induction p as [|a p IH]; intros s H; cbn in *.
  - congruence.
  - destruct s as [|b s]; [discriminate|]. cbn.
    destruct (Ascii.eqb a b); [apply IH; exact H | discriminate].
Qed.

Lemma strip_prefix_app_none (p s t : string) :
  length p <= length s -> strip_prefix p s = None -> strip_prefix p (s ++ t) = None.
Proof.
  revert s; induction p as [|a p IH]; intros s Hl H; cbn in *.
  - discriminate.
  - destruct s as [|b s]; cbn in Hl; [lia|]. cbn.
    destruct (Ascii.eqb a b); [apply IH; [lia | exact H] | reflexivity].
Qed.

(** [code_b] reads at most four characters. *)
Lemma code_b_4 (a b c d : Ascii.ascii) (x y : string) :
  code_b (String a (String b (String c (String d x))))
  = code_b (String a (String b (String c (String d y)))).
Proof.
  unfold code_b. cbn [existsb strip_prefix boundary_after_word].
  repeat (destruct (Ascii.eqb _ _)); reflexivity.
Qed.

Lemma digit_not_letter (d : Ascii.ascii) (x : Ascii.ascii) :
  is_digit d = true -> is_digit x = false -> Ascii.eqb x d = false.
Proof.
  intros Hd Hx. destruct (Ascii.eqb_spec x d); [subst; congruence | reflexivity].
Qed.

Lemma canon_digit (d : Ascii.ascii) : is_digit d = true -> canon d = d.
Proof.
  unfold is_digit, canon. intros H.
  apply andb_prop in H as [H1 H2]. apply Nat.leb_le in H1, H2.
  destruct (97 <=? Ascii.nat_of_ascii d) eqn:E; [apply Nat.leb_le in E; lia|].
  reflexivity.
Qed.

Lemma re_http_digit (d : Ascii.ascii) (s : string) :
  is_digit d = true -> re_http_at (String d s) = false.
Proof.
  intros H. unfold re_http_at. cbn [strip_prefix].
  rewrite (digit_not_letter d _ H) by reflexivity. reflexivity.
Qed.

Lemma re_rate_digit (d : Ascii.ascii) (s : string) :
  is_digit d = true -> re_rate_at (String d s) = false.
Proof.
  intros H. unfold re_rate_at. cbn [istrip_prefix].
  rewrite (canon_digit d H).
  rewrite (digit_not_letter d _ H) by reflexivity.
  rewrite (digit_not_letter d _ H) by reflexivity.
  reflexivity.
Qed.

Lemma ws_digit (d : Ascii.ascii) : is_digit d = true -> is_ws d = false.
Proof.
  unfold is_digit, is_ws. intros H.
  apply andb_prop in H as [H1 H2]. apply Nat.leb_le in H1, H2.
  destruct (Ascii.nat_of_ascii d) as [|n] eqn:E; [lia|].
  do 34 (destruct n as [|n]; [first [reflexivity | lia]|]). reflexivity.
Qed.

Lemma re_test_cons (f : string -> bool) (c : Ascii.ascii) (s : string) :
  re_test f (String c s) = f (String c s) || re_test f s.
Proof. reflexivity. Qed.

(** ** Extra: which [/api/tts] failures are retried *)

(** X10. For the error [api.ttsAudio] throws on an HTTP status of three digits,
    [shouldRetryTts] answers true exactly when the status is 429, 500, 502
    or 503, or when the response body itself would be retried (it contains
    such an [HTTP] code, [rate_limited] or [timeout]). So a 4xx other than
    429 with a plain body is never retried, and 429/500/502/503 always
    are, whatever the body. *)
Theorem tts_error_retry (status : nat) (t : string) :
  100 <= status <= 999 ->
  shouldRetryTts (tts_error status t) = retry_status status || shouldRetryTts t.
Proof.
  intros Hr.
  assert (Hin : In status (seq 100 900)) by (apply in_seq; lia).
  pose proof dec_range_ok as Hok. rewrite forallb_forall in Hok.
  specialize (Hok status Hin). apply andb_prop in Hok as [H3 Hc].
  apply Bool.eqb_prop in Hc. rewrite <- Hc.
  unfold tts_error, shouldRetryTts.
  destruct (dec status) as [|a [|b [|c [|x y]]]] eqn:E; try discriminate.
  cbn in H3. apply andb_prop in H3 as [H3 Hc3]. apply andb_prop in H3 as [Ha Hb].
  cbn [append].
  rewrite !re_test_cons.
  rewrite (re_http_digit a), (re_http_digit b), (re_http_digit c) by assumption.
  rewrite (re_rate_digit a), (re_rate_digit b), (re_rate_digit c) by assumption.
  cbn [re_http_at strip_prefix ws_plus_then Ascii.eqb Bool.eqb].
  rewrite (ws_digit a Ha).
  cbn -[re_test code_b].
  rewrite (code_b_4 a b c _ _ "/api/tts ").
  remember (re_test re_http_at t) as X. remember (re_test re_rate_at t) as Y.
  remember (code_b (String a (String b (String c " /api/tts ")))) as Z.
  cbv.
  destruct X, Y, Z; reflexivity.
Qed.




Lemma tts_error_retry_witness :
  (100 <= 404 <= 999)%nat /\
  shouldRetryTts (tts_error 404 "Not Found") = false.
Proof.
  split; [lia|].
  rewrite (tts_error_retry 404 "Not Found") by lia.
  vm_compute. reflexivity.
Defined.

End RetryTts.


(** * Emoji stripping and the boot greeting

    [stripEmojis] (src/widget-src/index.ts, lines 210-216) on a runtime
    with Unicode property escapes (the [try] branch):
<<
  text.replace(/[\p{Extended_Pictographic}\uFE0F]/gu, "")
      .replace(/\s{2,}/g, " ").trim()
>>
    A string is its list of code points. [\s] and [trim] use the same set:
    the ECMAScript WhiteSpace and LineTerminator code points. The
    Extended_Pictographic property is the Unicode table [is_pict], taken as
    a parameter; no ASCII code point has it. *)
Module StripEmojis.

(** ECMAScript WhiteSpace (TAB, VT, FF, ZWNBSP and the Zs category) and
    LineTerminator (LF, CR, LS, PS). *)
Definition is_space (c : Z) : bool :=
  (c =? 9) || (c =? 10) || (c =? 11) || (c =? 12) || (c =? 13) || (c =? 32)
  || (c =? 160) || (c =? 5760) || ((8192 <=? c) && (c <=? 8202))
  || (c =? 8232) || (c =? 8233) || (c =? 8239) || (c =? 8287)
  || (c =? 12288) || (c =? 65279).

(** A whitespace run of [/\s{2,}/g] is replaced by one space; a single
    whitespace code point is kept. [run] is the run read so far. *)
Definition flush (run : list Z) : list Z :=
  match run with
  | [] => []
  | [c] => [c]
  | _ => [32]
  end.

Fixpoint collapse_aux (run s : list Z) : list Z :=
  match s with
  | [] => flush run
  | c :: r =>
      if is_space c then collapse_aux (run ++ [c]) r
      else flush run ++ c :: collapse_aux [] r
  end.

Definition collapse (s : list Z) : list Z := collapse_aux [] s.

Fixpoint trim_start (s : list Z) : list Z :=
  match s with
  | [] => []
  | c :: r => if is_space c then trim_start r else s
  end.

Definition trim (s : list Z) : list Z := rev (trim_start (rev (trim_start s))).

Section Strip.

Variable is_pict : Z -> bool.
Hypothesis pict_ascii : forall c, 0 <= c < 128 -> is_pict c = false.

Definition removed (c : Z) : bool := is_pict c || (c =? 65039).

Definition stripEmojis (text : list Z) : list Z :=
  trim (collapse (filter (fun c => negb (removed c)) text)).

(** [getBootGreeting] (index.ts, lines 218-228): [greet] is the greeting
    [api.greet] returned, [None] when the call threw or the greeting is
    falsy. *)
Definition fallback_greeting : list Z :=
  map (fun a => Z.of_nat (Ascii.nat_of_ascii a))
      (list_ascii_of_string "Hi, I'm Mirai Aizawa. Want to chat for a minute?").

Definition getBootGreeting (greet : option (list Z)) : list Z :=
  let t := match greet with
           | Some g => trim (stripEmojis g)
           | None => []
           end in
  match t with
  | _ :: _ => t
  | [] => stripEmojis fallback_greeting
  end.

End Strip.

(** No two adjacent whitespace code points. *)
Fixpoint no_double_space (s : list Z) : bool :=
  match s with
  | a :: ((b :: _) as r) => negb (is_space a && is_space b) && no_double_space r
  | _ => true
  end.


(** ** Lemmas *)

Lemma no_double_space_cons (a : Z) (s : list Z) :
  no_double_space (a :: s) = true ->
  no_double_space s = true.
Proof. destruct s; cbn; [reflexivity|]. intros H; apply andb_prop in H; tauto. Qed.

Lemma no_double_space_cons_nonspace (a : Z) (s : list Z) :
  is_space a = false -> no_double_space s = true -> no_double_space (a :: s) = true.
Proof.
  intros Ha Hs. destruct s as [|z s]; [reflexivity|].
  apply andb_true_intro; split; [rewrite Ha; reflexivity | exact Hs].
Qed.


Lemma collapse_aux_good (s run : list Z) :
  no_double_space (collapse_aux run s) = true.
Proof.
  revert run; induction s as [|c r IH]; intros run; cbn.
  - destruct run as [|a [|b q]]; reflexivity.
  - destruct (is_space c) eqn:Hc; [apply IH|].
    assert (H : no_double_space (c :: collapse_aux [] r) = true)
      by (apply no_double_space_cons_nonspace; [exact Hc | apply IH]).
    destruct run as [|a [|b q]]; cbn [flush app]; [exact H | |];
      apply andb_true_intro; (split; [rewrite Hc, andb_false_r; reflexivity | exact H]).
Qed.

Lemma collapse_aux_id (s run : list Z) :
  (run = [] \/ exists w, run = [w] /\ is_space w = true) ->
  no_double_space (run ++ s) = true ->
  collapse_aux run s = run ++ s.
Proof.
  revert run; induction s as [|c r IH]; intros run Hrun Hg; cbn.
  - destruct Hrun as [-> | [w [-> _]]]; reflexivity.
  - destruct (is_space c) eqn:Hc.
    + destruct Hrun as [-> | [w [-> Hw]]].
      * apply (IH [c]); [right; exists c; auto | exact Hg].
      * cbn in Hg. rewrite Hw, Hc in Hg. discriminate.
    + assert (Hr : no_double_space r = true).
      { destruct Hrun as [-> | [w [-> _]]]; cbn [app] in Hg;
          [ apply (no_double_space_cons c r Hg)
          | apply (no_double_space_cons c r (no_double_space_cons w _ Hg)) ]. }
      rewrite (IH [] (or_introl eq_refl) Hr).
      destruct Hrun as [-> | [w [-> _]]]; reflexivity.
Qed.

Lemma collapse_id (s : list Z) :
  no_double_space s = true -> collapse s = s.
Proof. intros H. apply (collapse_aux_id s []); [left; reflexivity | exact H]. Qed.

Lemma collapse_aux_chars (s run : list Z) (x : Z) :
  In x (collapse_aux run s) -> In x run \/ In x s \/ x = 32.
Proof.
  revert run; induction s as [|c r IH]; intros run Hx; cbn in Hx.
  - destruct run as [|a [|b q]]; cbn in Hx; [tauto | |].
    + destruct Hx as [<- | []]; left; left; reflexivity.
    + destruct Hx as [<- | []]; right; right; reflexivity.
  - destruct (is_space c).
    + destruct (IH _ Hx) as [H | [H | H]]; [| right; left; right; exact H | tauto].
      apply in_app_or in H as [H | [<- | []]]; [tauto | right; left; left; reflexivity].
    + apply in_app_or in Hx as [H | [<- | H]].
      * destruct run as [|a [|b q]]; cbn in H; [contradiction | |].
        -- destruct H as [<- | []]; left; left; reflexivity.
        -- destruct H as [<- | []]; right; right; reflexivity.
      * right; left; left; reflexivity.
      * destruct (IH [] H) as [[] | [H' | H']]; [right; left; right; exact H' | tauto].
Qed.

Lemma trim_start_suffix (s : list Z) : exists p, s = p ++ trim_start s.
Proof.
  induction s as [|c r [p IH]]; cbn; [exists []; reflexivity|].
  destruct (is_space c); [exists (c :: p); cbn; rewrite <- IH; reflexivity|].
  exists []; reflexivity.
Qed.

Lemma no_double_space_app_l (p s : list Z) :
  no_double_space (p ++ s) = true -> no_double_space s = true.
Proof.
  induction p as [|a p IH]; cbn [app]; [auto|].
  intros H; apply IH, (no_double_space_cons a _ H).
Qed.

Lemma no_double_space_app_r (m q : list Z) :
  no_double_space (m ++ q) = true -> no_double_space m = true.
Proof.
  induction m as [|a m IH]; [reflexivity|].
  destruct m as [|b m]; [reflexivity|].
  intros H. apply andb_prop in H as [H1 H2].
  apply andb_true_intro; split; [exact H1 | apply IH; exact H2].
Qed.

Lemma trim_infix (s : list Z) : exists p q, s = p ++ trim s ++ q.
Proof.
  destruct (trim_start_suffix s) as [p Hp].
  destruct (trim_start_suffix (rev (trim_start s))) as [p' Hp'].
  exists p, (rev p'). unfold trim.
  rewrite <- rev_app_distr, <- Hp', rev_involutive. exact Hp.
Qed.

Lemma trim_good (s : list Z) :
  no_double_space s = true -> no_double_space (trim s) = true.
Proof.
  intros H. destruct (trim_infix s) as [p [q E]]. rewrite E in H.
  apply no_double_space_app_l in H. apply no_double_space_app_r in H. exact H.
Qed.

Lemma trim_start_head (s : list Z) :
  match trim_start s with [] => True | a :: _ => is_space a = false end.
Proof.
  induction s as [|c r IH]; cbn; [exact I|].
  destruct (is_space c) eqn:Hc; [exact IH | exact Hc].
Qed.

Lemma trim_start_id (s : list Z) :
  match s with [] => True | a :: _ => is_space a = false end -> trim_start s = s.
Proof. destruct s as [|a r]; cbn; [reflexivity|]. intros H; rewrite H; reflexivity. Qed.

Lemma trim_start_idem (s : list Z) : trim_start (trim_start s) = trim_start s.
Proof. apply trim_start_id, trim_start_head. Qed.

Lemma trim_start_length (s : list Z) : (List.length (trim_start s) <= List.length s)%nat.
Proof. induction s as [|c r IH]; cbn; [lia|]. destruct (is_space c); cbn; lia. Qed.

Lemma trim_start_fixed_prefix (x y : list Z) :
  trim_start (x ++ y) = x ++ y -> trim_start x = x.
Proof.
  destruct x as [|a x]; cbn; [reflexivity|].
  destruct (is_space a); [|reflexivity].
  intros H. pose proof (trim_start_length (x ++ y)) as L.
  rewrite H in L. cbn in L. lia.
Qed.

Lemma trim_idem (s : list Z) : trim (trim s) = trim s.
Proof.
  unfold trim at 2 3.
  set (u := trim_start s).
  assert (Hu : trim_start u = u) by apply trim_start_idem.
  assert (Hpre : trim_start (rev (trim_start (rev u))) = rev (trim_start (rev u))).
  { destruct (trim_start_suffix (rev u)) as [p Hp].
    apply (trim_start_fixed_prefix _ (rev p)).
    rewrite <- rev_app_distr, <- Hp, rev_involutive. exact Hu. }
  unfold trim. rewrite Hpre, rev_involutive, trim_start_idem. reflexivity.
Qed.

Lemma trim_start_in (s : list Z) (x : Z) : In x (trim_start s) -> In x s.
Proof.
  destruct (trim_start_suffix s) as [p Hp]. intros H.
  rewrite Hp. apply in_or_app. right. exact H.
Qed.

Lemma trim_in (s : list Z) (x : Z) : In x (trim s) -> In x s.
Proof.
  unfold trim. intros H.
  apply in_rev in H. apply trim_start_in in H. apply in_rev in H.
  apply trim_start_in in H. exact H.
Qed.

Section StripFacts.

Variable is_pict : Z -> bool.
Hypothesis pict_ascii : forall c, 0 <= c < 128 -> is_pict c = false.

Lemma filter_kept_id (s : list Z) :
  forallb (fun c => negb (removed is_pict c)) s = true ->
  filter (fun c => negb (removed is_pict c)) s = s.
Proof.
  induction s as [|c r IH]; cbn; [reflexivity|].
  intros H. apply andb_prop in H as [H1 H2]. rewrite H1, IH by exact H2. reflexivity.
Qed.

Lemma strip_kept (s : list Z) :
  forallb (fun c => negb (removed is_pict c)) (stripEmojis is_pict s) = true.
Proof.
  apply forallb_forall. intros x Hx.
  unfold stripEmojis, collapse in Hx. apply trim_in, collapse_aux_chars in Hx.
  destruct Hx as [[] | [Hx | ->]].
  - apply filter_In in Hx. apply Hx.
  - unfold removed. rewrite pict_ascii by lia. reflexivity.
Qed.

Lemma strip_good (s : list Z) : no_double_space (stripEmojis is_pict s) = true.
Proof. apply trim_good, collapse_aux_good. Qed.

Lemma strip_trim (s : list Z) : trim (stripEmojis is_pict s) = stripEmojis is_pict s.
Proof. apply trim_idem. Qed.

Lemma strip_idem (s : list Z) :
  stripEmojis is_pict (stripEmojis is_pict s) = stripEmojis is_pict s.
Proof.
  unfold stripEmojis at 1.
  rewrite filter_kept_id by apply strip_kept.
  rewrite collapse_id by apply strip_good.
  apply strip_trim.
Qed.

Lemma filter_ascii_id (s : list Z) :
  forallb (fun c => (0 <=? c) && (c <? 128)) s = true ->
  filter (fun c => negb (removed is_pict c)) s = s.
Proof.
  intros H. apply filter_kept_id. rewrite forallb_forall in H |- *.
  intros x Hx. specialize (H x Hx). apply andb_prop in H as [H1 H2].
  apply Z.leb_le in H1. apply Z.ltb_lt in H2.
  unfold removed. rewrite pict_ascii by lia.
  cbn. destruct (x =? 65039) eqn:E; [apply Z.eqb_eq in E; lia | reflexivity].
Qed.

Lemma fallback_strip :
  stripEmojis is_pict fallback_greeting = fallback_greeting.
Proof.
  unfold stripEmojis. rewrite filter_ascii_id by reflexivity. reflexivity.
Qed.

End StripFacts.

(** ** Extra: [stripEmojis] yields its own normal form *)

(** X11. Whatever the input, the output of [stripEmojis] contains no
    pictographic code point and no U+FE0F, has no two adjacent whitespace
    code points, is unchanged by [trim], and is unchanged by a second
    [stripEmojis]. *)
Theorem stripEmojis_normal_form (is_pict : Z -> bool) (s : list Z) :
  (forall c, 0 <= c < 128 -> is_pict c = false) ->
  forallb (fun c => negb (removed is_pict c)) (stripEmojis is_pict s) = true /\
  no_double_space (stripEmojis is_pict s) = true /\
  trim (stripEmojis is_pict s) = stripEmojis is_pict s /\
  stripEmojis is_pict (stripEmojis is_pict s) = stripEmojis is_pict s.
Proof.
  intros Hp. split; [apply strip_kept; exact Hp|].
  split; [apply strip_good|]. split; [apply strip_trim|].
  apply strip_idem; exact Hp.
Qed.

(** ** Extra: the boot greeting is never empty *)

(** X12. [getBootGreeting] never returns an empty text: a failed call or a
    falsy greeting ([greet = None]), and a greeting that [stripEmojis]
    empties (emoji and white space only), both fall back to the built-in
    ASCII greeting, which [stripEmojis] leaves intact. Its result is also
    already in [stripEmojis]'s normal form. *)
Theorem getBootGreeting_nonempty (is_pict : Z -> bool) (greet : option (list Z)) :
  (forall c, 0 <= c < 128 -> is_pict c = false) ->
  getBootGreeting is_pict greet <> [] /\
  stripEmojis is_pict (getBootGreeting is_pict greet) = getBootGreeting is_pict greet /\
  (greet = None -> getBootGreeting is_pict greet = fallback_greeting) /\
  (forall g, greet = Some g -> stripEmojis is_pict g = [] ->
     getBootGreeting is_pict greet = fallback_greeting).
Proof.
  intros Hp. unfold getBootGreeting.
  destruct greet as [g|].
  - rewrite strip_trim.
    destruct (stripEmojis is_pict g) as [|a r] eqn:E.
    + rewrite (fallback_strip is_pict Hp). split; [discriminate|].
      split; [apply (fallback_strip is_pict Hp)|]. split; [discriminate | reflexivity].
    + split; [discriminate|]. split; [|split; [discriminate|]].
      * rewrite <- E. apply strip_idem; exact Hp.
      * intros g' Hg Hs. injection Hg as <-. rewrite E in Hs; discriminate Hs.
  - rewrite (fallback_strip is_pict Hp). split; [discriminate|].
    split; [apply (fallback_strip is_pict Hp)|]. split; [reflexivity | discriminate].
Qed.

(** A stand-in for the pictographic table: the emoji blocks U+1F300 to
    U+1FAFF and U+2600 to U+27BF. *)
Definition pict_blocks (c : Z) : bool :=
  ((127744 <=? c) && (c <=? 129791)) || ((9728 <=? c) && (c <=? 10175)).

Lemma pict_blocks_ascii (c : Z) : 0 <= c < 128 -> pict_blocks c = false.
Proof.
  intros H. unfold pict_blocks.
  destruct (127744 <=? c) eqn:E1; [apply Z.leb_le in E1; lia|].
  destruct (9728 <=? c) eqn:E2; [apply Z.leb_le in E2; lia|].
  reflexivity.
Defined.

(** [Hi], two spaces, U+1F600, [ there ], U+FE0F. *)
Definition emoji_sample : list Z := [72; 105; 32; 32; 128512; 32; 116; 104; 101; 114; 101; 32; 65039].

Lemma stripEmojis_normal_form_witness :
  (forall c, 0 <= c < 128 -> pict_blocks c = false) /\
  stripEmojis pict_blocks emoji_sample = [72; 105; 32; 116; 104; 101; 114; 101] /\
  stripEmojis pict_blocks (stripEmojis pict_blocks emoji_sample) = stripEmojis pict_blocks emoji_sample.
Proof.
  split; [exact pict_blocks_ascii|]. split; [vm_compute; reflexivity|].
  apply (stripEmojis_normal_form pict_blocks emoji_sample pict_blocks_ascii).
Defined.

Lemma getBootGreeting_nonempty_witness :
  (forall c, 0 <= c < 128 -> pict_blocks c = false) /\
  getBootGreeting pict_blocks (Some [128512; 32; 65039]) <> [] /\
  getBootGreeting pict_blocks (Some [128512; 32; 65039]) = fallback_greeting.
Proof.
  split; [exact pict_blocks_ascii|]. split.
  - apply (getBootGreeting_nonempty pict_blocks (Some [128512; 32; 65039]) pict_blocks_ascii).
  - apply (proj2 (proj2 (proj2 (getBootGreeting_nonempty pict_blocks (Some [128512; 32; 65039])
             pict_blocks_ascii))) [128512; 32; 65039] eq_refl).
    vm_compute. reflexivity.
Defined.

End StripEmojis.


(** * Audio hints of [speak]

    [speak] (src/widget-src/index.ts, lines 421-453) shows a hint through
    [ui.setError] when the speaker is muted ("Speaker is muted.", if more
    than 3500 ms passed since [lastAudioHintAt]) or when both server TTS
    and Web Speech failed ("Audio couldn't play. ...", if more than
    6000 ms passed); each hint sets [lastAudioHintAt := now]. The variable
    starts at 0 (line 126) and is written nowhere else. A call is its time
    [Date.now()] and how it ended. *)
Module SpeakHint.
Local Open Scope string_scope.

Inductive SpeakEnd :=
  | SMuted          (* [speakerMuted] was set *)
  | SPlayed         (* server TTS or Web Speech returned a result *)
  | SFailed.        (* both returned nothing *)

Definition muted_hint : string := "Speaker is muted.".
Definition failed_hint : string := "Audio couldn't play. Tap once to enable audio.".

(** One call: the new [lastAudioHintAt] and the hint shown, if any. *)
Definition speak_hint (lastAudioHintAt now : Z) (e : SpeakEnd)
  : Z * option string :=
  match e with
  | SMuted =>
      if now - lastAudioHintAt >? 3500 then (now, Some muted_hint)
      else (lastAudioHintAt, None)
  | SPlayed => (lastAudioHintAt, None)
  | SFailed =>
      if now - lastAudioHintAt >? 6000 then (now, Some failed_hint)
      else (lastAudioHintAt, None)
  end.

(** The hints shown over a sequence of calls, with their times. *)
Fixpoint hints (lastAudioHintAt : Z) (calls : list (Z * SpeakEnd))
  : list (Z * string) :=
  match calls with
  | [] => []
  | (now, e) :: rest =>
      let (l, h) := speak_hint lastAudioHintAt now e in
      match h with
      | Some m => (now, m) :: hints l rest
      | None => hints l rest
      end
  end.

(** Each hint is more than 3500 ms after the one before it (the first after
    [prev]), and more than 6000 ms for the failure hint. *)
Fixpoint spaced (prev : Z) (hs : list (Z * string)) : bool :=
  match hs with
  | [] => true
  | (t, m) :: rest =>
      (t - prev >? (if String.eqb m failed_hint then 6000 else 3500))
      && spaced t rest
  end.

Lemma hints_spaced (last : Z) (calls : list (Z * SpeakEnd)) :
  spaced last (hints last calls) = true.
Proof.
  revert last; induction calls as [|[now e] rest IH]; intros last; [reflexivity|].
  cbn [hints]. destruct e; cbn [speak_hint].
  - destruct (now - last >? 3500) eqn:E; [|apply IH].
    cbn [spaced]. rewrite IH, andb_true_r. exact E.
  - apply IH.
  - destruct (now - last >? 6000) eqn:E; [|apply IH].
    cbn [spaced]. rewrite IH, andb_true_r. exact E.
Qed.

Lemma hints_only_unplayed (last : Z) (calls : list (Z * SpeakEnd)) :
  (List.length (hints last calls)
   <= List.length (filter (fun c => match snd c with SPlayed => false | _ => true end) calls))%nat.
Proof.
  revert last; induction calls as [|[now e] rest IH]; intros last; cbn; [lia|].
  destruct e; cbn [speak_hint snd].
  - destruct (now - last >? 3500); cbn; [specialize (IH now) | specialize (IH last)]; lia.
  - apply IH.
  - destruct (now - last >? 6000); cbn; [specialize (IH now) | specialize (IH last)]; lia.
Qed.

(** ** Extra: audio hints are throttled *)

(** X13. Over any sequence of [speak] calls, whatever the clock does, each
    audio hint comes more than 3500 ms after the previous hint (more than
    6000 ms for "Audio couldn't play"), and there are no more hints than
    calls that did not play. *)
Theorem speak_hints_throttled (calls : list (Z * SpeakEnd)) :
  spaced 0 (hints 0 calls) = true /\
  (List.length (hints 0 calls)
   <= List.length (filter (fun c => match snd c with SPlayed => false | _ => true end) calls))%nat.
Proof. split; [apply hints_spaced | apply hints_only_unplayed]. Qed.

End SpeakHint.
